(** * ncc_publish: draft store, payload builder and publish queue

    A shallow embedding of the core of [ncc_publish.py]: the draft and tag
    tables, the canonical payload builder, the validation of authors and
    the commands that store them, the retry delay in float arithmetic and
    the dispatcher of the durable publish queue.  Every definition carries
    the name of the Python function it embeds. *)

From Stdlib Require Import ZArith QArith Qround Qabs Qpower Lia Lqa List Ascii.
From Stdlib Require SpecFloat.
From stdpp Require Import base option list sorting gmap strings pretty.

Set Warnings "-register-all".
Local Open Scope Z_scope.
Local Open Scope string_scope.
Local Open Scope list_scope.

(** ** Python values

    Payloads are the dicts that [json.load] returns and [json.dump] writes;
    [pyval] is the value type of such a dict.  JSON numbers are integers
    here (the program only ever stores [int] in a payload). *)

Inductive pyval : Type :=
| PNone : pyval
| PBool : bool -> pyval
| PInt : Z -> pyval
| PStr : string -> pyval
| PList : list pyval -> pyval
| PDict : gmap string pyval -> pyval.

(** A payload is a dict with string keys. *)
Abbreviation payload := (gmap string pyval).

(** [[key, value]], the shape of every tag the builder emits. *)
Definition tag2 (key value : string) : pyval := PList [PStr key; PStr value].

(** Truth value of a [str]: the empty string is falsy. *)
Definition str_truthy (s : string) : bool :=
  match s with EmptyString => false | _ => true end.

(** Truth value of an [Optional[str]]. *)
Definition opt_str_truthy (o : option string) : bool :=
  match o with Some s => str_truthy s | None => false end.

(** [x == key] for an arbitrary value [x] and a [str] [key]. *)
Definition py_eq_str (x : pyval) (key : string) : bool :=
  match x with PStr s => String.eqb s key | _ => false end.

(** [x == n] for an arbitrary value [x] and an [int] [n]; [True == 1] and
    [False == 0] as in Python. *)
Definition py_eq_int (x : pyval) (n : Z) : bool :=
  match x with
  | PInt z => Z.eqb z n
  | PBool b => Z.eqb (if b then 1 else 0) n
  | _ => false
  end.

(** [str(n)] for an [int]. *)
Definition py_str_of_int (n : Z) : string := pretty n.

(** ** Payload builder *)

Module Builder.

(** One iteration of the loop of [_tags_to_map]:
    [mapped.setdefault(key, []).append(value)]. *)
Definition setdefault_append (mapped : gmap string (list string))
    (kv : string * string) : gmap string (list string) :=
  <[ kv.1 := default [] (mapped !! kv.1) ++ [kv.2] ]> mapped.

Definition _tags_to_map (tags : list (string * string))
    : gmap string (list string) :=
  fold_left setdefault_append tags ∅.

(** [if key in tag_map: tags_list.append([key, tag_map[key][0]])].
    [None] stands for the [IndexError] of [[0]] on an empty list. *)
Definition emit_first (tag_map : gmap string (list string)) (key : string)
    : option (list pyval) :=
  match tag_map !! key with
  | None => Some []
  | Some vs => v ← head vs; Some [tag2 key v]
  end.

(** [for x in tag_map.get(key, []): tags_list.append([key, x])]. *)
Definition emit_all (tag_map : gmap string (list string)) (key : string)
    : list pyval :=
  map (tag2 key) (default [] (tag_map !! key)).

(** [published_at = tag_map.get("published_at", [None])[0]] followed by
    [if published_at: tags_list.append(["published_at", published_at])]. *)
Definition emit_published_at (tag_map : gmap string (list string))
    : option (list pyval) :=
  published_at ← head (default [None] (fmap (map Some) (tag_map !! "published_at")));
  Some (if opt_str_truthy published_at
        then match published_at with
             | Some v => [tag2 "published_at" v]
             | None => []
             end
        else []).

(** [if title: tags_list.append(["title", title])]. *)
Definition emit_title (title : option string) : list pyval :=
  match title with
  | Some t => if str_truthy t then [tag2 "title" t] else []
  | None => []
  end.

(** The tag list built by [_payload_from_draft]. *)
Definition draft_tags_list (kind : Z) (d : string) (title : option string)
    (tags : list (string * string)) : option (list pyval) :=
  let tag_map := _tags_to_map tags in
  let tags_list := [tag2 "d" d] in
  if Z.eqb kind 30050 then
    let tags_list := tags_list ++ emit_title title in
    p ← emit_published_at tag_map;
    let tags_list := tags_list ++ p in
    s ← emit_first tag_map "summary";
    let tags_list := tags_list ++ s in
    let tags_list := tags_list ++ emit_all tag_map "t" in
    l ← emit_first tag_map "lang";
    let tags_list := tags_list ++ l in
    v ← emit_first tag_map "version";
    let tags_list := tags_list ++ v in
    let tags_list := tags_list ++ emit_all tag_map "supersedes" in
    c ← emit_first tag_map "license";
    let tags_list := tags_list ++ c in
    let tags_list := tags_list ++ emit_all tag_map "authors" in
    e ← emit_first tag_map "eventid";
    Some (tags_list ++ e)
  else
    a ← emit_first tag_map "authoritative";
    let tags_list := tags_list ++ a in
    s ← emit_first tag_map "steward";
    let tags_list := tags_list ++ s in
    p ← emit_first tag_map "previous";
    let tags_list := tags_list ++ p in
    r ← emit_first tag_map "reason";
    let tags_list := tags_list ++ r in
    f ← emit_first tag_map "effective_at";
    let tags_list := tags_list ++ f in
    e ← emit_first tag_map "eventid";
    Some (tags_list ++ e).

(** [_payload_from_draft]; [None] would be an uncaught [IndexError]. *)
Definition _payload_from_draft (kind : Z) (d : string) (title : option string)
    (content : string) (tags : list (string * string)) (created_at : Z)
    : option payload :=
  tags_list ← draft_tags_list kind d title tags;
  Some (<["tags" := PList tags_list]>
        (<["kind" := PInt kind]>
         (<["created_at" := PInt created_at]>
          (<["content" := PStr content]> ∅)))).

(** [_ensure_tags]. *)
Definition _ensure_tags (p : payload) : list pyval :=
  match default (PList []) (p !! "tags") with
  | PList tags => tags
  | _ => []
  end.

(** The filter of [_upsert_single_tag]:
    [isinstance(tag, list) and tag and tag[0] != key]. *)
Definition keeps_tag (key : string) (tag : pyval) : bool :=
  match tag with
  | PList (x :: _) => negb (py_eq_str x key)
  | _ => false
  end.

Definition _upsert_single_tag (tags : list pyval) (key value : string)
    : list pyval :=
  List.filter (keeps_tag key) tags ++ [tag2 key value].

(** [_prepare_payload_for_publish], with the reading of the clock passed
    in as [now]; the dict is updated in place, so the result is the one
    object every later step of the attempt sees. *)
Definition _prepare_payload_for_publish (now : Z) (p : payload) : payload :=
  let p := <["created_at" := PInt now]> p in
  let tags := _ensure_tags p in
  let tags :=
    if match p !! "kind" with Some k => py_eq_int k 30050 | None => false end
    then _upsert_single_tag tags "published_at" (py_str_of_int now)
    else tags in
  <["tags" := PList tags]> p.

(** [_finalize_payload_publish]. *)
Definition _finalize_payload_publish (p : payload) (event_id : string)
    : payload :=
  <["tags" := PList (_upsert_single_tag (_ensure_tags p) "eventid" event_id)]> p.

(** [_add_or_replace_tag]. *)
Definition _add_or_replace_tag (tags : list (string * string))
    (key value : string) : list (string * string) :=
  List.filter (fun kv => negb (String.eqb kv.1 key)) tags ++ [(key, value)].

End Builder.

(** ** Draft store

    A table is the list of its rows in rowid order, the order in which a
    scan of the table visits them.  [updated_at], [created_at], [content]
    and [status] are nullable columns that the program always writes with
    a value, so they are not optional here. *)

Module Store.

(** A row of [drafts]. *)
Record Draft : Type := mkDraft {
  dr_id : Z;
  dr_kind : Z;
  dr_d : string;
  dr_title : option string;
  dr_content : string;
  dr_created_at : Z;
  dr_updated_at : Z;
  dr_published_at : option Z;
  dr_event_id : option string;
  dr_status : string
}.

(** A row of [tags]. *)
Record TagRow : Type := mkTagRow {
  t_draft_id : Z;
  t_key : string;
  t_value : string
}.

(** A row of [publish_queue].  [q_payload] and [q_relays] hold the JSON
    value of the stored text, [None] for NULL. *)
Record QueueRow : Type := mkQueueRow {
  q_id : Z;
  q_task_id : string;
  q_config_path : option string;
  q_task_type : string;
  q_draft_id : option Z;
  q_json_path : option string;
  q_payload : option pyval;
  q_relays : option pyval;
  q_attempts : Z;
  q_max_attempts : Z;
  q_next_attempt_at : Z;
  q_created_at : Z;
  q_last_error : option string
}.

(** One sqlite file: the four tables of [_db_init].  [config] is the JSON
    value stored under the key [root], [None] when the row is missing or
    does not decode. *)
Record Database : Type := mkDatabase {
  drafts : list Draft;
  tags : list TagRow;
  config : option pyval;
  publish_queue : list QueueRow
}.

(** The database [_db_init] leaves behind on a fresh file. *)
Definition empty_db : Database := mkDatabase [] [] None [].

Definition set_drafts (db : Database) (ds : list Draft) : Database :=
  mkDatabase ds (tags db) (config db) (publish_queue db).

Definition set_tags (db : Database) (ts : list TagRow) : Database :=
  mkDatabase (drafts db) ts (config db) (publish_queue db).

Definition set_publish_queue (db : Database) (qs : list QueueRow) : Database :=
  mkDatabase (drafts db) (tags db) (config db) qs.

(** The rowid sqlite gives to a row inserted without one: 1 in an empty
    table, else one more than the largest in the table.  sqlite does so as
    long as the largest is below 2^63 - 1; there it picks an unused rowid at
    random instead.  The program never supplies a rowid, so the tables it
    fills hold 1, 2, 3 and so on. *)
Definition next_rowid (ids : list Z) : Z :=
  match ids with
  | [] => 1
  | id :: rest => 1 + fold_right Z.max id rest
  end.

(** [order by]: sqlite's sorter is stable, rows with equal keys stay in
    scan order.  [before x y] says that [x] may come before [y]. *)
Fixpoint insert_by {A : Type} (before : A -> A -> bool) (x : A) (l : list A)
    : list A :=
  match l with
  | [] => [x]
  | y :: l' => if before x y then x :: y :: l' else y :: insert_by before x l'
  end.

Definition order_by {A : Type} (before : A -> A -> bool) (l : list A) : list A :=
  fold_right (insert_by before) [] l.

(** [coalesce(?, column)]. *)
Definition coalesce {A : Type} (supplied : option A) (stored : option A)
    : option A :=
  match supplied with Some x => Some x | None => stored end.

(** [_db_set_tags]. *)
Definition _db_set_tags (db : Database) (draft_id : Z)
    (new_tags : list (string * string)) : Database :=
  let kept := List.filter (fun t => negb (Z.eqb (t_draft_id t) draft_id)) (tags db) in
  set_tags db (kept ++ map (fun kv => mkTagRow draft_id kv.1 kv.2) new_tags).

(** [_db_get_tags]. *)
Definition _db_get_tags (db : Database) (draft_id : Z) : list (string * string) :=
  map (fun t => (t_key t, t_value t))
      (List.filter (fun t => Z.eqb (t_draft_id t) draft_id) (tags db)).

(** [_db_insert_draft]; [now] is the reading of [_now()].  Returns the new
    draft id and the database after the commit. *)
Definition _db_insert_draft (db : Database) (now : Z) (kind : Z) (d : string)
    (title : option string) (content : string) (new_tags : list (string * string))
    (status : string) (published_at : option Z) : Z * Database :=
  let draft_id := next_rowid (map dr_id (drafts db)) in
  let row := mkDraft draft_id kind d title content now now published_at None status in
  let db := set_drafts db (drafts db ++ [row]) in
  (draft_id, _db_set_tags db draft_id new_tags).

(** The [set] clause of the [update drafts] statement. *)
Definition update_row (now : Z) (title : option string) (content : string)
    (status : option string) (published_at : option Z)
    (event_id : option string) (r : Draft) : Draft :=
  mkDraft (dr_id r) (dr_kind r) (dr_d r) title content (dr_created_at r) now
          (coalesce published_at (dr_published_at r))
          (coalesce event_id (dr_event_id r))
          (default (dr_status r) status).

(** [_db_update_draft]. *)
Definition _db_update_draft (db : Database) (now : Z) (draft_id : Z)
    (title : option string) (content : string) (new_tags : list (string * string))
    (status : option string) (published_at : option Z)
    (event_id : option string) : Database :=
  let upd r :=
    if Z.eqb (dr_id r) draft_id
    then update_row now title content status published_at event_id r
    else r in
  let db := set_drafts db (map upd (drafts db)) in
  _db_set_tags db draft_id new_tags.

(** [order by updated_at desc]. *)
Definition newer_first (x y : Draft) : bool :=
  Z.leb (dr_updated_at y) (dr_updated_at x).

(** [_db_get_latest_draft]. *)
Definition _db_get_latest_draft (db : Database) (kind : Z) (d : string)
    : option Draft :=
  head (order_by newer_first
          (List.filter (fun r => Z.eqb (dr_kind r) kind && String.eqb (dr_d r) d)
                       (drafts db))).

(** [select * from drafts where id = ?] followed by [fetchone]. *)
Definition draft_by_id (db : Database) (draft_id : Z) : option Draft :=
  head (List.filter (fun r => Z.eqb (dr_id r) draft_id) (drafts db)).

End Store.

(** ** The nostr_sdk boundary and the file system

    What the program calls but does not define: key and tag parsing, the
    event builder, delivery to the relays, and [os.path.expanduser].  A
    call that raises is a result [inl text], [text] being [str(exc)] of
    the exception, which is always an [Exception] of the library. *)

Class Externals : Type := {
  Keys : Type;
  Keys_parse : pyval -> string + Keys;
  PublicKey_parse : string -> bool;
  Tag_parse : list pyval -> option string;
  EventBuilder_error : payload -> option string;
  client_send_event : payload -> pyval -> Keys -> string + string;
  expanduser : string -> string
}.

(** ** Author validation *)

Module Validate.

(** [str.isspace] on one character; a string is a sequence of code points
    below 256. *)
Definition py_isspace (c : Ascii.ascii) : bool :=
  let n := Ascii.N_of_ascii c in
  ((9 <=? n) && (n <=? 13) || (28 <=? n) && (n <=? 32)
   || (n =? 133) || (n =? 160))%N.

Fixpoint lstrip (s : string) : string :=
  match s with
  | String c s' => if py_isspace c then lstrip s' else s
  | EmptyString => EmptyString
  end.

(** [rstrip]: a character goes when it is white space and nothing but white
    space follows. *)
Fixpoint rstrip (s : string) : string :=
  match s with
  | String c s' =>
      match rstrip s' with
      | EmptyString => if py_isspace c then EmptyString else String c EmptyString
      | r => String c r
      end
  | EmptyString => EmptyString
  end.

(** [str.strip()]. *)
Definition strip (s : string) : string := rstrip (lstrip s).

(** [[item.strip() for item in authors if item and item.strip()]]. *)
Definition normalize (authors : list string) : list string :=
  map strip (List.filter (fun item => str_truthy item && str_truthy (strip item)) authors).

(** The body of the loop over [normalized]: the entry of [errors] a value
    adds, if it adds one. *)
Definition author_error `{Externals} (value : string) : option string :=
  if String.prefix "nsec" value
  then Some (value +:+ " looks like a secret key (nsec)")
  else if PublicKey_parse value then None
  else Some (value +:+ " is not a valid npub or hex public key").

(** [_validate_author_keys]; [inl text] is [raise ValueError(text)]. *)
Definition _validate_author_keys `{Externals} (authors : option (list string))
    : string + list string :=
  match authors with
  | None | Some [] => inr []
  | Some authors =>
      let normalized := normalize authors in
      match normalized with
      | [] => inr []
      | _ =>
          let errors := omap author_error normalized in
          match errors with
          | [] => inr normalized
          | _ => inl ("Authors must be npub or hex public keys. Invalid entries: "
                      +:+ String.concat "; " errors)
          end
      end
  end.

(** [_ncc_tags_from_inputs] as [create-ncc] calls it ([published_at] left at
    its default [None]). *)
Definition _ncc_tags_from_inputs (summary : option string) (topics : list string)
    (lang version : option string) (supersedes : list string)
    (license_id : option string) (authors : list string)
    : list (string * string) :=
  let opt key (o : option string) :=
    match o with
    | Some v => if str_truthy v then [(key, v)] else []
    | None => []
    end in
  opt "summary" summary ++ map (pair "t") topics ++ opt "lang" lang
  ++ opt "version" version ++ map (pair "supersedes") supersedes
  ++ opt "license" license_id ++ map (pair "authors") authors.

(** The part of the [create-ncc] command of [main] from the validation of
    the authors to the insert: a [ValueError] becomes [SystemExit(str(exc))]
    before [_db_insert_draft] is reached.  [inl text] is that exit. *)
Definition create_ncc_store `{Externals} (db : Store.Database) (now : Z)
    (d title content : string) (summary : option string) (topics : list string)
    (lang version : option string) (supersedes : list string)
    (license_id : option string) (authors_list : option (list string))
    : (string + Z) * Store.Database :=
  match _validate_author_keys authors_list with
  | inl text => (inl text, db)
  | inr authors_list =>
      let tags := _ncc_tags_from_inputs summary topics lang version
                    supersedes license_id authors_list in
      let '(draft_id, db) :=
        Store._db_insert_draft db now 30050 d (Some title) content tags "draft" None in
      (inr draft_id, db)
  end.

End Validate.

(** ** Python floats

    A Python [float] is an IEEE 754 binary64 number.  A finite one is a
    rational, and an arithmetic operation gives its exact result rounded to
    the nearest double, a tie going to the double whose significand is even.
    Doubles in a binade [2^e <= |x| < 2^(e+1)] are the multiples of
    [2^(e-52)], and of [2^-1074] below the normal range.  Results beyond the
    largest double, which become infinite, do not arise in the program. *)

Module Binary64.

(** The nearest integer, a tie going to the even one. *)
Definition round_half_even (x : Q) : Z :=
  let q := Qfloor x in
  match (x - inject_Z q ?= 1 # 2)%Q with
  | Lt => q
  | Gt => q + 1
  | Eq => if Z.even q then q else q + 1
  end.

(** [floor(log2(x))] for a positive [x]. *)
Definition ilog2 (x : Q) : Z :=
  let k := Z.log2 (Qnum x) - Z.log2 (Zpos (Qden x)) in
  if Qle_bool (2 ^ k) x then k else k - 1.

(** The exponent of the spacing of the doubles in the binade of [2^e]. *)
Definition ulp_exponent (e : Z) : Z := Z.max (e - 52) (-1074).

(** The double nearest to [x]. *)
Definition round64 (x : Q) : Q :=
  if Qeq_bool x 0 then 0%Q
  else let ulp := (2 ^ ulp_exponent (ilog2 (Qabs x)))%Q in
       Qred (inject_Z (round_half_even (x / ulp)) * ulp).

(** [x + y] and [x * y] on floats, and [float(n)]. *)
Definition add (x y : Q) : Q := round64 (x + y).
Definition mul (x y : Q) : Q := round64 (x * y).
Definition of_int (n : Z) : Q := round64 (inject_Z n).

(** The rational that a finite number of the Standard Library's
    specification of IEEE 754 arithmetic stands for. *)
Definition of_spec (f : SpecFloat.spec_float) : Q :=
  match f with
  | SpecFloat.S754_finite s m e =>
      Qred ((if s then -1 else 1) * inject_Z (Zpos m) * 2 ^ e)
  | _ => 0%Q
  end.

End Binary64.

(** ** Retry delay *)

Module Backoff.

Definition _QUEUE_MAX_ATTEMPTS : Z := 5.
Definition _QUEUE_BASE_DELAY : Z := 30.
Definition _QUEUE_MAX_DELAY : Z := 3600.

(** The literal [0.2]: the double nearest to one fifth. *)
Definition _QUEUE_JITTER : Q := Binary64.round64 (2 # 10).

(** [int(x)]: truncation toward zero. *)
Definition py_int (x : Q) : Z := Z.quot (Qnum x) (Zpos (Qden x)).

(** The first line of [_compute_retry_delay]. *)
Definition base_delay (attempts : Z) : Z :=
  Z.min _QUEUE_MAX_DELAY (_QUEUE_BASE_DELAY * 2 ^ Z.max (attempts - 1) 0).

(** [_compute_retry_delay]; [u] is the double that
    [random.uniform(-_QUEUE_JITTER, _QUEUE_JITTER)] returned.  [1.0 + u]
    and [base * jitter] are float operations, the second on [float(base)]. *)
Definition _compute_retry_delay (attempts : Z) (u : Q) : Z :=
  let base := base_delay attempts in
  let jitter := Binary64.add 1 u in
  Z.max 1 (py_int (Binary64.mul (Binary64.of_int base) jitter)).

End Backoff.

(** ** Publish queue *)

Module Queue.
Import Store.

(** The two classes of exception the program meets: [SystemExit] derives
    from [BaseException], not from [Exception], so [except Exception] lets
    it pass. *)
Inductive exn : Type :=
| Exception (text : string)
| SystemExit (text : string).

Inductive outcome (A : Type) : Type :=
| Returns (a : A)
| Raises (e : exn).
Arguments Returns {A} a.
Arguments Raises {A} e.

(** A callable passed as [output]; the world keeps the messages it was
    called with. *)
Variant callable : Type := Callable.

(** What the program reads and writes.  A database file that does not exist
    yet reads as [empty_db], which is what [_db_init] makes of it.  A JSON
    file is absent ([None]), undecodable ([inl text], the text of the
    [JSONDecodeError]) or holds a value.  Directories are not kept: the
    directory that a path names exists or can be created, and the path of a
    database names one.  [clock] and [uniform] are the
    successive readings of [time.time()] and of [random.uniform]. *)
Record World : Type := mkWorld {
  dbs : string -> Database;
  files : string -> option (string + pyval);
  clock : nat -> Z;
  ticks : nat;
  uniform : nat -> Q;
  draws : nat;
  notices : list string
}.

Definition set_dbs (w : World) (f : string -> Database) : World :=
  mkWorld f (files w) (clock w) (ticks w) (uniform w) (draws w) (notices w).
Definition set_files (w : World) (f : string -> option (string + pyval)) : World :=
  mkWorld (dbs w) f (clock w) (ticks w) (uniform w) (draws w) (notices w).
Definition set_ticks (w : World) (n : nat) : World :=
  mkWorld (dbs w) (files w) (clock w) n (uniform w) (draws w) (notices w).
Definition set_draws (w : World) (n : nat) : World :=
  mkWorld (dbs w) (files w) (clock w) (ticks w) (uniform w) n (notices w).
Definition set_notices (w : World) (l : list string) : World :=
  mkWorld (dbs w) (files w) (clock w) (ticks w) (uniform w) (draws w) l.

(** Computations that read and write the world and may raise. *)
Definition M (A : Type) : Type := World -> outcome A * World.

Definition ret {A : Type} (a : A) : M A := fun w => (Returns a, w).

Definition bind {A B : Type} (c : M A) (k : A -> M B) : M B :=
  fun w => match c w with
           | (Returns a, w') => k a w'
           | (Raises e, w') => (Raises e, w')
           end.

Definition raise {A : Type} (e : exn) : M A := fun w => (Raises e, w).

Notation "'let*' x := c 'in' k" := (bind c (fun x => k))
  (at level 10, x pattern, c at level 100, k at level 200).
Notation "c ;;; k" := (bind c (fun _ => k))
  (at level 100, k at level 200, right associativity).

(** [try: body except Exception as exc: handler(str(exc))]. *)
Definition try_except_Exception {A : Type} (body : M A) (handler : string -> M A)
    : M A :=
  fun w => match body w with
           | (Raises (Exception text), w') => handler text w'
           | r => r
           end.

(** [_now]. *)
Definition _now : M Z :=
  fun w => (Returns (clock w (ticks w)), set_ticks w (S (ticks w))).

(** [random.uniform(-_QUEUE_JITTER, _QUEUE_JITTER)]. *)
Definition random_uniform : M Q :=
  fun w => (Returns (uniform w (draws w)), set_draws w (S (draws w))).

(** [_compute_retry_delay], drawing its jitter from the world. *)
Definition _compute_retry_delay (attempts : Z) : M Z :=
  let* u := random_uniform in
  ret (Backoff._compute_retry_delay attempts u).

(** The database behind a connection to [path], and its commit. *)
Definition get_db (path : string) : M Database :=
  fun w => (Returns (dbs w path), w).

Definition put_db (path : string) (db : Database) : M unit :=
  fun w => (Returns tt,
            set_dbs w (fun p => if String.eqb p path then db else dbs w p)).

(** Truth value of a Python value. *)
Definition py_truthy (v : pyval) : bool :=
  match v with
  | PNone => false
  | PBool b => b
  | PInt z => negb (Z.eqb z 0)
  | PStr s => str_truthy s
  | PList l => match l with [] => false | _ => true end
  | PDict m => negb (Nat.eqb (size m) 0)
  end.

(** The task dict of [_queue_row_to_task]. *)
Record Task : Type := mkTask {
  task_id : string;
  task_type : string;
  task_config_path : option string;
  task_draft_id : option Z;
  task_json_path : option string;
  task_payload : pyval;
  task_relays : pyval;
  task_attempts : Z;
  task_max_attempts : Z;
  task_next_attempt_at : Z;
  task_created_at : Z
}.

(** [_queue_row_to_task]. *)
Definition _queue_row_to_task (row : QueueRow) : Task :=
  mkTask (q_task_id row) (q_task_type row) (q_config_path row) (q_draft_id row)
         (q_json_path row) (default PNone (q_payload row))
         (default (PList []) (q_relays row))
         (q_attempts row) (q_max_attempts row) (q_next_attempt_at row)
         (q_created_at row).

(** [_queue_notice]. *)
Definition _queue_notice (output : option callable) (message : string) : M unit :=
  fun w => match output with
           | Some _ => (Returns tt, set_notices w (notices w ++ [message]))
           | None => (Returns tt, w)
           end.

Section WithSdk.
Context `{Externals}.

Definition _default_db_path : string := expanduser "~/.config/ncc_publish/ncc.sqlite".

(** [_resolve_db_path]. *)
Definition _resolve_db_path (config_path : option string) : string :=
  match config_path with
  | Some p => if str_truthy p then expanduser p else _default_db_path
  | None => _default_db_path
  end.

(** [_load_config_db]. *)
Definition _load_config_db (config_path : option string) : M pyval :=
  let* db := get_db (_resolve_db_path config_path) in
  ret (default (PDict ∅) (config db)).

(** [_resolve_relays]. *)
Definition _resolve_relays (relays : pyval) (config : pyval) : pyval :=
  if py_truthy relays then relays
  else match config with
       | PDict c =>
           let r := default (PList []) (c !! "relays") in
           if py_truthy r then r else PList []
       | _ => PList []
       end.

(** [_load_privkey_from_config]; [PNone] is [None]. *)
Definition _load_privkey_from_config (config_path : option string) : M pyval :=
  if opt_str_truthy config_path then
    let* config := _load_config_db config_path in
    match config with
    | PDict c => ret (default PNone (c !! "privkey"))
    | _ => ret PNone
    end
  else ret PNone.

(** The loop of [build_event_from_json] over [tags_value]. *)
Fixpoint parse_tags (tags_value : list pyval) : option exn :=
  match tags_value with
  | [] => None
  | PList l :: rest =>
      match Tag_parse l with
      | Some text => Some (Exception text)
      | None => parse_tags rest
      end
  | _ :: _ => Some (SystemExit "Each tag must be a list")
  end.

(** [build_event_from_json]: the checks it makes before the builder of the
    library takes over. *)
Definition build_event_from_json (p : payload) : outcome unit :=
  match p !! "kind" with
  | None | Some PNone => Raises (SystemExit "JSON is missing required field: kind")
  | Some _ =>
      match default (PList []) (p !! "tags") with
      | PList tags_value =>
          match parse_tags tags_value with
          | Some e => Raises e
          | None =>
              match EventBuilder_error p with
              | Some text => Raises (Exception text)
              | None => Returns tt
              end
          end
      | _ => Raises (SystemExit "JSON field tags must be a list")
      end
  end.

(** [publish_event], run to completion by [asyncio.run]. *)
Definition publish_event (p : payload) (relays : pyval) (keys : Keys)
    : outcome string :=
  if py_truthy relays then
    match client_send_event p relays keys with
    | inl text => Raises (Exception text)
    | inr event_id => Returns event_id
    end
  else Raises (SystemExit "At least one --relay is required to publish.").

Definition lift {A : Type} (o : outcome A) : M A := fun w => (o, w).

(** [_attempt_publish_payload]; it returns the event id, and here also the
    payload as the call left it, since the dict is changed in place. *)
Definition _attempt_publish_payload (p : payload) (relays : pyval) (keys : Keys)
    : M (string * payload) :=
  let* now := _now in
  let p := Builder._prepare_payload_for_publish now p in
  lift (build_event_from_json p) ;;;
  let* event_id := lift (publish_event p relays keys) in
  ret (event_id, p).

(** [_load_json]. *)
Definition _load_json (path : string) : M pyval :=
  fun w => match files w path with
           | None => (Returns (PDict ∅), w)
           | Some (inl text) => (Raises (Exception text), w)
           | Some (inr v) => (Returns v, w)
           end.

(** [sep in p]. *)
Fixpoint has_slash (p : string) : bool :=
  match p with
  | String c rest => Ascii.eqb c "/" || has_slash rest
  | EmptyString => false
  end.

(** [p[:p.rfind(sep) + 1]]. *)
Fixpoint path_head (p : string) : string :=
  match p with
  | String c rest => if has_slash p then String c (path_head rest) else EmptyString
  | EmptyString => EmptyString
  end.

(** [head == sep * len(head)]. *)
Fixpoint all_slashes (head : string) : bool :=
  match head with
  | String c rest => Ascii.eqb c "/" && all_slashes rest
  | EmptyString => true
  end.

(** [head.rstrip(sep)]. *)
Fixpoint rstrip_slashes (head : string) : string :=
  match head with
  | String c rest =>
      match rstrip_slashes rest with
      | EmptyString => if Ascii.eqb c "/" then EmptyString else String c EmptyString
      | r => String c r
      end
  | EmptyString => EmptyString
  end.

(** [os.path.dirname] of [posixpath]. *)
Definition dirname (p : string) : string :=
  let head := path_head p in
  if str_truthy head && negb (all_slashes head) then rstrip_slashes head else head.

(** [_write_json].  [os.makedirs] refuses the empty directory name of a path
    without a slash with a [FileNotFoundError], before the file is opened;
    any other directory is taken to exist or to be created. *)
Definition _write_json (path : string) (data : payload) : M unit :=
  if str_truthy (dirname path)
  then fun w => (Returns tt,
                 set_files w (fun p => if String.eqb p path then Some (inr (PDict data))
                                       else files w p))
  else raise (Exception "[Errno 2] No such file or directory: ''").

(** The [TypeError] of [payload["created_at"] = now] on a value that is not
    a dict. *)
Definition item_assignment_error (v : pyval) : string :=
  match v with
  | PList _ => "list indices must be integers or slices, not str"
  | PNone => "'NoneType' object does not support item assignment"
  | PBool _ => "'bool' object does not support item assignment"
  | PInt _ => "'int' object does not support item assignment"
  | PStr _ => "'str' object does not support item assignment"
  | PDict _ => ""
  end.

(** [_attempt_publish_json]. *)
Definition _attempt_publish_json (json_path : string) (relays : pyval)
    (keys : Keys) : M string :=
  let* v := _load_json json_path in
  match v with
  | PDict p =>
      let* (event_id, p) := _attempt_publish_payload p relays keys in
      let p := Builder._finalize_payload_publish p event_id in
      _write_json json_path p ;;;
      ret event_id
  | _ => _now ;;; raise (Exception (item_assignment_error v))
  end.

(** [_attempt_publish_draft]. *)
Definition _attempt_publish_draft (config_path : option string) (draft_id : Z)
    (relays : pyval) (keys : Keys) : M string :=
  let path := _resolve_db_path config_path in
  let* db := get_db path in
  match draft_by_id db draft_id with
  | None => raise (SystemExit "Draft not found.")
  | Some draft =>
      let tags := _db_get_tags db (dr_id draft) in
      let* created_at := _now in
      match Builder._payload_from_draft (dr_kind draft) (dr_d draft)
              (dr_title draft) (dr_content draft) tags created_at with
      | None => raise (Exception "list index out of range")
      | Some p =>
          let* (event_id, _) := _attempt_publish_payload p relays keys in
          let* published_at :=
            (if Z.eqb (dr_kind draft) 30050
             then let* t := _now in ret (Some t)
             else ret None) in
          let tags := Builder._add_or_replace_tag tags "eventid" event_id in
          let tags :=
            match published_at with
            | Some t => Builder._add_or_replace_tag tags "published_at" (py_str_of_int t)
            | None => tags
            end in
          let* db := get_db path in
          let* now := _now in
          put_db path (_db_update_draft db now (dr_id draft) (dr_title draft)
                         (dr_content draft) tags (Some "published") published_at
                         (Some event_id)) ;;;
          ret event_id
      end
  end.

(** [_run_publish_task]. *)
Definition _run_publish_task (task : Task) : M string :=
  let config_path := task_config_path task in
  let* config :=
    (if opt_str_truthy config_path then _load_config_db config_path
     else ret (PDict ∅)) in
  let relays := _resolve_relays (task_relays task) config in
  let* privkey := _load_privkey_from_config config_path in
  if py_truthy privkey then
    match Keys_parse privkey with
    | inl text => raise (Exception text)
    | inr keys =>
        let kind := task_type task in
        if String.eqb kind "draft" then
          match task_draft_id task with
          | Some draft_id => _attempt_publish_draft config_path draft_id relays keys
          | None => raise (Exception
              "int() argument must be a string, a bytes-like object or a real number, not 'NoneType'")
          end
        else if String.eqb kind "json" then
          match task_json_path task with
          | Some json_path => _attempt_publish_json json_path relays keys
          | None => raise (Exception
              "expected str, bytes or os.PathLike object, not NoneType")
          end
        else if String.eqb kind "payload" then
          match task_payload task with
          | PDict p =>
              let* (event_id, _) := _attempt_publish_payload p relays keys in
              ret event_id
          | _ => raise (SystemExit "Queued payload is invalid.")
          end
        else raise (SystemExit "Unknown queued publish type.")
    end
  else raise (SystemExit "Missing privkey for queued publish.").

(** [order by next_attempt_at asc]. *)
Definition due_first (x y : QueueRow) : bool :=
  Z.leb (q_next_attempt_at x) (q_next_attempt_at y).

(** The [select] of [_process_publish_queue_db] followed by [fetchone]. *)
Definition select_due (db : Database) (now : Z) : option QueueRow :=
  head (order_by due_first
          (List.filter (fun r => Z.leb (q_next_attempt_at r) now) (publish_queue db))).

(** [delete from publish_queue where id = ?]. *)
Definition delete_task (db_path : string) (id : Z) : M unit :=
  let* db := get_db db_path in
  put_db db_path
    (set_publish_queue db
       (List.filter (fun r => negb (Z.eqb (q_id r) id)) (publish_queue db))).

(** The [set] clause of the [update publish_queue] statement. *)
Definition retry_row (attempts next_attempt_at : Z) (last_error : string)
    (r : QueueRow) : QueueRow :=
  mkQueueRow (q_id r) (q_task_id r) (q_config_path r) (q_task_type r)
             (q_draft_id r) (q_json_path r) (q_payload r) (q_relays r)
             attempts (q_max_attempts r) next_attempt_at (q_created_at r)
             (Some last_error).

(** [update publish_queue set ... where id = ?]. *)
Definition reschedule_task (db_path : string) (id attempts next_attempt_at : Z)
    (last_error : string) : M unit :=
  let* db := get_db db_path in
  put_db db_path
    (set_publish_queue db
       (map (fun r => if Z.eqb (q_id r) id
                      then retry_row attempts next_attempt_at last_error r
                      else r)
            (publish_queue db))).

Definition succeeded_message (event_id : string) : string :=
  "Queued publish succeeded (event " +:+ event_id +:+ ").".

Definition abandoned_message (attempts : Z) (exc : string) : string :=
  "Queued publish failed permanently after " +:+ py_str_of_int attempts
  +:+ " attempts: " +:+ exc.

Definition failed_message (attempts max_attempts : Z) (exc : string) : string :=
  "Queued publish failed (attempt " +:+ py_str_of_int attempts +:+ "/"
  +:+ py_str_of_int max_attempts +:+ "): " +:+ exc.

(** The [except Exception as exc] branch of [_process_publish_queue_db]. *)
Definition on_failure (db_path : string) (output : option callable)
    (row : QueueRow) (task : Task) (exc : string) : M bool :=
  let attempts := task_attempts task + 1 in
  let max_attempts := task_max_attempts task in
  (if Z.leb max_attempts attempts then
     delete_task db_path (q_id row) ;;;
     _queue_notice output (abandoned_message attempts exc)
   else
     let* delay := _compute_retry_delay (attempts + 1) in
     let* t := _now in
     let next_attempt_at := t + delay in
     reschedule_task db_path (q_id row) attempts next_attempt_at exc ;;;
     _queue_notice output (failed_message attempts max_attempts exc)) ;;;
  ret true.

(** [_process_publish_queue_db].  The program runs one thread here, so
    taking [_PUBLISH_LOCK] changes nothing. *)
Definition _process_publish_queue_db (db_path : string)
    (output : option callable) : M bool :=
  let* db := get_db db_path in
  let* now := _now in
  match select_due db now with
  | None => ret false
  | Some row =>
      let task := _queue_row_to_task row in
      try_except_Exception
        (let* event_id := _run_publish_task task in
         _queue_notice output (succeeded_message event_id) ;;;
         delete_task db_path (q_id row) ;;;
         ret true)
        (on_failure db_path output row task)
  end.

End WithSdk.

End Queue.

(** ** Text helpers of the prompts *)

Module Text.
Import Validate.

(** [str.lower()] on one code point below 256: the letters A-Z and the
    capital letters of Latin-1 (all of 192-222 but the multiplication
    sign). *)
Definition py_lower_char (c : Ascii.ascii) : Ascii.ascii :=
  let n := Ascii.N_of_ascii c in
  if ((65 <=? n) && (n <=? 90)
      || (192 <=? n) && (n <=? 222) && negb (n =? 215))%N
  then Ascii.ascii_of_N (n + 32)
  else c.

Fixpoint lower (s : string) : string :=
  match s with
  | String c s' => String (py_lower_char c) (lower s')
  | EmptyString => EmptyString
  end.

(** [_format_ncc_identifier]. *)
Definition _format_ncc_identifier (raw : string) : string :=
  let value := strip raw in
  if negb (str_truthy value) then ""
  else if String.prefix "ncc-" (lower value) then value
  else "ncc-" +:+ value.

(** [" " * n]. *)
Fixpoint spaces (n : nat) : string :=
  match n with
  | O => EmptyString
  | S n' => String " " (spaces n')
  end.

(** [_pad_to_width]. *)
Definition _pad_to_width (text : string) (width : Z) : string :=
  if Z.leb width 0 then text
  else if Z.leb width (Z.of_nat (String.length text)) then text
  else text +:+ spaces (Z.to_nat (width - Z.of_nat (String.length text))).

(** [_normalize_optional_str]. *)
Definition _normalize_optional_str (value : option string) : option string :=
  match value with
  | None => None
  | Some value =>
      let stripped := strip value in
      if str_truthy stripped then Some stripped else None
  end.

(** [_format_list_default]. *)
Definition _format_list_default (values : option (list string)) : option string :=
  match values with
  | None | Some [] => None
  | Some values => Some (String.concat ", " values)
  end.

(** [raw.split(",")]: the pieces between the commas, empty ones included. *)
Fixpoint split_comma (raw : string) : list string :=
  match raw with
  | EmptyString => [EmptyString]
  | String c rest =>
      if Ascii.eqb c ","
      then EmptyString :: split_comma rest
      else match split_comma rest with
           | piece :: pieces => String c piece :: pieces
           | [] => [String c EmptyString]
           end
  end.

(** [_parse_list_value]. *)
Definition _parse_list_value (raw : string) : list string :=
  if negb (str_truthy raw) then []
  else map strip (List.filter (fun item => str_truthy (strip item)) (split_comma raw)).

(** [s[n:]]. *)
Fixpoint drop_chars (n : nat) (s : string) : string :=
  match n, s with
  | S n', String _ s' => drop_chars n' s'
  | _, _ => s
  end.

(** [s.replace(old, new, 1)]: the leftmost occurrence of [old] replaced. *)
Fixpoint replace_first (old new s : string) : string :=
  if String.prefix old s then new +:+ drop_chars (String.length old) s
  else match s with
       | String c s' => String c (replace_first old new s')
       | EmptyString => EmptyString
       end.

(** [_prompt_value] with [required=False]; [typed] is the line that [input]
    returned. *)
Definition _prompt_value (typed : string) (default : option string) : string :=
  let value := strip typed in
  if String.eqb value "" then match default with Some d => d | None => "" end
  else value.

(** [_strip_event_prefix]. *)
Definition _strip_event_prefix (value : option string) : option string :=
  match value with
  | None => None
  | Some value =>
      if negb (str_truthy value) then None
      else Some (if String.prefix "event:" value
                 then replace_first "event:" "" value
                 else value)
  end.

End Text.

(** ** One-shot JSON builders and the import of a payload *)

Module Json.

(** [_add_json_tag]. *)
Definition _add_json_tag (tags : list pyval) (key : string) (value : option string)
    : list pyval :=
  if opt_str_truthy value
  then match value with Some v => tags ++ [tag2 key v] | None => tags end
  else tags.

(** [_add_json_tag_many]. *)
Definition _add_json_tag_many (tags : list pyval) (key : string)
    (values : option (list string)) : list pyval :=
  match values with
  | None | Some [] => tags
  | Some values => tags ++ map (tag2 key) values
  end.

(** [build_document_json]. *)
Definition build_document_json (d title content : string) (published_at : Z)
    (summary : option string) (topics : option (list string))
    (lang version : option string) (supersedes : option (list string))
    (license_id : option string) (authors : option (list string)) : payload :=
  let tags := [tag2 "d" d] in
  let tags := tags ++ [tag2 "title" title] in
  let tags := tags ++ [tag2 "published_at" (py_str_of_int published_at)] in
  let tags := _add_json_tag tags "summary" summary in
  let tags := _add_json_tag_many tags "t" topics in
  let tags := _add_json_tag tags "lang" lang in
  let tags := _add_json_tag tags "version" version in
  let tags := _add_json_tag_many tags "supersedes" supersedes in
  let tags := _add_json_tag tags "license" license_id in
  let tags := _add_json_tag_many tags "authors" authors in
  <["content" := PStr content]>
    (<["tags" := PList tags]>
      (<["created_at" := PInt published_at]>
        (<["kind" := PInt 30050]> ∅))).

(** [build_succession_json]. *)
Definition build_succession_json (d authoritative_event content : string)
    (created_at : Z) (steward previous reason : option string)
    (effective_at : option Z) : payload :=
  let tags := [tag2 "d" d] in
  let tags := tags ++ [tag2 "authoritative" ("event:" +:+ authoritative_event)] in
  let tags := _add_json_tag tags "steward" steward in
  let tags := _add_json_tag tags "previous"
                (if opt_str_truthy previous
                 then option_map (fun p => "event:" +:+ p) previous
                 else None) in
  let tags := _add_json_tag tags "reason" reason in
  let tags := _add_json_tag tags "effective_at"
                (match effective_at with
                 | Some t => if Z.eqb t 0 then None else Some (py_str_of_int t)
                 | None => None
                 end) in
  <["content" := PStr content]>
    (<["tags" := PList tags]>
      (<["created_at" := PInt created_at]>
        (<["kind" := PInt 30051]> ∅))).

(** [if value: tags.append((key, value))] of the two [*_tags_from_inputs]. *)
Definition pair_if_truthy (key : string) (value : option string)
    : list (string * string) :=
  match value with
  | Some v => if str_truthy v then [(key, v)] else []
  | None => []
  end.

(** [_ncc_tags_from_inputs] with all its parameters. *)
Definition _ncc_tags_from_inputs (summary : option string) (topics : list string)
    (lang version : option string) (supersedes : list string)
    (license_id : option string) (authors : list string)
    (published_at : option Z) : list (string * string) :=
  pair_if_truthy "summary" summary
  ++ map (pair "t") topics
  ++ pair_if_truthy "lang" lang
  ++ pair_if_truthy "version" version
  ++ map (pair "supersedes") supersedes
  ++ pair_if_truthy "license" license_id
  ++ map (pair "authors") authors
  ++ match published_at with
     | Some t => [("published_at", py_str_of_int t)]
     | None => []
     end.

(** [_nsr_tags_from_inputs]. *)
Definition _nsr_tags_from_inputs (authoritative_event : string)
    (steward previous reason effective_at : option string)
    : list (string * string) :=
  [("authoritative", "event:" +:+ authoritative_event)]
  ++ pair_if_truthy "steward" steward
  ++ (if opt_str_truthy previous
      then match previous with Some p => [("previous", "event:" +:+ p)] | None => [] end
      else [])
  ++ pair_if_truthy "reason" reason
  ++ pair_if_truthy "effective_at" effective_at.

(** One character of a [str] as the [str] Python makes of it. *)
Definition char_str (c : Ascii.ascii) : pyval := PStr (String c EmptyString).

(** [len(tag) >= 2 and tag[0] == key], then [tag[1]]: the test and the
    value for one element of the tag list.  [inl text] is the exception the
    element raises, [inr None] an element that does not match. *)
Definition tag_value_if (key : string) (tag : pyval) : string + option pyval :=
  match tag with
  | PList (x :: y :: _) => inr (if py_eq_str x key then Some y else None)
  | PList _ => inr None
  | PStr (String a (String b _)) =>
      inr (if py_eq_str (char_str a) key then Some (char_str b) else None)
  | PStr _ => inr None
  | PDict m => if Nat.leb 2 (size m) then inl "0" else inr None
  | PNone => inl "object of type 'NoneType' has no len()"
  | PBool _ => inl "object of type 'bool' has no len()"
  | PInt _ => inl "object of type 'int' has no len()"
  end.

(** [_extract_tag_value]. *)
Fixpoint _extract_tag_value (tags : list pyval) (key : string)
    : string + option pyval :=
  match tags with
  | [] => inr None
  | tag :: rest =>
      match tag_value_if key tag with
      | inl text => inl text
      | inr (Some v) => inr (Some v)
      | inr None => _extract_tag_value rest key
      end
  end.

(** [_extract_tag_values]. *)
Fixpoint _extract_tag_values (tags : list pyval) (key : string)
    : string + list pyval :=
  match tags with
  | [] => inr []
  | tag :: rest =>
      match tag_value_if key tag with
      | inl text => inl text
      | inr found =>
          match _extract_tag_values rest key with
          | inl text => inl text
          | inr vs => inr (match found with Some v => v :: vs | None => vs end)
          end
      end
  end.

Section Importing.

(** [str(v)] of a list or a dict, which the program never meets in a tag it
    wrote itself. *)
Variable container_str : pyval -> string.

(** [str(v)]. *)
Definition py_str (v : pyval) : string :=
  match v with
  | PStr s => s
  | PInt z => py_str_of_int z
  | PBool true => "True"
  | PBool false => "False"
  | PNone => "None"
  | _ => container_str v
  end.

(** The body of the loop of [_tags_from_payload] for one element. *)
Definition imported_pair (tag : pyval) : list (pyval * string) :=
  match tag with
  | PList (key :: value :: _) =>
      if py_eq_str key "d" || py_eq_str key "title" then []
      else [(key, py_str value)]
  | _ => []
  end.

(** [_tags_from_payload]; [inl text] is the [TypeError] of a [tags] value
    that cannot be iterated.  A [str] or a [dict] is iterated, over
    characters or keys, none of which is a list. *)
Definition _tags_from_payload (p : payload) : string + list (pyval * string) :=
  match default (PList []) (p !! "tags") with
  | PList tags => inr (concat (map imported_pair tags))
  | PStr _ | PDict _ => inr []
  | PNone => inl "'NoneType' object is not iterable"
  | PBool _ => inl "'bool' object is not iterable"
  | PInt _ => inl "'int' object is not iterable"
  end.

End Importing.

End Json.

(** ** The [/revise-ncc] command

    What the command of the interactive prompt does to the database, from
    the lookup of the draft to the update.  The text file of the content and
    the editor are left out: what they produce is an answer. *)

Module Revise.
Import Store.

(** What the user gave: the values that [_prompt_value] returned for the
    two required prompts, the content that [_load_content_from_path] read
    once the editor was closed, and the line typed at each optional
    prompt. *)
Record Answers : Type := mkAnswers {
  d_answer : string;
  title_answer : string;
  content_read : string;
  typed_summary : string;
  typed_topics : string;
  typed_lang : string;
  typed_version : string;
  typed_supersedes : string;
  typed_license : string;
  typed_authors : string
}.

(** How the command ends: [Cancelled.]; an exception that leaves the
    command; the [ValueError] of the validation, printed after [Error: ];
    the update of the draft. *)
Inductive Ending : Type :=
| Cancelled
| Raised (text : string)
| Rejected (text : string)
| Updated (draft_id : Z).

(** [tag_map.get(key, [None])[0]]. *)
Definition first_value (tag_map : gmap string (list string)) (key : string)
    : option string :=
  match tag_map !! key with
  | Some (value :: _) => Some value
  | _ => None
  end.

(** [_extract_tag_value(payload.get("tags", []), "title")]; a [str] or a
    [dict] in the place of the list yields characters or keys, none of
    which matches. *)
Definition imported_title (p : payload) : string + option pyval :=
  match default (PList []) (p !! "tags") with
  | PList tags => Json._extract_tag_value tags "title"
  | _ => inr None
  end.

(** The imported values as arguments of [_db_insert_draft], where they have
    the types of its signature: every tag key a [str], the title a [str] or
    [None], the content a [str]. *)
Fixpoint typed_tags (pairs : list (pyval * string)) : option (list (string * string)) :=
  match pairs with
  | [] => Some []
  | (PStr key, value) :: rest =>
      match typed_tags rest with
      | Some tags => Some ((key, value) :: tags)
      | None => None
      end
  | _ => None
  end.

Definition typed_title (title : option pyval) : option (option string) :=
  match title with
  | None | Some PNone => Some None
  | Some (PStr s) => Some (Some s)
  | Some _ => None
  end.

(** [payload.get("content", "")]. *)
Definition typed_content (p : payload) : option string :=
  match p !! "content" with
  | None => Some ""
  | Some (PStr s) => Some s
  | Some _ => None
  end.

Section WithSdk.
Context `{Externals}.
Variable container_str : pyval -> string.

(** The command from the prompts for the tags to its end, for the draft
    [draft_id] whose tags are [tags]. *)
Definition revise_finish (db : Database) (now : Z) (draft_id : Z)
    (tags : list (string * string)) (a : Answers) : Ending * Database :=
  let tag_map := Builder._tags_to_map tags in
  let summary := Text._prompt_value (typed_summary a) (first_value tag_map "summary") in
  let topics := Text._prompt_value (typed_topics a)
                  (Text._format_list_default (tag_map !! "t")) in
  let lang := Text._prompt_value (typed_lang a) (first_value tag_map "lang") in
  let version := Text._prompt_value (typed_version a) (first_value tag_map "version") in
  let supersedes := Text._prompt_value (typed_supersedes a)
                      (Text._format_list_default (tag_map !! "supersedes")) in
  let license_id := Text._prompt_value (typed_license a)
                      (first_value tag_map "license") in
  let authors := Text._prompt_value (typed_authors a)
                   (Text._format_list_default (tag_map !! "authors")) in
  match Validate._validate_author_keys (Some (Text._parse_list_value authors)) with
  | inl text => (Rejected text, db)
  | inr authors_list =>
      let content := Text.replace_first "# Title" ("# " +:+ title_answer a)
                       (content_read a) in
      let tags := Json._ncc_tags_from_inputs
                    (Text._normalize_optional_str (Some summary))
                    (Text._parse_list_value topics)
                    (Text._normalize_optional_str (Some lang))
                    (Text._normalize_optional_str (Some version))
                    (Text._parse_list_value supersedes)
                    (Text._normalize_optional_str (Some license_id))
                    authors_list None in
      (Updated draft_id,
       _db_update_draft db now draft_id (Some (title_answer a)) content tags
                        None None None)
  end.

(** The [/revise-ncc] command.  [import] is the dict that [_load_json]
    returned for the path given at the import prompt, [None] when no path
    was given; [now_insert] and [now_update] are the readings of [_now()] in
    the insert and in the update.  The result is [None] where an imported
    value has not the type that [_db_insert_draft] declares. *)
Definition revise_ncc (db : Database) (now_insert now_update : Z)
    (import : option payload) (a : Answers) : option (Ending * Database) :=
  let d_value := Text._format_ncc_identifier (d_answer a) in
  if negb (str_truthy d_value) then Some (Cancelled, db)
  else
    match _db_get_latest_draft db 30050 d_value with
    | Some draft =>
        Some (revise_finish db now_update (dr_id draft)
                            (_db_get_tags db (dr_id draft)) a)
    | None =>
        match import with
        | None => Some (Cancelled, db)
        | Some p =>
            match Json._tags_from_payload container_str p with
            | inl text => Some (Raised text, db)
            | inr pairs =>
                match imported_title p with
                | inl text => Some (Raised text, db)
                | inr title =>
                    match typed_tags pairs, typed_title title, typed_content p with
                    | Some tags, Some title, Some content =>
                        let '(draft_id, db) :=
                          _db_insert_draft db now_insert 30050 d_value title content
                                           tags "draft" None in
                        Some (revise_finish db now_update draft_id tags a)
                    | _, _, _ => None
                    end
                end
            end
        end
    end.

End WithSdk.

End Revise.

(** ** Listing the drafts *)

Module Listing.
Import Store.

(** The columns that [_db_list_drafts] selects. *)
Record ListedDraft : Type := mkListedDraft {
  l_id : Z;
  l_d : string;
  l_title : option string;
  l_status : string;
  l_updated_at : Z;
  l_published_at : option Z
}.

Definition listed (r : Draft) : ListedDraft :=
  mkListedDraft (dr_id r) (dr_d r) (dr_title r) (dr_status r) (dr_updated_at r)
                (dr_published_at r).

(** The order in which the index [idx_drafts_kind_d] yields the rows of one
    kind: by [d], byte by byte, then by rowid. *)
Definition index_order (x y : Draft) : bool :=
  if String.eqb (dr_d x) (dr_d y) then Z.leb (dr_id x) (dr_id y)
  else String.leb (dr_d x) (dr_d y).

(** [_db_list_drafts].  sqlite answers the query through
    [idx_drafts_kind_d] and sorts what the index yields, so that rows with
    the same [updated_at] come in the order of the index. *)
Definition _db_list_drafts (db : Database) (kind : Z) : list ListedDraft :=
  map listed
      (order_by newer_first
         (order_by index_order
            (List.filter (fun r => Z.eqb (dr_kind r) kind) (drafts db)))).

End Listing.

(** ** Enqueueing and the poll cycle *)

Module Worker.
Import Store Queue.

(** The task dict handed to [_enqueue_publish_task]: the keys every caller
    sets ([type], [config_path], one of the three references, [relays]) and
    the keys that [setdefault] fills when the caller left them out. *)
Record TaskDict : Type := mkTaskDict {
  td_type : string;
  td_config_path : option string;
  td_draft_id : option Z;
  td_json_path : option string;
  td_payload : option pyval;
  td_relays : option pyval;
  td_id : option string;
  td_created_at : option Z;
  td_attempts : option Z;
  td_max_attempts : option Z;
  td_next_attempt_at : option Z
}.

(** [json.dumps(task.get("payload")) if task.get("payload") is not None else
    None], as the value the column then holds. *)
Definition payload_column (task : TaskDict) : option pyval :=
  match td_payload task with
  | Some PNone | None => None
  | Some v => Some v
  end.

(** [json.dumps(task.get("relays") or [])]. *)
Definition relays_column (task : TaskDict) : option pyval :=
  match td_relays task with
  | Some v => Some (if py_truthy v then v else PList [])
  | None => Some (PList [])
  end.

Section WithSdk.
Context `{Externals}.

(** [_register_queue_db_path], on the set [_QUEUE_DB_PATHS] passed in and
    returned. *)
Definition _register_queue_db_path (config_path : option string)
    (paths : gset string) : gset string :=
  {[ _resolve_db_path config_path ]} ∪ paths.

(** [_enqueue_publish_task]; [uuid_hex] is the value of [uuid.uuid4().hex].
    It returns [_QUEUE_DB_PATHS] as the call leaves it. *)
Definition _enqueue_publish_task (uuid_hex : string) (task : TaskDict)
    (paths : gset string) : M (gset string) :=
  let* now := _now in
  let id := default uuid_hex (td_id task) in
  let created_at := default now (td_created_at task) in
  let attempts := default 0 (td_attempts task) in
  let max_attempts := default Backoff._QUEUE_MAX_ATTEMPTS (td_max_attempts task) in
  let* delay := _compute_retry_delay (attempts + 1) in
  let next_attempt_at := default (now + delay) (td_next_attempt_at task) in
  let config_path := td_config_path task in
  let paths := _register_queue_db_path config_path paths in
  let db_path := _resolve_db_path config_path in
  let* db := get_db db_path in
  let row := mkQueueRow (next_rowid (map q_id (publish_queue db))) id config_path
               (td_type task) (td_draft_id task) (td_json_path task)
               (payload_column task) (relays_column task)
               attempts max_attempts next_attempt_at created_at None in
  put_db db_path (set_publish_queue db (publish_queue db ++ [row])) ;;;
  ret paths.

(** The loop of [_process_publish_queue_once]. *)
Fixpoint process_paths (db_paths : list string) (output : option callable) : M unit :=
  match db_paths with
  | [] => ret tt
  | db_path :: rest =>
      let* processed := _process_publish_queue_db db_path output in
      if processed then ret tt else process_paths rest output
  end.

(** [_process_publish_queue_once]; [registered] is [_QUEUE_DB_PATHS] in the
    order in which the set yields its elements. *)
Definition _process_publish_queue_once (registered : list string)
    (output : option callable) : M unit :=
  process_paths (match registered with
                 | [] => [_default_db_path]
                 | _ => registered
                 end) output.

End WithSdk.

End Worker.

(** ** Vocabulary of the properties *)

Module Spec.

(** The values stored under [key], in stored order. *)
Definition stored_values (key : string) (tags : list (string * string))
    : list string :=
  map snd (List.filter (fun kv => String.eqb kv.1 key) tags).

(** A single-valued key: one entry from the first stored value, if any. *)
Definition first_entry (key : string) (tags : list (string * string))
    : list pyval :=
  match stored_values key tags with
  | v :: _ => [tag2 key v]
  | [] => []
  end.

(** A multi-valued key: one entry per stored value. *)
Definition every_entry (key : string) (tags : list (string * string))
    : list pyval :=
  map (tag2 key) (stored_values key tags).

(** [title] is present when it is a non-empty string. *)
Definition title_entry (title : option string) : list pyval :=
  match title with
  | Some (String c t) => [tag2 "title" (String c t)]
  | _ => []
  end.

(** [published_at] is present when its first stored value is non-empty. *)
Definition published_at_entry (tags : list (string * string)) : list pyval :=
  match stored_values "published_at" tags with
  | String c v :: _ => [tag2 "published_at" (String c v)]
  | _ => []
  end.

(** The tag order of a document (kind 30050). *)
Definition canonical_document_tags (d : string) (title : option string)
    (tags : list (string * string)) : list pyval :=
  [tag2 "d" d] ++ title_entry title ++ published_at_entry tags
  ++ first_entry "summary" tags ++ every_entry "t" tags
  ++ first_entry "lang" tags ++ first_entry "version" tags
  ++ every_entry "supersedes" tags ++ first_entry "license" tags
  ++ every_entry "authors" tags ++ first_entry "eventid" tags.

(** The sum and the product of two doubles are those of the Standard
    Library's specification of binary64 ([prec = 53], [emax = 1024]). *)
Definition agrees_with_SpecFloat (xy : SpecFloat.spec_float * SpecFloat.spec_float)
    : bool :=
  let (x, y) := xy in
  Qeq_bool (Binary64.of_spec (SpecFloat.SFadd 53 1024 x y))
           (Binary64.add (Binary64.of_spec x) (Binary64.of_spec y))
  && Qeq_bool (Binary64.of_spec (SpecFloat.SFmul 53 1024 x y))
              (Binary64.mul (Binary64.of_spec x) (Binary64.of_spec y)).

(** [_compute_retry_delay] on the operations of the Standard Library's
    binary64, and a draw: the double 0.2 times [k/128]. *)
Definition sf_retry_delay (attempts : Z) (u : SpecFloat.spec_float) : Z :=
  let base := Backoff.base_delay attempts in
  let jitter := SpecFloat.SFadd 53 1024 (SpecFloat.S754_finite false 1 0) u in
  Z.max 1 (Backoff.py_int
             (Binary64.of_spec
                (SpecFloat.SFmul 53 1024
                   (SpecFloat.binary_normalize 53 1024 base 0 false) jitter))).

Definition sample_draw (k : Z) : SpecFloat.spec_float :=
  SpecFloat.SFmul 53 1024 (SpecFloat.S754_finite false 7205759403792794 (-55))
                  (SpecFloat.binary_normalize 53 1024 k (-7) false).

Definition same_delay (attempts k : Z) : bool :=
  Z.eqb (sf_retry_delay attempts (sample_draw k))
        (Backoff._compute_retry_delay attempts (Binary64.of_spec (sample_draw k))).

(** The values the base delay takes. *)
Definition base_delays : list Z := [30; 60; 120; 240; 480; 960; 1920; 3600].

(** The least and the greatest jitter factor: [1.0 + -0.2] and [1.0 + 0.2]
    as floats. *)
Definition least_factor : Q := Binary64.add 1 (- Backoff._QUEUE_JITTER).
Definition greatest_factor : Q := Binary64.add 1 Backoff._QUEUE_JITTER.

(** The two extreme factors keep the float product of a base within a fifth
    of it, and [float(base)] is [base]. *)
Definition window_of (base : Z) : bool :=
  Qle_bool (inject_Z base * (8 # 10))
           (Binary64.mul (Binary64.of_int base) least_factor)
  && Qle_bool (Binary64.mul (Binary64.of_int base) greatest_factor)
              (inject_Z base * (12 # 10))
  && Qeq_bool (Binary64.of_int base) (inject_Z base).

(** White space as [str.strip] sees it, among the code points below 256. *)
Definition white_space (c : Ascii.ascii) : Prop :=
  In (Ascii.N_of_ascii c) [9; 10; 11; 12; 13; 28; 29; 30; 31; 32; 133; 160]%N.

(** A string of white space only, the empty one included. *)
Fixpoint blank (s : string) : Prop :=
  match s with
  | String c s' => white_space c /\ blank s'
  | EmptyString => True
  end.

(** [v] neither starts nor ends with white space. *)
Definition trimmed (v : string) : Prop :=
  forall c, (exists rest, v = String c rest) \/ (exists front, v = front +:+ String c "")
            -> ~ white_space c.

(** [v] is [item] without the white space around it. *)
Definition stripped_of (item v : string) : Prop :=
  (exists l r, item = l +:+ v +:+ r /\ blank l /\ blank r) /\ trimmed v.

(** [kept] holds the entries of [items] that are not blank, each without the
    white space around it, in their order. *)
Inductive kept_stripped : list string -> list string -> Prop :=
| kept_nil : kept_stripped [] []
| kept_blank item items kept :
    blank item -> kept_stripped items kept -> kept_stripped (item :: items) kept
| kept_entry item items v kept :
    v <> "" -> stripped_of item v -> kept_stripped items kept ->
    kept_stripped (item :: items) (v :: kept).

(** A normalized author value the validation objects to: it looks like a
    secret key or does not parse as a public key. *)
Definition offending `{Externals} (value : string) : bool :=
  String.prefix "nsec" value || negb (PublicKey_parse value).

(** [text] names [value]: [value] occurs in it. *)
Definition names (text value : string) : Prop :=
  exists pre post, text = pre +:+ value +:+ post.

(** The test [payload.get("kind") == 30050]. *)
Definition is_document (p : payload) : bool :=
  match p !! "kind" with Some k => py_eq_int k 30050 | None => false end.


(** Two worlds with the same queue tables and the same messages sent to
    [output]. *)
Definition same_queues (w w' : Queue.World) : Prop :=
  (forall path, Store.publish_queue (Queue.dbs w' path)
                = Store.publish_queue (Queue.dbs w path))
  /\ Queue.notices w' = Queue.notices w.

(** A computation that neither writes [publish_queue] nor calls [output]. *)
Definition keeps_queues {A : Type} (c : Queue.M A) : Prop :=
  forall w, same_queues w (snd (c w)).

(** Rows in rowid order, each id once. *)
Definition rowid_order (queue : list Store.QueueRow) : Prop :=
  StronglySorted (fun x y => Store.q_id x < Store.q_id y) queue.

(** [c in s]. *)
Fixpoint mentions (c : Ascii.ascii) (s : string) : bool :=
  match s with
  | String x s' => Ascii.eqb x c || mentions c s'
  | EmptyString => false
  end.

(** A list entry as [_parse_list_value] returns them: not empty, no white
    space around it, no comma in it. *)
Definition list_item (s : string) : Prop :=
  s <> "" /\ Validate.strip s = s /\ mentions "," s = false.

(** The tag order of a succession record (any kind but 30050). *)
Definition canonical_succession_tags (d : string) (tags : list (string * string))
    : list pyval :=
  [tag2 "d" d] ++ first_entry "authoritative" tags ++ first_entry "steward" tags
  ++ first_entry "previous" tags ++ first_entry "reason" tags
  ++ first_entry "effective_at" tags ++ first_entry "eventid" tags.

(** A tag entry that is a non-empty list whose first element is [key]. *)
Definition has_keyb (key : string) (tag : pyval) : bool :=
  match tag with
  | PList (x :: _) => py_eq_str x key
  | _ => false
  end.

(** A tag entry that is a non-empty list. *)
Definition is_entry (tag : pyval) : bool :=
  match tag with
  | PList (_ :: _) => true
  | _ => false
  end.

(** The pairs behind the canonical document order, without [d] and the
    title. *)
Definition first_pair (key : string) (tags : list (string * string))
    : list (string * string) :=
  match stored_values key tags with
  | v :: _ => [(key, v)]
  | [] => []
  end.

Definition every_pair (key : string) (tags : list (string * string))
    : list (string * string) :=
  map (pair key) (stored_values key tags).

Definition published_at_pair (tags : list (string * string))
    : list (string * string) :=
  match stored_values "published_at" tags with
  | String c v :: _ => [("published_at", String c v)]
  | _ => []
  end.

Definition canonical_document_pairs (tags : list (string * string))
    : list (string * string) :=
  published_at_pair tags ++ first_pair "summary" tags ++ every_pair "t" tags
  ++ first_pair "lang" tags ++ first_pair "version" tags
  ++ every_pair "supersedes" tags ++ first_pair "license" tags
  ++ every_pair "authors" tags ++ first_pair "eventid" tags.

(** A pair as the payload carries it. *)
Definition pair_tag (kv : string * string) : pyval := tag2 kv.1 kv.2.

(** A pair as [_tags_from_payload] returns it. *)
Definition imported (kv : string * string) : pyval * string := (PStr kv.1, kv.2).

(** A pair whose key is neither [d] nor [title]. *)
Definition plain_key (kv : string * string) : Prop :=
  String.eqb kv.1 "d" = false /\ String.eqb kv.1 "title" = false.

(** A draft row of that kind and identifier. *)
Definition revision_of (kind : Z) (d : string) (r : Store.Draft) : bool :=
  Z.eqb (Store.dr_kind r) kind && String.eqb (Store.dr_d r) d.

(** Two worlds that differ at most in how far the clock and the jitter have
    been read. *)
Definition unchanged (w w' : Queue.World) : Prop :=
  Queue.dbs w' = Queue.dbs w /\ Queue.files w' = Queue.files w
  /\ Queue.notices w' = Queue.notices w.

(** A computation that writes nothing. *)
Definition reads_only {A : Type} (c : Queue.M A) : Prop :=
  forall w, unchanged w (snd (c w)).

(** A computation that has written nothing when it raises. *)
Definition fails_clean {A : Type} (c : Queue.M A) : Prop :=
  forall w, match c w with
            | (Queue.Raises _, w') => unchanged w w'
            | (Queue.Returns _, _) => True
            end.

End Spec.

(** ** A small world for the closed examples *)

Module Fixtures.
Import Store Queue.

(** A library whose relays never answer. *)
Definition failing_sdk : Externals := {|
  Keys := string;
  Keys_parse := fun v => match v with PStr s => inr s | _ => inl "invalid key" end;
  PublicKey_parse := String.prefix "npub";
  Tag_parse := fun _ => None;
  EventBuilder_error := fun _ => None;
  client_send_event := fun _ _ _ => inl "relay timeout";
  expanduser := fun path => path
|}.

Definition inline_payload : pyval :=
  PDict (<["kind" := PInt 30051]> (<["content" := PStr "ack"]> ∅)).

Definition relay_list : pyval := PList [PStr "wss://relay.example"].

Definition row1 : QueueRow :=
  mkQueueRow 1 "a1" (Some "/db") "payload" None None (Some inline_payload)
             (Some relay_list) 0 5 200 10 None.

(** Due as early as [row3], one attempt away from [max_attempts]. *)
Definition row2 : QueueRow :=
  mkQueueRow 2 "a2" (Some "/db") "payload" None None (Some inline_payload)
             (Some relay_list) 4 5 100 20 (Some "relay timeout").

Definition row3 : QueueRow :=
  mkQueueRow 3 "a3" (Some "/db") "payload" None None (Some inline_payload)
             (Some relay_list) 0 5 100 30 None.

Definition stored_config : pyval :=
  PDict (<["privkey" := PStr "5f2c"]> ∅).

Definition draft1 : Draft :=
  mkDraft 1 30050 "ncc-01" (Some "Foo") "text" 10 20 None None "draft".

(** One database at [/db], the clock at 1000, no jitter. *)
Definition world : World :=
  mkWorld (fun path => if String.eqb path "/db"
                       then mkDatabase [draft1] [] (Some stored_config) [row1; row2; row3]
                       else empty_db)
          (fun _ => None)
          (fun n => 1000 + Z.of_nat n) 0
          (fun _ => 0%Q) 0
          [].

(** The same database once [row2] is gone: [row3] is the next due. *)
Definition world_retry : World :=
  mkWorld (fun path => if String.eqb path "/db"
                       then mkDatabase [draft1] [] (Some stored_config) [row1; row3]
                       else empty_db)
          (fun _ => None)
          (fun n => 1000 + Z.of_nat n) 0
          (fun _ => 0%Q) 0
          [].

(** A stored-JSON task whose file is no longer there. *)
Definition row_json : QueueRow :=
  mkQueueRow 1 "j1" (Some "/db") "json" None (Some "/gone.json") None
             (Some relay_list) 0 5 100 10 None.

Definition world_json : World :=
  mkWorld (fun path => if String.eqb path "/db"
                       then mkDatabase [] [] (Some stored_config) [row_json]
                       else empty_db)
          (fun _ => None)
          (fun n => 1000 + Z.of_nat n) 0
          (fun _ => 0%Q) 0
          [].

End Fixtures.

(** ** More of the small world *)

Module MoreFixtures.
Import Store Queue Worker Fixtures.

(** A library whose relays accept every event. *)
Definition ok_sdk : Externals := {|
  Keys := string;
  Keys_parse := fun v => match v with PStr s => inr s | _ => inl "invalid key" end;
  PublicKey_parse := String.prefix "npub";
  Tag_parse := fun _ => None;
  EventBuilder_error := fun _ => None;
  client_send_event := fun _ _ _ => inr "e5f1";
  expanduser := fun path => path
|}.

(** A task that was stored without a config path. *)
Definition row_no_config : QueueRow :=
  mkQueueRow 1 "n1" None "payload" None None (Some inline_payload)
             (Some relay_list) 0 5 100 10 None.

Definition world_no_config : World :=
  mkWorld (fun path => if String.eqb path "/db"
                       then mkDatabase [] [] (Some stored_config) [row_no_config]
                       else empty_db)
          (fun _ => None)
          (fun n => 1000 + Z.of_nat n) 0
          (fun _ => 0%Q) 0
          [].

(** A payload to import whose author is a secret key. *)
Definition imported_payload : payload :=
  <["content" := PStr "text"]>
    (<["tags" := PList [tag2 "d" "ncc-07"; tag2 "title" "Foo";
                        tag2 "authors" "nsec1abc"]]>
       (<["kind" := PInt 30050]> ∅)).

(** The user asks for NCC 07, keeps the title and presses Enter at every
    optional prompt. *)
Definition enter_everywhere : Revise.Answers :=
  Revise.mkAnswers "07" "Foo" "# Title" "" "" "" "" "" "" "".

(** The task dict of a failed one-shot publish. *)
Definition payload_task : TaskDict :=
  mkTaskDict "payload" (Some "/db") None None (Some inline_payload)
             (Some relay_list) None None None None None.

End MoreFixtures.

(** * Properties *)

(** ** Payload builder *)

Section BuilderFacts.
Import Builder Spec.

Lemma stored_values_cons k k' v tags :
  stored_values k ((k', v) :: tags)
  = if String.eqb k' k then v :: stored_values k tags else stored_values k tags.
Proof. unfold stored_values; simpl. destruct (String.eqb k' k); reflexivity. Qed.

Lemma fold_setdefault_lookup tags : forall (m : gmap string (list string)) k,
  fold_left setdefault_append tags m !! k
  = match stored_values k tags with
    | [] => m !! k
    | vs => Some (default [] (m !! k) ++ vs)
    end.
Proof.
  induction tags as [|[k' v] tags IH]; intros m k; [reflexivity|].
  simpl fold_left. rewrite IH, stored_values_cons. unfold setdefault_append; simpl.
  destruct (String.eqb_spec k' k) as [->|Hne].
  - rewrite lookup_insert_eq; simpl.
    destruct (stored_values k tags); [reflexivity|].
    now rewrite <- app_assoc.
  - now rewrite lookup_insert_ne.
Qed.

Lemma tags_to_map_lookup tags k :
  _tags_to_map tags !! k
  = match stored_values k tags with [] => None | vs => Some vs end.
Proof.
  unfold _tags_to_map. rewrite fold_setdefault_lookup, lookup_empty.
  destruct (stored_values k tags); reflexivity.
Qed.

Lemma emit_first_spec tags k :
  emit_first (_tags_to_map tags) k = Some (first_entry k tags).
Proof.
  unfold emit_first, first_entry. rewrite tags_to_map_lookup.
  destruct (stored_values k tags); reflexivity.
Qed.

Lemma emit_all_spec tags k :
  emit_all (_tags_to_map tags) k = every_entry k tags.
Proof.
  unfold emit_all, every_entry. rewrite tags_to_map_lookup.
  destruct (stored_values k tags); reflexivity.
Qed.

Lemma emit_published_at_spec tags :
  emit_published_at (_tags_to_map tags) = Some (published_at_entry tags).
Proof.
  unfold emit_published_at, published_at_entry. rewrite tags_to_map_lookup.
  destruct (stored_values "published_at" tags) as [|[|c v] vs]; reflexivity.
Qed.

Lemma emit_title_spec title : emit_title title = title_entry title.
Proof. destruct title as [[|c t]|]; reflexivity. Qed.

Lemma document_tags_list d title tags :
  draft_tags_list 30050 d title tags = Some (canonical_document_tags d title tags).
Proof.
  unfold draft_tags_list, canonical_document_tags.
  change (Z.eqb 30050 30050) with true; cbv iota.
  rewrite emit_published_at_spec, !emit_first_spec, !emit_all_spec, emit_title_spec.
  cbn [mbind option_bind]. f_equal.
  now rewrite <- !app_assoc.
Qed.

(** C1. For a stored document draft (kind 30050) the payload builder returns
    a payload (the [[0]] it takes never fails) whose tag list is [d], then,
    each only if present, [title], [published_at], [summary], every [t] in
    stored order, [lang], [version], every [supersedes], [license], every
    [authors], [eventid]; a single-valued key gives at most one entry, from
    its first stored value, and a key that is not stored gives none. *)
Theorem payload_from_draft_document_order :
  forall (d : string) (title : option string) (content : string)
         (tags : list (string * string)) (created_at : Z),
    _payload_from_draft 30050 d title content tags created_at
    = Some (<["tags" := PList (canonical_document_tags d title tags)]>
            (<["kind" := PInt 30050]>
             (<["created_at" := PInt created_at]>
              (<["content" := PStr content]> ∅)))).
Proof.
  intros d title content tags created_at.
  unfold _payload_from_draft. now rewrite document_tags_list.
Qed.

(** The scenario of the specification: d="ncc-07", title="Foo", topics a
    and b, one author, a stored [published_at]. *)
Example payload_from_draft_ncc07 :
  draft_tags_list 30050 "ncc-07" (Some "Foo")
    [("t", "a"); ("t", "b"); ("authors", "npub1x"); ("published_at", "1700000000")]
  = Some [tag2 "d" "ncc-07"; tag2 "title" "Foo"; tag2 "published_at" "1700000000";
          tag2 "t" "a"; tag2 "t" "b"; tag2 "authors" "npub1x"].
Proof. vm_compute. reflexivity. Qed.

End BuilderFacts.

(** ** Sorting and row ids *)

Section OrderBy.
Import Store.
Context {A : Type} (before : A -> A -> bool).
Hypothesis before_total : forall x y, before x y = false -> before y x = true.
Hypothesis before_trans :
  forall x y z, before x y = true -> before y z = true -> before x z = true.

Lemma head_insert_by x l :
  head (insert_by before x l)
  = match head l with
    | Some y => if before x y then Some x else Some y
    | None => Some x
    end.
Proof. destruct l as [|y l]; simpl; [reflexivity|]. destruct (before x y); reflexivity. Qed.

Lemma head_order_by_nil l : head (order_by before l) = None <-> l = [].
Proof.
  split; [|intros ->; reflexivity].
  destruct l as [|x l]; [reflexivity|]. simpl. rewrite head_insert_by.
  destruct (head (order_by before l)); [destruct (before x a)|]; discriminate.
Qed.

(** The first row of the sorted list is the earliest row of the scan that no
    other row comes strictly before. *)
Lemma head_order_by_first l r :
  head (order_by before l) = Some r ->
  exists l1 l2, l = l1 ++ r :: l2
    /\ Forall (fun x => before x r = false) l1
    /\ Forall (fun x => before r x = true) l2.
Proof.
  revert r. induction l as [|x l IH]; intros r; [discriminate|].
  simpl. rewrite head_insert_by.
  destruct (head (order_by before l)) as [h|] eqn:Hh.
  - destruct (IH h eq_refl) as (l1 & l2 & -> & H1 & H2).
    destruct (before x h) eqn:Hxh; intros [= <-].
    + exists [], (l1 ++ h :: l2). repeat split; [constructor|].
      apply Forall_app; split.
      * eapply Forall_impl; [exact H1|]. simpl. intros y Hy.
        eapply before_trans; [exact Hxh|]. now apply before_total.
      * constructor; [exact Hxh|].
        eapply Forall_impl; [exact H2|]. simpl. intros y Hy.
        eapply before_trans; eassumption.
    + exists (x :: l1), l2. repeat split; [constructor; assumption|assumption].
  - apply head_order_by_nil in Hh as ->. intros [= <-].
    exists [], []. repeat split; constructor.
Qed.

Lemma head_order_by_least l r :
  head (order_by before l) = Some r ->
  In r l /\ forall x, In x l -> before r x = true.
Proof.
  intros Hr. destruct (head_order_by_first l r Hr) as (l1 & l2 & -> & H1 & H2).
  split; [apply in_or_app; right; left; reflexivity|].
  intros x Hx. apply in_app_or in Hx as [Hx|[<-|Hx]].
  - apply before_total. rewrite Forall_forall in H1. apply H1.
    now apply list_elem_of_In.
  - destruct (before r r) eqn:E; [reflexivity|].
    pose proof (before_total _ _ E). congruence.
  - rewrite Forall_forall in H2. apply H2. now apply list_elem_of_In.
Qed.

End OrderBy.

(** ** Draft store *)

Section StoreFacts.
Import Store.

Lemma fold_max_above x y ids : x = y \/ In x ids -> x <= fold_right Z.max y ids.
Proof.
  induction ids as [|z ids IH]; cbn [fold_right In].
  - intros [->|[]]. lia.
  - intros [->|[->|Hx]]; [specialize (IH (or_introl eq_refl))|
                          |specialize (IH (or_intror Hx))]; lia.
Qed.

Lemma next_rowid_above ids x : In x ids -> x < next_rowid ids.
Proof.
  destruct ids as [|y ids]; [intros []|]. intros Hin. unfold next_rowid.
  pose proof (fold_max_above x y ids) as Hle. cbn [In] in Hin.
  assert (Hx : x = y \/ In x ids) by (destruct Hin; auto).
  specialize (Hle Hx). lia.
Qed.

Lemma get_tags_set_tags db draft_id new_tags :
  _db_get_tags (_db_set_tags db draft_id new_tags) draft_id = new_tags.
Proof.
  unfold _db_get_tags, _db_set_tags; simpl.
  rewrite List.filter_app, List.map_app.
  rewrite (List.filter_ext_in _ (fun _ => false)), List.filter_false; simpl.
  - induction new_tags as [|[k v] l IH]; simpl; [reflexivity|].
    rewrite Z.eqb_refl; simpl. now rewrite IH.
  - intros t Ht. apply List.filter_In in Ht as [_ Ht].
    now destruct (Z.eqb (t_draft_id t) draft_id).
Qed.

Lemma tag_rows_set_tags db draft_id new_tags :
  List.filter (fun t => Z.eqb (t_draft_id t) draft_id)
              (tags (_db_set_tags db draft_id new_tags))
  = map (fun kv => mkTagRow draft_id kv.1 kv.2) new_tags.
Proof.
  unfold _db_set_tags; simpl. rewrite List.filter_app.
  rewrite (List.filter_ext_in _ (fun _ => false)), List.filter_false; simpl.
  - apply List.forallb_filter_id. induction new_tags as [|kv l IH]; simpl; [reflexivity|].
    now rewrite Z.eqb_refl.
  - intros t Ht. apply List.filter_In in Ht as [_ Ht].
    now destruct (Z.eqb (t_draft_id t) draft_id).
Qed.

Lemma get_tags_set_tags_other db draft_id other new_tags :
  other <> draft_id ->
  _db_get_tags (_db_set_tags db draft_id new_tags) other = _db_get_tags db other.
Proof.
  intros Hne. unfold _db_get_tags, _db_set_tags; simpl.
  rewrite List.filter_app, List.map_app.
  rewrite (List.filter_ext_in (fun t => Z.eqb (t_draft_id t) other) (fun _ => false)
             (map _ new_tags)), List.filter_false, app_nil_r.
  - f_equal. induction (tags db) as [|t l IH]; simpl; [reflexivity|].
    destruct (Z.eqb_spec (t_draft_id t) draft_id) as [E|E]; simpl.
    + destruct (Z.eqb_spec (t_draft_id t) other); [congruence|exact IH].
    + destruct (Z.eqb (t_draft_id t) other); [now rewrite IH|exact IH].
  - intros t Ht. apply List.in_map_iff in Ht as (kv & <- & _); simpl.
    apply Z.eqb_neq. congruence.
Qed.

(** C3 as stated does not hold: inserting with the empty identifier raises
    nothing, it stores a row whose [d] is empty and returns its id. *)
Lemma insert_draft_accepts_empty_d :
  _db_insert_draft empty_db 1700000000 30050 "" (Some "Foo") "text"
                   [("t", "a")] "draft" None
  = (1, mkDatabase
          [mkDraft 1 30050 "" (Some "Foo") "text" 1700000000 1700000000 None None "draft"]
          [mkTagRow 1 "t" "a"] None []).
Proof. reflexivity. Qed.

(** C3, amended. The insert operation checks nothing about [d]: for every
    identifier, the empty string included, it appends one new draft row
    holding the arguments, under an id that no stored draft has, stores the
    supplied tags for it and returns that id. *)
Theorem insert_draft_creates_row :
  forall (db : Database) (now kind : Z) (d : string) (title : option string)
         (content : string) (new_tags : list (string * string)) (status : string)
         (published_at : option Z),
    let draft_id := next_rowid (map dr_id (drafts db)) in
    let db' := snd (_db_insert_draft db now kind d title content new_tags
                                     status published_at) in
    fst (_db_insert_draft db now kind d title content new_tags status published_at)
    = draft_id
    /\ ~ In draft_id (map dr_id (drafts db))
    /\ drafts db'
       = drafts db ++ [mkDraft draft_id kind d title content now now
                               published_at None status]
    /\ _db_get_tags db' draft_id = new_tags.
Proof.
  intros. subst draft_id db'. unfold _db_insert_draft; cbn [fst snd].
  repeat split.
  - intros Hin. apply next_rowid_above in Hin. lia.
  - apply get_tags_set_tags.
Qed.

(** C6. After an update call the tag rows stored for the draft are exactly
    the supplied pairs in the supplied order, whatever was stored for it
    before, and the tags query returns precisely the supplied pairs. *)
Theorem update_draft_replaces_tags :
  forall (db : Database) (now draft_id : Z) (title : option string)
         (content : string) (new_tags : list (string * string))
         (status : option string) (published_at : option Z)
         (event_id : option string),
    let db' := _db_update_draft db now draft_id title content new_tags
                                status published_at event_id in
    List.filter (fun t => Z.eqb (t_draft_id t) draft_id) (tags db')
    = map (fun kv => mkTagRow draft_id kv.1 kv.2) new_tags
    /\ _db_get_tags db' draft_id = new_tags.
Proof.
  intros. subst db'. unfold _db_update_draft. split.
  - apply tag_rows_set_tags.
  - apply get_tags_set_tags.
Qed.

(** The tags of every other draft are left as they were. *)
Lemma update_draft_keeps_other_tags db now draft_id title content new_tags
    status published_at event_id other :
  other <> draft_id ->
  _db_get_tags (_db_update_draft db now draft_id title content new_tags
                                 status published_at event_id) other
  = _db_get_tags db other.
Proof. intros Hne. unfold _db_update_draft. now rewrite get_tags_set_tags_other. Qed.

End StoreFacts.

Section StoreRowFacts.
Import Store.

Lemma draft_by_id_update db now draft_id title content new_tags status
    published_at event_id :
  draft_by_id (_db_update_draft db now draft_id title content new_tags
                                status published_at event_id) draft_id
  = option_map (update_row now title content status published_at event_id)
               (draft_by_id db draft_id).
Proof.
  unfold draft_by_id, _db_update_draft, _db_set_tags; simpl.
  induction (drafts db) as [|r l IH]; simpl; [reflexivity|].
  destruct (Z.eqb (dr_id r) draft_id) eqn:E; simpl.
  - now rewrite E.
  - rewrite E. exact IH.
Qed.

(** C7. For an existing draft row, update stores the supplied title and
    content and the current time as [updated_at]; status, published_at and
    event_id take the supplied value when one is supplied and keep the
    stored one when none is; id, kind, d and created_at stay as they were. *)
Theorem update_draft_coalesce :
  forall (db : Database) (now draft_id : Z) (title : option string)
         (content : string) (new_tags : list (string * string))
         (status : option string) (published_at : option Z)
         (event_id : option string) (r : Draft),
    draft_by_id db draft_id = Some r ->
    exists r',
      draft_by_id (_db_update_draft db now draft_id title content new_tags
                                    status published_at event_id) draft_id
      = Some r'
      /\ dr_title r' = title
      /\ dr_content r' = content
      /\ dr_updated_at r' = now
      /\ dr_status r' = match status with Some s => s | None => dr_status r end
      /\ dr_published_at r'
         = match published_at with Some t => Some t | None => dr_published_at r end
      /\ dr_event_id r'
         = match event_id with Some e => Some e | None => dr_event_id r end
      /\ dr_id r' = dr_id r
      /\ dr_kind r' = dr_kind r
      /\ dr_d r' = dr_d r
      /\ dr_created_at r' = dr_created_at r.
Proof.
  intros db now draft_id title content new_tags status published_at event_id r Hr.
  exists (update_row now title content status published_at event_id r).
  rewrite draft_by_id_update, Hr. simpl.
  destruct status, published_at, event_id; repeat split; reflexivity.
Qed.

(** Rows with another id are not touched by update. *)
Lemma update_draft_keeps_other_rows db now draft_id title content new_tags
    status published_at event_id other :
  other <> draft_id ->
  draft_by_id (_db_update_draft db now draft_id title content new_tags
                                status published_at event_id) other
  = draft_by_id db other.
Proof.
  intros Hne. unfold draft_by_id, _db_update_draft, _db_set_tags; simpl.
  induction (drafts db) as [|r l IH]; simpl; [reflexivity|].
  destruct (Z.eqb_spec (dr_id r) draft_id) as [E|E]; simpl.
  - destruct (Z.eqb_spec (dr_id r) other); [congruence|exact IH].
  - destruct (Z.eqb (dr_id r) other); [reflexivity|exact IH].
Qed.

Lemma newer_first_total x y : newer_first x y = false -> newer_first y x = true.
Proof. unfold newer_first. rewrite Z.leb_gt, Z.leb_le. lia. Qed.

Lemma newer_first_trans x y z :
  newer_first x y = true -> newer_first y z = true -> newer_first x z = true.
Proof. unfold newer_first. rewrite !Z.leb_le. lia. Qed.

(** C8. The latest query returns a stored row of that kind and identifier
    whose [updated_at] no other such row exceeds, and returns none exactly
    when no stored row has that kind and identifier. *)
Theorem latest_draft_greatest_updated_at :
  forall (db : Database) (kind : Z) (d : string),
    match _db_get_latest_draft db kind d with
    | Some r =>
        In r (drafts db) /\ dr_kind r = kind /\ dr_d r = d
        /\ Forall (fun r' => dr_kind r' = kind /\ dr_d r' = d ->
                             dr_updated_at r' <= dr_updated_at r) (drafts db)
    | None =>
        Forall (fun r' => ~ (dr_kind r' = kind /\ dr_d r' = d)) (drafts db)
    end.
Proof.
  intros db kind d. unfold _db_get_latest_draft.
  set (same := fun r => Z.eqb (dr_kind r) kind && String.eqb (dr_d r) d).
  assert (Hsame : forall r, same r = true <-> dr_kind r = kind /\ dr_d r = d).
  { intros r. unfold same. rewrite andb_true_iff, Z.eqb_eq, String.eqb_eq. tauto. }
  destruct (head _) as [r|] eqn:Hhead.
  - apply (head_order_by_least _ newer_first_total newer_first_trans) in Hhead
      as [Hin Hleast].
    apply List.filter_In in Hin as [Hin Hr]. apply Hsame in Hr as [Hk Hd].
    repeat split; try assumption.
    apply Forall_forall. intros r' Hin' Hr'.
    apply Z.leb_le. apply (Hleast r').
    apply List.filter_In. split; [now apply list_elem_of_In|now apply Hsame].
  - apply head_order_by_nil in Hhead.
    apply Forall_forall. intros r' Hin' Hr'.
    assert (Hf : In r' (List.filter same (drafts db))).
    { apply List.filter_In. split; [now apply list_elem_of_In|now apply Hsame]. }
    rewrite Hhead in Hf. destruct Hf.
Qed.

End StoreRowFacts.

(** ** Author validation *)

Section ValidateFacts.
Import Validate Spec.
Context `{Externals}.

Lemma string_app_assoc (a b c : string) : (a +:+ b) +:+ c = a +:+ (b +:+ c).
Proof.
  induction a as [|x a IH]; [reflexivity|].
  change (String x ((a +:+ b) +:+ c) = String x (a +:+ b +:+ c)).
  f_equal. exact IH.
Qed.

Lemma string_app_nil_r (a : string) : a +:+ "" = a.
Proof.
  induction a as [|x a IH]; [reflexivity|].
  change (String x (a +:+ "") = String x a). f_equal. exact IH.
Qed.

Lemma rstrip_keeps c s :
  py_isspace c = false -> rstrip (String c s) = String c (rstrip s).
Proof. intros Hc. simpl. rewrite Hc. destruct (rstrip s); reflexivity. Qed.

Lemma strip_nonspace c s :
  py_isspace c = false -> strip (String c s) = String c (rstrip s).
Proof.
  intros Hc. unfold strip. cbn [lstrip]. rewrite Hc. now apply rstrip_keeps.
Qed.

(** A value that starts with [nsec] still does after [strip]. *)
Lemma strip_keeps_nsec_prefix item :
  String.prefix "nsec" item = true -> String.prefix "nsec" (strip item) = true.
Proof.
  destruct item as [|c1 [|c2 [|c3 [|c4 rest]]]]; cbn [String.prefix];
    try discriminate;
    repeat (match goal with
            | |- context [Ascii.ascii_dec ?a ?b] => destruct (Ascii.ascii_dec a b)
            end; try discriminate).
  intros _. subst.
  rewrite strip_nonspace, !rstrip_keeps by reflexivity.
  generalize (rstrip rest). intros s. cbn. destruct s; reflexivity.
Qed.

Lemma author_error_offending v :
  match author_error v with
  | Some e => offending v = true /\ exists post, e = v +:+ post
  | None => offending v = false
  end.
Proof.
  unfold author_error, offending.
  destruct (String.prefix "nsec" v); simpl; [eauto|].
  destruct (PublicKey_parse v); simpl; eauto.
Qed.

Lemma concat_names sep (errors : list string) e :
  In e errors -> names (String.concat sep errors) e.
Proof.
  induction errors as [|x l IH]; [intros []|].
  intros [->|Hin].
  - destruct l as [|y l]; simpl.
    + exists "", "". change (e = e +:+ ""). now rewrite string_app_nil_r.
    + exists "", (sep +:+ String.concat sep (y :: l)). reflexivity.
  - destruct (IH Hin) as (pre & post & Heq).
    destruct l as [|y l]; [destruct Hin|].
    exists (x +:+ sep +:+ pre), post.
    change (String.concat sep (x :: y :: l))
      with (x +:+ sep +:+ String.concat sep (y :: l)).
    rewrite Heq. now rewrite !string_app_assoc.
Qed.

Lemma omap_author_error_nil l :
  omap author_error l = [] -> Forall (fun v => offending v = false) l.
Proof.
  induction l as [|v l IH]; simpl; [constructor|].
  pose proof (author_error_offending v) as Hv.
  destruct (author_error v); [discriminate|].
  intros Hl. constructor; auto.
Qed.

Lemma omap_author_error_names l prefix :
  Forall (fun v => offending v = true ->
                   names (prefix +:+ String.concat "; " (omap author_error l)) v) l.
Proof.
  apply Forall_forall. intros v Hin Hoff.
  pose proof (author_error_offending v) as Hv.
  destruct (author_error v) as [e|] eqn:He; [|congruence].
  destruct Hv as [_ [post ->]].
  assert (Hine : In (v +:+ post) (omap author_error l)).
  { apply list_elem_of_In, list_elem_of_omap. eauto. }
  destruct (concat_names "; " _ _ Hine) as (pre & post' & ->).
  exists (prefix +:+ pre), (post +:+ post').
  now rewrite !string_app_assoc.
Qed.

Lemma omap_author_error_cons l e errors :
  omap author_error l = e :: errors ->
  exists v, In v l /\ offending v = true.
Proof.
  intros Heq.
  assert (He : e ∈ omap author_error l) by (rewrite Heq; left).
  apply list_elem_of_omap in He as (v & Hv & Hav).
  exists v. split; [now apply list_elem_of_In|].
  pose proof (author_error_offending v) as Hoff. rewrite Hav in Hoff. tauto.
Qed.

Lemma validate_author_keys_cases :
  forall (authors : option (list string)),
    let normalized := normalize (default [] authors) in
    match _validate_author_keys authors with
    | inl text =>
        (exists v, In v normalized /\ offending v = true)
        /\ Forall (fun v => offending v = true -> names text v) normalized
        /\ (forall db now d title content summary topics lang version supersedes
                   license_id,
              create_ncc_store db now d title content summary topics lang version
                               supersedes license_id authors
              = (inl text, db))
    | inr result =>
        Forall (fun v => offending v = false) normalized /\ result = normalized
    end.
Proof.
  intros authors normalized.
  destruct (_validate_author_keys authors) as [text|result] eqn:Hval.
  - assert (Hstore : forall db now d title content summary topics lang version
                            supersedes license_id,
               create_ncc_store db now d title content summary topics lang version
                                supersedes license_id authors = (inl text, db)).
    { intros. unfold create_ncc_store. now rewrite Hval. }
    revert Hval. unfold _validate_author_keys.
    destruct authors as [[|a l]|]; try discriminate.
    fold normalized. change (normalize (default [] (Some (a :: l)))) with (normalize (a :: l)) in *.
    subst normalized. destruct (normalize (a :: l)) as [|n ns] eqn:Hn; [discriminate|].
    destruct (omap author_error (n :: ns)) as [|e errors] eqn:He; [discriminate|].
    intros [= <-]. split; [|split; [|exact Hstore]].
    + eapply omap_author_error_cons. exact He.
    + pose proof (omap_author_error_names (n :: ns)
        "Authors must be npub or hex public keys. Invalid entries: ") as Hnames.
      rewrite He in Hnames. exact Hnames.
  - revert Hval. unfold _validate_author_keys.
    destruct authors as [[|a l]|]; try (intros [= <-]; split; [constructor|reflexivity]).
    change (normalize (default [] (Some (a :: l)))) with (normalize (a :: l)) in *.
    subst normalized. destruct (normalize (a :: l)) as [|n ns] eqn:Hn.
    + intros [= <-]. split; [constructor|reflexivity].
    + destruct (omap author_error (n :: ns)) as [|e errors] eqn:He; [|discriminate].
      intros [= <-]. split; [|reflexivity]. now apply omap_author_error_nil.
Qed.

Lemma nsec_prefix_normalized item authors :
  In item authors -> String.prefix "nsec" item = true ->
  In (strip item) (normalize authors) /\ offending (strip item) = true.
Proof.
  intros Hin Hpre. pose proof (strip_keeps_nsec_prefix item Hpre) as Hstrip.
  split.
  - unfold normalize. apply List.in_map, List.filter_In. split; [exact Hin|].
    destruct item; [discriminate|]. destruct (strip _); [discriminate|reflexivity].
  - unfold offending. now rewrite Hstrip.
Qed.

End ValidateFacts.

(** ** Python floats *)

Section Binary64Facts.
Import Binary64.
Local Open Scope Q_scope.

Lemma round_half_even_cases x :
  let f := x - inject_Z (Qfloor x) in
  (round_half_even x = Qfloor x /\ f <= 1 # 2
   /\ (f == 1 # 2 -> Z.even (Qfloor x) = true))
  \/ (round_half_even x = (Qfloor x + 1)%Z /\ 1 # 2 <= f
      /\ (f == 1 # 2 -> Z.even (Qfloor x) = false)).
Proof.
  cbv zeta. unfold round_half_even.
  destruct (Qcompare_spec (x - inject_Z (Qfloor x)) (1 # 2)) as [He|Hl|Hg].
  - destruct (Z.even (Qfloor x)); [left|right]; repeat split; auto;
      rewrite He; apply Qle_refl.
  - left. repeat split; [now apply Qlt_le_weak|]. intros He. rewrite He in Hl.
    now apply Qlt_irrefl in Hl.
  - right. repeat split; [now apply Qlt_le_weak|]. intros He. rewrite He in Hg.
    now apply Qlt_irrefl in Hg.
Qed.

Lemma round_half_even_mono x y :
  x <= y -> (round_half_even x <= round_half_even y)%Z.
Proof.
  intros Hxy. pose proof (Qfloor_resp_le _ _ Hxy) as Hfl.
  destruct (round_half_even_cases x) as [(-> & Hx & Ex)|(-> & Hx & Ex)];
    destruct (round_half_even_cases y) as [(-> & Hy & Ey)|(-> & Hy & Ey)];
    try lia.
  destruct (Z.eq_dec (Qfloor x) (Qfloor y)) as [Heq|Hne]; [exfalso|lia].
  rewrite <- Heq in Hy, Ey.
  assert (Hfr : x - inject_Z (Qfloor x) <= y - inject_Z (Qfloor x)).
  { apply Qplus_le_l with (z := inject_Z (Qfloor x)). ring_simplify. exact Hxy. }
  assert (Hx' : x - inject_Z (Qfloor x) == 1 # 2).
  { apply Qle_antisym; [|exact Hx]. eapply Qle_trans; eassumption. }
  assert (Hy' : y - inject_Z (Qfloor x) == 1 # 2).
  { apply Qle_antisym; [exact Hy|]. eapply Qle_trans; eassumption. }
  specialize (Ex Hx'). specialize (Ey Hy'). congruence.
Qed.

Lemma round_half_even_Z x z : x == inject_Z z -> round_half_even x = z.
Proof.
  intros Hx. unfold round_half_even.
  rewrite (Qfloor_comp _ _ Hx), Qfloor_Z.
  assert (Hlt : x - inject_Z z < 1 # 2) by (rewrite Hx; ring_simplify; reflexivity).
  destruct (Qcompare_spec (x - inject_Z z) (1 # 2)) as [He|Hl|Hg]; [exfalso| |exfalso].
  - rewrite He in Hlt. now apply Qlt_irrefl in Hlt.
  - reflexivity.
  - apply (Qlt_irrefl (1 # 2)). eapply Qlt_trans; eassumption.
Qed.

Lemma two_nonzero : ~ 2 == 0.
Proof. discriminate. Qed.

Lemma pow2_pos e : 0 < 2 ^ e.
Proof. apply Qpower_0_lt. reflexivity. Qed.

Lemma pow2_Z e : (0 <= e)%Z -> 2 ^ e == inject_Z (2 ^ e).
Proof. intros He. now rewrite Zpower_Qpower. Qed.

Lemma pow2_succ e : 2 ^ (e + 1) == 2 * 2 ^ e.
Proof. rewrite Qpower_plus by apply two_nonzero. rewrite Qpower_1_r. ring. Qed.

Lemma Z_log2_bounds (p : positive) :
  inject_Z (2 ^ Z.log2 (Zpos p)) <= inject_Z (Zpos p)
  /\ inject_Z (Zpos p) < 2 * inject_Z (2 ^ Z.log2 (Zpos p)).
Proof.
  destruct (Z.log2_spec (Zpos p)) as [Hlo Hhi]; [lia|].
  split; [now rewrite <- Zle_Qle|].
  change 2 with (inject_Z 2). rewrite <- inject_Z_mult, <- Zlt_Qlt.
  replace (Z.succ (Z.log2 (Z.pos p))) with (Z.log2 (Z.pos p) + 1)%Z in Hhi by lia.
  rewrite Z.pow_add_r in Hhi; [lia|apply Z.log2_nonneg|lia].
Qed.

Lemma ilog2_spec x : 0 < x -> 2 ^ ilog2 x <= x /\ x < 2 ^ (ilog2 x + 1).
Proof.
  intros Hx. destruct x as [n d].
  assert (Hn : (0 < n)%Z) by (unfold Qlt in Hx; simpl in Hx; lia).
  destruct n as [|n|n]; try lia. clear Hn.
  unfold ilog2. cbn [Qnum Qden].
  set (a := Z.log2 (Zpos n)). set (b := Z.log2 (Zpos d)).
  destruct (Z_log2_bounds n) as [Hn1 Hn2]. destruct (Z_log2_bounds d) as [Hd1 Hd2].
  fold a in Hn1, Hn2. fold b in Hd1, Hd2.
  assert (Ha : (0 <= a)%Z) by apply Z.log2_nonneg.
  assert (Hb : (0 <= b)%Z) by apply Z.log2_nonneg.
  rewrite <- (pow2_Z a Ha) in Hn1, Hn2. rewrite <- (pow2_Z b Hb) in Hd1, Hd2.
  assert (Hk : 2 ^ (a - b) * 2 ^ b == 2 ^ a).
  { rewrite <- Qpower_plus by apply two_nonzero.
    now replace (a - b + b)%Z with a by lia. }
  assert (Hk' : 2 * 2 ^ (a - b - 1) == 2 ^ (a - b)).
  { rewrite <- pow2_succ. now replace (a - b - 1 + 1)%Z with (a - b)%Z by lia. }
  assert (Hxq : Zpos n # d == inject_Z (Zpos n) / inject_Z (Zpos d)) by apply Qmake_Qdiv.
  assert (Hdpos : 0 < inject_Z (Zpos d)) by reflexivity.
  pose proof (pow2_pos (a - b)) as Hpk. pose proof (pow2_pos (a - b - 1)) as Hpk'.
  pose proof (pow2_pos b) as Hpb.
  assert (Hbounds : 2 ^ (a - b - 1) <= Zpos n # d /\ Zpos n # d < 2 * 2 ^ (a - b)).
  { revert Hn1 Hn2 Hd1 Hd2 Hk Hk' Hxq Hdpos Hpk Hpk' Hpb.
    generalize (2 ^ (a - b)) (2 ^ (a - b - 1)) (2 ^ a) (2 ^ b)
               (inject_Z (Zpos n)) (inject_Z (Zpos d)) (Zpos n # d).
    intros K K' A B N D x Hn1 Hn2 Hd1 Hd2 Hk Hk' Hxq Hdpos Hpk Hpk' Hpb.
    split; rewrite Hxq.
    - apply Qle_shift_div_l; [exact Hdpos|]. nra.
    - apply Qlt_shift_div_r; [exact Hdpos|]. nra. }
  destruct Hbounds as [Hlow Hup].
  destruct (Qle_bool (2 ^ (a - b)) (Zpos n # d)) eqn:Hle.
  - split; [apply Qle_bool_imp_le, Hle|now rewrite pow2_succ].
  - split; [exact Hlow|].
    replace (a - b - 1 + 1)%Z with (a - b)%Z by lia.
    apply Qnot_le_lt. intros Hc. apply Qle_bool_iff in Hc. congruence.
Qed.

Lemma ilog2_mono x y : 0 < x -> x <= y -> (ilog2 x <= ilog2 y)%Z.
Proof.
  intros Hx Hxy. assert (Hy : 0 < y) by (eapply Qlt_le_trans; eassumption).
  destruct (ilog2_spec x Hx) as [Hx1 _]. destruct (ilog2_spec y Hy) as [_ Hy2].
  destruct (Z_lt_le_dec (ilog2 y) (ilog2 x)) as [Hlt|Hle]; [exfalso|exact Hle].
  assert (Hp : 2 ^ (ilog2 y + 1) <= 2 ^ ilog2 x).
  { apply Qpower_le_compat_l; [lia|discriminate]. }
  apply (Qlt_irrefl y). eapply Qlt_le_trans; [exact Hy2|].
  eapply Qle_trans; [exact Hp|]. eapply Qle_trans; eassumption.
Qed.

(** Rounding to a multiple of [2^f]. *)
Lemma round_at_mono f x y :
  x <= y ->
  inject_Z (round_half_even (x / 2 ^ f)) * 2 ^ f
  <= inject_Z (round_half_even (y / 2 ^ f)) * 2 ^ f.
Proof.
  intros Hxy. pose proof (pow2_pos f) as Hp.
  apply Qmult_le_compat_r; [|now apply Qlt_le_weak].
  rewrite <- Zle_Qle. apply round_half_even_mono.
  apply Qmult_le_compat_r; [exact Hxy|]. apply Qlt_le_weak, Qinv_lt_0_compat, Hp.
Qed.

Lemma round_at_pow2 f e :
  (f <= e)%Z -> inject_Z (round_half_even (2 ^ e / 2 ^ f)) * 2 ^ f == 2 ^ e.
Proof.
  intros Hfe.
  assert (Hq : 2 ^ e / 2 ^ f == inject_Z (2 ^ (e - f))).
  { rewrite <- Qpower_minus by apply two_nonzero. apply pow2_Z. lia. }
  rewrite (round_half_even_Z _ _ Hq), <- pow2_Z by lia.
  rewrite <- Qpower_plus by apply two_nonzero.
  now replace (e - f + f)%Z with e by lia.
Qed.

Lemma round64_pos x :
  0 < x ->
  round64 x == inject_Z (round_half_even (x / 2 ^ ulp_exponent (ilog2 x)))
               * 2 ^ ulp_exponent (ilog2 x).
Proof.
  intros Hx. unfold round64.
  destruct (Qeq_bool x 0) eqn:Hz.
  { apply Qeq_bool_iff in Hz. rewrite Hz in Hx. now apply Qlt_irrefl in Hx. }
  assert (Habs : Qabs x = x).
  { destruct x as [n d]. unfold Qlt in Hx. simpl in Hx. unfold Qabs.
    f_equal. apply Z.abs_eq. lia. }
  cbv zeta. rewrite Habs. apply Qred_correct.
Qed.

(** Rounding to the nearest double keeps the order of positive numbers. *)
Lemma round64_mono x y : 0 < x -> x <= y -> round64 x <= round64 y.
Proof.
  intros Hx Hxy. assert (Hy : 0 < y) by (eapply Qlt_le_trans; eassumption).
  rewrite (round64_pos x Hx), (round64_pos y Hy).
  pose proof (ilog2_mono x y Hx Hxy) as He.
  destruct (ilog2_spec x Hx) as [_ Hx2]. destruct (ilog2_spec y Hy) as [Hy1 _].
  set (ex := ilog2 x) in *. set (ey := ilog2 y) in *.
  destruct (Z.eq_dec (ulp_exponent ex) (ulp_exponent ey)) as [Heq|Hne].
  - rewrite Heq. now apply round_at_mono.
  - assert (Hlt : (ex < ey)%Z).
    { destruct (Z.eq_dec ex ey) as [E|E]; [now rewrite E in Hne|lia]. }
    assert (Hfx : (ulp_exponent ex <= ey)%Z) by (unfold ulp_exponent in *; lia).
    assert (Hfy : (ulp_exponent ey <= ey)%Z) by (unfold ulp_exponent in *; lia).
    assert (Hxb : x <= 2 ^ ey).
    { apply Qlt_le_weak. eapply Qlt_le_trans; [exact Hx2|].
      apply Qpower_le_compat_l; [lia|discriminate]. }
    eapply Qle_trans; [apply (round_at_mono _ _ _ Hxb)|].
    rewrite (round_at_pow2 _ _ Hfx), <- (round_at_pow2 _ _ Hfy).
    now apply round_at_mono.
Qed.

(** On the operands of the retry delay, the two operations are those of the
    Standard Library's specification of binary64 ([prec = 53],
    [emax = 1024]): [1.0 + -0.2], [1.0 + 0.2], [30 * 0.8], [3600 * 1.2]
    with the doubles nearest to those decimals, a product that is rounded
    and a sum that falls below the normal range. *)
Example round64_agrees_with_SpecFloat :
  let one := SpecFloat.S754_finite false 1 0 in
  let fifth := SpecFloat.S754_finite false 7205759403792794 (-55) in
  let minus_fifth := SpecFloat.S754_finite true 7205759403792794 (-55) in
  let thirty := SpecFloat.S754_finite false 15 1 in
  let hour := SpecFloat.S754_finite false 225 4 in
  let tiny := SpecFloat.S754_finite false 7 (-1074) in
  forallb Spec.agrees_with_SpecFloat
    [(one, minus_fifth); (one, fifth);
     (thirty, SpecFloat.SFadd 53 1024 one minus_fifth);
     (hour, SpecFloat.SFadd 53 1024 one fifth); (fifth, fifth); (tiny, minus_fifth);
     (SpecFloat.SFmul 53 1024 tiny fifth, tiny)]
  = true.
Proof. vm_compute. reflexivity. Qed.

End Binary64Facts.

(** ** Retry delay *)

Section BackoffFacts.
Import Backoff Spec.

Lemma base_delay_pos_attempts n :
  1 <= n -> base_delay n = Z.min 3600 (30 * 2 ^ (n - 1)).
Proof.
  intros Hn. unfold base_delay, _QUEUE_MAX_DELAY, _QUEUE_BASE_DELAY.
  now rewrite Z.max_l by lia.
Qed.

Lemma base_delay_mono n m : n <= m -> base_delay n <= base_delay m.
Proof.
  intros Hnm. unfold base_delay, _QUEUE_MAX_DELAY, _QUEUE_BASE_DELAY.
  apply Z.min_le_compat_l. apply Z.mul_le_mono_nonneg_l; [lia|].
  apply Z.pow_le_mono_r; lia.
Qed.

Lemma base_delay_values n : In (base_delay n) base_delays.
Proof.
  unfold base_delay, _QUEUE_MAX_DELAY, _QUEUE_BASE_DELAY, base_delays.
  destruct (Z_lt_le_dec (Z.max (n - 1) 0) 7) as [Hlt|Hge].
  - assert (Hk : Z.max (n - 1) 0 = 0 \/ Z.max (n - 1) 0 = 1 \/ Z.max (n - 1) 0 = 2
                 \/ Z.max (n - 1) 0 = 3 \/ Z.max (n - 1) 0 = 4 \/ Z.max (n - 1) 0 = 5
                 \/ Z.max (n - 1) 0 = 6) by lia.
    destruct Hk as [-> | [-> | [-> | [-> | [-> | [-> | ->]]]]]]; cbn; tauto.
  - assert (Hpow : 2 ^ 7 <= 2 ^ Z.max (n - 1) 0) by (apply Z.pow_le_mono_r; lia).
    change (2 ^ 7) with 128 in Hpow. rewrite Z.min_l by lia. cbn. tauto.
Qed.

(** Every jitter factor lies between the two extreme ones. *)
Lemma factor_bounds (u : Q) :
  (- _QUEUE_JITTER <= u)%Q -> (u <= _QUEUE_JITTER)%Q ->
  (least_factor <= Binary64.add 1 u)%Q /\ (Binary64.add 1 u <= greatest_factor)%Q.
Proof.
  intros Hlo Hhi.
  assert (Hj : (_QUEUE_JITTER == 3602879701896397 # 18014398509481984)%Q)
    by (vm_compute; reflexivity).
  unfold least_factor, greatest_factor, Binary64.add. split.
  - apply round64_mono; [vm_compute; reflexivity|]. lra.
  - apply round64_mono; [|lra]. rewrite Hj in Hlo. lra.
Qed.

Lemma window_of_base_delays : forallb window_of base_delays = true.
Proof. vm_compute. reflexivity. Qed.

Lemma py_int_floor (x : Q) : (0 <= x)%Q -> py_int x = Qfloor x.
Proof.
  destruct x as [p q]. unfold Qle, py_int, Qfloor. cbn [Qnum Qden]. intros Hp.
  apply Z.quot_div_nonneg; lia.
Qed.

(** The delay stays within a fifth of the base, whatever the attempt
    number. *)
Lemma retry_delay_window (attempts : Z) (u : Q) :
  (- _QUEUE_JITTER <= u)%Q -> (u <= _QUEUE_JITTER)%Q ->
  8 * base_delay attempts <= 10 * _compute_retry_delay attempts u
  /\ 10 * _compute_retry_delay attempts u <= 12 * base_delay attempts.
Proof.
  intros Hlo Hhi. destruct (factor_bounds u Hlo Hhi) as [Hf1 Hf2].
  pose proof (base_delay_values attempts) as Hin.
  pose proof window_of_base_delays as Hall. rewrite forallb_forall in Hall.
  specialize (Hall _ Hin). unfold window_of in Hall.
  apply andb_prop in Hall as [Hall Hint]. apply andb_prop in Hall as [Hw1 Hw2].
  apply Qle_bool_imp_le in Hw1, Hw2. apply Qeq_bool_iff in Hint.
  unfold _compute_retry_delay. set (base := base_delay attempts) in *.
  assert (Hbase : 30 <= base).
  { unfold base_delays in Hin. cbn in Hin. lia. }
  assert (Hbq : (0 < Binary64.of_int base)%Q).
  { rewrite Hint. change 0%Q with (inject_Z 0). rewrite <- Zlt_Qlt. lia. }
  assert (Hlf : (0 < least_factor)%Q) by (vm_compute; reflexivity).
  set (j := Binary64.add 1 u) in *.
  assert (Hm1 : (Binary64.mul (Binary64.of_int base) least_factor
                 <= Binary64.mul (Binary64.of_int base) j)%Q).
  { apply round64_mono; [nra|]. nra. }
  assert (Hm2 : (Binary64.mul (Binary64.of_int base) j
                 <= Binary64.mul (Binary64.of_int base) greatest_factor)%Q).
  { apply round64_mono; [nra|]. nra. }
  set (p := Binary64.mul (Binary64.of_int base) j) in *.
  assert (Hp1 : (inject_Z base * (8 # 10) <= p)%Q) by (eapply Qle_trans; eassumption).
  assert (Hp2 : (p <= inject_Z base * (12 # 10))%Q) by (eapply Qle_trans; eassumption).
  assert (Hb0 : (0 < inject_Z base)%Q).
  { change 0%Q with (inject_Z 0). rewrite <- Zlt_Qlt. lia. }
  rewrite py_int_floor by nra.
  assert (Hfl1 : (inject_Z (Qfloor p) <= p)%Q) by apply Qfloor_le.
  assert (Hfl2 : (p < inject_Z (Qfloor p + 1))%Q) by apply Qlt_floor.
  assert (Hd : exists c, base = 10 * c).
  { unfold base_delays in Hin. cbn in Hin.
    destruct Hin as [<-|[<-|[<-|[<-|[<-|[<-|[<-|[<-|[]]]]]]]]];
      [exists 3|exists 6|exists 12|exists 24|exists 48|exists 96|exists 192|exists 360];
      reflexivity. }
  destruct Hd as [c Hc].
  assert (Hlow : 8 * c <= Qfloor p).
  { assert (Hlt : (inject_Z (8 * c) < inject_Z (Qfloor p + 1))%Q).
    { eapply Qle_lt_trans; [|exact Hfl2]. eapply Qle_trans; [|exact Hp1].
      rewrite Hc, !inject_Z_mult. apply Qle_lteq. right.
      change (inject_Z 8) with 8%Q. change (inject_Z 10) with 10%Q. field. }
    rewrite <- Zlt_Qlt in Hlt. lia. }
  assert (Hup : Qfloor p <= 12 * c).
  { assert (Hle : (inject_Z (Qfloor p) <= inject_Z (12 * c))%Q).
    { eapply Qle_trans; [exact Hfl1|]. eapply Qle_trans; [exact Hp2|].
      rewrite Hc, !inject_Z_mult. apply Qle_lteq. right.
      change (inject_Z 12) with 12%Q. change (inject_Z 10) with 10%Q. field. }
    now rewrite <- Zle_Qle in Hle. }
  lia.
Qed.

(** On 257 draws spread from the double -0.2 to the double 0.2, ends
    included, and for the attempts 0 to 9, which meet every base, the delay
    is the one that the Standard Library's binary64 operations give. *)
Example retry_delay_agrees_with_SpecFloat :
  forallb (fun attempts =>
             forallb (same_delay attempts)
                     (map (fun i => Z.of_nat i - 128) (seq 0 257)))
          [0; 1; 2; 3; 4; 5; 6; 7; 8; 9]
  = true.
Proof. vm_compute. reflexivity. Qed.

(** C4. For a positive attempt number [n] and a jitter draw [u] between the
    doubles -0.2 and 0.2, the delay is min(3600, 30 * 2^(n-1)) times the
    factor [1.0 + u] in float arithmetic, truncated and raised to at least
    1; the factor lies between 0.8 and 1.2; the delay lies between 0.8
    times the capped base and 3600 * 1.2; and the base before jitter does
    not decrease with [n]. *)
Theorem compute_retry_delay_bounds :
  forall (n : Z) (u : Q),
    1 <= n ->
    (- _QUEUE_JITTER <= u)%Q -> (u <= _QUEUE_JITTER)%Q ->
    let factor := Binary64.add 1 u in
    _compute_retry_delay n u
    = Z.max 1 (py_int (Binary64.mul
                         (Binary64.of_int (Z.min 3600 (30 * 2 ^ (n - 1)))) factor))
    /\ ((8 # 10) <= factor)%Q /\ (factor <= (12 # 10))%Q
    /\ (inject_Z (Z.min (30 * 2 ^ (n - 1)) 3600) * (8 # 10)
        <= inject_Z (_compute_retry_delay n u))%Q
    /\ (inject_Z (_compute_retry_delay n u) <= inject_Z 3600 * (12 # 10))%Q
    /\ (forall m, n <= m -> base_delay n <= base_delay m).
Proof.
  intros n u Hn Hlo Hhi factor.
  destruct (factor_bounds u Hlo Hhi) as [Hf1 Hf2]. fold factor in Hf1, Hf2.
  destruct (retry_delay_window n u Hlo Hhi) as [Hlow Hup].
  rewrite (base_delay_pos_attempts n Hn) in Hlow, Hup.
  split; [|split; [|split; [|split; [|split]]]].
  - unfold _compute_retry_delay. now rewrite (base_delay_pos_attempts n Hn).
  - eapply Qle_trans; [|exact Hf1]. vm_compute. discriminate.
  - eapply Qle_trans; [exact Hf2|]. vm_compute. discriminate.
  - rewrite Z.min_comm. unfold Qle, Qmult, inject_Z; cbn [Qnum Qden].
    change (Zpos (1 * 10)) with 10. lia.
  - unfold Qle, Qmult, inject_Z; cbn [Qnum Qden].
    change (Zpos (1 * 10)) with 10. lia.
  - intros m Hm. now apply base_delay_mono.
Qed.

(** The delay is at least one second, whatever was drawn. *)
Lemma compute_retry_delay_positive n u : 1 <= _compute_retry_delay n u.
Proof. unfold _compute_retry_delay. lia. Qed.

End BackoffFacts.

(** ** Stamping a payload before an attempt *)

Section PrepareFacts.
Import Builder Spec Queue.
Context `{Externals}.

Lemma ensure_tags_insert_tags (p : payload) tags :
  _ensure_tags (<["tags" := PList tags]> p) = tags.
Proof. unfold _ensure_tags. now rewrite lookup_insert_eq. Qed.

Lemma prepare_tags now (p : payload) :
  _ensure_tags (_prepare_payload_for_publish now p)
  = if is_document p
    then List.filter (keeps_tag "published_at") (_ensure_tags p)
         ++ [tag2 "published_at" (py_str_of_int now)]
    else _ensure_tags p.
Proof.
  unfold _prepare_payload_for_publish. rewrite ensure_tags_insert_tags.
  unfold is_document, _upsert_single_tag, _ensure_tags.
  rewrite !lookup_insert_ne by discriminate. reflexivity.
Qed.



Lemma attempt_publish_payload_prepares p relays keys w :
  match _attempt_publish_payload p relays keys w with
  | (Returns (event_id, p'), w') =>
      p' = _prepare_payload_for_publish (clock w (ticks w)) p
      /\ client_send_event p' relays keys = inr event_id
  | (Raises _, _) => True
  end.
Proof.
  unfold _attempt_publish_payload, bind, _now, lift, ret; simpl.
  destruct (build_event_from_json _); [|exact I].
  unfold publish_event. destruct (py_truthy relays); [|exact I].
  destruct (client_send_event _ relays keys) eqn:Hsend; [exact I|]. now split.
Qed.


End PrepareFacts.

(** ** Publish queue *)

Create HintDb queues.

Section QueueFacts.
Import Store Queue Spec.
Context `{Externals}.

Lemma same_queues_refl w : same_queues w w.
Proof. split; reflexivity. Qed.

Lemma same_queues_trans w1 w2 w3 :
  same_queues w1 w2 -> same_queues w2 w3 -> same_queues w1 w3.
Proof.
  intros [Hq1 Hn1] [Hq2 Hn2]. split; [|congruence].
  intros path. now rewrite Hq2, Hq1.
Qed.

Lemma keeps_ret {A} (a : A) : keeps_queues (ret a).
Proof. intros w. apply same_queues_refl. Qed.

Lemma keeps_raise {A} e : keeps_queues (@raise A e).
Proof. intros w. apply same_queues_refl. Qed.

Lemma keeps_lift {A} (o : outcome A) : keeps_queues (lift o).
Proof. intros w. apply same_queues_refl. Qed.

Lemma keeps_now : keeps_queues _now.
Proof. intros w. split; reflexivity. Qed.

Lemma keeps_get_db path : keeps_queues (get_db path).
Proof. intros w. apply same_queues_refl. Qed.

Lemma keeps_load_json path : keeps_queues (_load_json path).
Proof.
  intros w. unfold _load_json.
  destruct (files w path) as [[text|v]|]; apply same_queues_refl.
Qed.

Lemma keeps_write_json path data : keeps_queues (_write_json path data).
Proof.
  intros w. unfold _write_json. destruct (str_truthy (dirname path)); split; reflexivity.
Qed.

Lemma keeps_bind {A B} (c : M A) (k : A -> M B) :
  keeps_queues c -> (forall a, keeps_queues (k a)) -> keeps_queues (bind c k).
Proof.
  intros Hc Hk w. unfold bind. specialize (Hc w).
  destruct (c w) as [[a|e] w1]; simpl in *; [|exact Hc].
  eapply same_queues_trans; [exact Hc|apply Hk].
Qed.

(** Reading the database and committing a copy with the same queue. *)
Lemma keeps_update_draft path (f : Database -> Z -> Database) {A} (k : M A) :
  (forall db now, publish_queue (f db now) = publish_queue db) ->
  keeps_queues k ->
  keeps_queues (let* db := get_db path in
                let* now := _now in
                put_db path (f db now) ;;; k).
Proof.
  intros Hf Hk w. unfold bind at 1 2 3, get_db, _now, put_db; simpl.
  eapply same_queues_trans; [|apply Hk].
  split; [|reflexivity]. intros p; simpl.
  destruct (String.eqb_spec p path) as [->|_]; [apply Hf|reflexivity].
Qed.

Hint Resolve keeps_ret keeps_raise keeps_lift keeps_now keeps_get_db
  keeps_load_json keeps_write_json : queues.

Lemma keeps_load_config_db config_path : keeps_queues (_load_config_db config_path).
Proof. unfold _load_config_db. apply keeps_bind; auto with queues. Qed.

Lemma keeps_load_privkey config_path :
  keeps_queues (_load_privkey_from_config config_path).
Proof.
  unfold _load_privkey_from_config.
  destruct (opt_str_truthy config_path); auto with queues.
  apply keeps_bind; [apply keeps_load_config_db|].
  intros [ | | | | |c]; auto with queues.
Qed.

Lemma keeps_attempt_publish_payload p relays keys :
  keeps_queues (_attempt_publish_payload p relays keys).
Proof.
  unfold _attempt_publish_payload.
  repeat (apply keeps_bind; [auto with queues|intros; auto with queues]).
Qed.

Lemma keeps_attempt_publish_json json_path relays keys :
  keeps_queues (_attempt_publish_json json_path relays keys).
Proof.
  unfold _attempt_publish_json.
  apply keeps_bind; [auto with queues|].
  intros [ | | | | |p];
    try solve [apply keeps_bind; [auto with queues|intros; auto with queues]].
  apply keeps_bind; [apply keeps_attempt_publish_payload|].
  intros [event_id p']. apply keeps_bind; auto with queues.
Qed.

Lemma keeps_attempt_publish_draft config_path draft_id relays keys :
  keeps_queues (_attempt_publish_draft config_path draft_id relays keys).
Proof.
  unfold _attempt_publish_draft.
  apply keeps_bind; [auto with queues|]. intros db.
  destruct (draft_by_id db draft_id) as [draft|]; [|auto with queues].
  apply keeps_bind; [auto with queues|]. intros created_at.
  destruct (Builder._payload_from_draft _ _ _ _ _ _) as [p|]; [|auto with queues].
  apply keeps_bind; [apply keeps_attempt_publish_payload|]. intros [event_id p'].
  apply keeps_bind.
  - destruct (Z.eqb (dr_kind draft) 30050); [|auto with queues].
    apply keeps_bind; auto with queues.
  - intros published_at.
    apply (keeps_update_draft _
             (fun db now => _db_update_draft db now (dr_id draft) (dr_title draft)
                              (dr_content draft) _ (Some "published") published_at
                              (Some event_id))); [reflexivity|auto with queues].
Qed.

Lemma keeps_run_publish_task task : keeps_queues (_run_publish_task task).
Proof.
  unfold _run_publish_task.
  apply keeps_bind.
  { destruct (opt_str_truthy _); [apply keeps_load_config_db|auto with queues]. }
  intros config. apply keeps_bind; [apply keeps_load_privkey|]. intros privkey.
  destruct (py_truthy privkey); [|auto with queues].
  destruct (Keys_parse privkey) as [text|keys]; [auto with queues|].
  destruct (String.eqb (task_type task) "draft").
  { destruct (task_draft_id task); [apply keeps_attempt_publish_draft|auto with queues]. }
  destruct (String.eqb (task_type task) "json").
  { destruct (task_json_path task); [apply keeps_attempt_publish_json|auto with queues]. }
  destruct (String.eqb (task_type task) "payload"); [|auto with queues].
  destruct (task_payload task); auto with queues.
  apply keeps_bind; [apply keeps_attempt_publish_payload|].
  intros [event_id p']. auto with queues.
Qed.

Lemma due_first_total x y : due_first x y = false -> due_first y x = true.
Proof. unfold due_first. rewrite Z.leb_gt, Z.leb_le. lia. Qed.

Lemma due_first_trans x y z :
  due_first x y = true -> due_first y z = true -> due_first x z = true.
Proof. unfold due_first. rewrite !Z.leb_le. lia. Qed.

Lemma select_due_in db now row :
  select_due db now = Some row ->
  In row (publish_queue db) /\ q_next_attempt_at row <= now.
Proof.
  unfold select_due. intros Hsel.
  apply (head_order_by_least _ due_first_total due_first_trans) in Hsel as [Hin _].
  apply List.filter_In in Hin as [Hin Hdue]. split; [exact Hin|now apply Z.leb_le].
Qed.

(** The pass, with the read of the clock and the [select] made explicit. *)
Lemma process_publish_queue_db_unfold db_path output w :
  _process_publish_queue_db db_path output w
  = let w1 := set_ticks w (S (ticks w)) in
    match select_due (dbs w db_path) (clock w (ticks w)) with
    | None => (Returns false, w1)
    | Some row =>
        let task := _queue_row_to_task row in
        match _run_publish_task task w1 with
        | (Returns event_id, w2) =>
            (_queue_notice output (succeeded_message event_id) ;;;
             delete_task db_path (q_id row) ;;; ret true) w2
        | (Raises (Exception exc), w2) => on_failure db_path output row task exc w2
        | (Raises (SystemExit text), w2) => (Raises (SystemExit text), w2)
        end
    end.
Proof.
  unfold _process_publish_queue_db, bind at 1 2, get_db, _now; simpl.
  destruct (select_due _ _) as [row|]; [|reflexivity].
  unfold try_except_Exception, bind at 1.
  destruct (_run_publish_task _ _) as [[event_id|[exc|text]] w2];
    try reflexivity.
  destruct output; reflexivity.
Qed.

Lemma run_publish_task_queue db_path task w :
  publish_queue (dbs (snd (_run_publish_task task (set_ticks w (S (ticks w))))) db_path)
  = publish_queue (dbs w db_path)
  /\ notices (snd (_run_publish_task task (set_ticks w (S (ticks w))))) = notices w.
Proof.
  destruct (keeps_run_publish_task task (set_ticks w (S (ticks w)))) as [Hq Hn].
  split; [apply Hq|exact Hn].
Qed.

(** C2, amended. For the selected due task, when the attempt raises an
    [Exception]: if the stored attempts plus one is below [max_attempts], the
    row is kept with attempts incremented, [next_attempt_at] set to the
    current time plus a delay of at least one second and [last_error] set to
    the text of the error; otherwise the row is deleted and the abandonment
    message is sent once to [output] when an [output] was given, to nobody
    when none was.  When the attempt succeeds the row is deleted at once. *)
Theorem dispatch_attempt_outcome :
  forall (db_path : string) (output : option callable) (w : World) (row : QueueRow),
    select_due (dbs w db_path) (clock w (ticks w)) = Some row ->
    let queue := publish_queue (dbs w db_path) in
    let attempts := q_attempts row + 1 in
    let sent message := match output with Some _ => [message] | None => [] end in
    let others r := negb (Z.eqb (q_id r) (q_id row)) in
    match _run_publish_task (_queue_row_to_task row) (set_ticks w (S (ticks w))) with
    | (Returns event_id, _) =>
        exists w',
          _process_publish_queue_db db_path output w = (Returns true, w')
          /\ publish_queue (dbs w' db_path) = List.filter others queue
          /\ notices w' = notices w ++ sent (succeeded_message event_id)
    | (Raises (Exception exc), w2) =>
        exists w',
          _process_publish_queue_db db_path output w = (Returns true, w')
          /\ if Z.leb (q_max_attempts row) attempts then
               publish_queue (dbs w' db_path) = List.filter others queue
               /\ notices w' = notices w ++ sent (abandoned_message attempts exc)
             else
               let delay := Backoff._compute_retry_delay (attempts + 1)
                              (uniform w2 (draws w2)) in
               let next_attempt_at := clock w2 (ticks w2) + delay in
               publish_queue (dbs w' db_path)
               = map (fun r => if Z.eqb (q_id r) (q_id row)
                               then retry_row attempts next_attempt_at exc r else r)
                     queue
               /\ In (retry_row attempts next_attempt_at exc row)
                     (publish_queue (dbs w' db_path))
               /\ 1 <= delay
               /\ notices w' = notices w
                                ++ sent (failed_message attempts (q_max_attempts row) exc)
    | (Raises (SystemExit _), _) => True
    end.
Proof.
  intros db_path output w row Hsel queue attempts sent others.
  rewrite process_publish_queue_db_unfold, Hsel. cbv zeta.
  destruct (run_publish_task_queue db_path (_queue_row_to_task row) w) as [Hq Hn].
  destruct (_run_publish_task _ _) as [[event_id|[exc|text]] w2]; [| |exact I];
    simpl in Hq, Hn.
  - subst sent. destruct output; (eexists; split; [reflexivity|]);
      simpl; rewrite String.eqb_refl; simpl; rewrite Hq, Hn;
      split; try reflexivity. now rewrite app_nil_r.
  - unfold on_failure. change (task_attempts (_queue_row_to_task row) + 1) with attempts.
    change (task_max_attempts (_queue_row_to_task row)) with (q_max_attempts row).
    assert (Hrow : In row queue) by (apply (select_due_in _ _ _ Hsel)).
    subst sent. destruct (Z.leb (q_max_attempts row) attempts).
    + destruct output; (eexists; split; [reflexivity|]);
        simpl; rewrite String.eqb_refl; simpl; rewrite Hq, Hn;
        split; try reflexivity. now rewrite app_nil_r.
    + destruct output; (eexists; split; [reflexivity|]);
        simpl; rewrite String.eqb_refl; simpl; rewrite Hq, Hn;
        (split; [reflexivity|]);
        (split; [apply List.in_map_iff; exists row; now rewrite Z.eqb_refl|]);
        (split; [apply compute_retry_delay_positive|]);
        try reflexivity. now rewrite app_nil_r.
Qed.

(** A [SystemExit] raised by the attempt is not an [Exception]: it leaves the
    pass with the queue as it was. *)
Lemma dispatch_system_exit db_path output w row text w2 :
  select_due (dbs w db_path) (clock w (ticks w)) = Some row ->
  _run_publish_task (_queue_row_to_task row) (set_ticks w (S (ticks w)))
  = (Raises (SystemExit text), w2) ->
  _process_publish_queue_db db_path output w = (Raises (SystemExit text), w2)
  /\ publish_queue (dbs w2 db_path) = publish_queue (dbs w db_path)
  /\ notices w2 = notices w.
Proof.
  intros Hsel Hrun. rewrite process_publish_queue_db_unfold, Hsel. cbv zeta.
  destruct (run_publish_task_queue db_path (_queue_row_to_task row) w) as [Hq Hn].
  rewrite Hrun in *. simpl in Hq, Hn. auto.
Qed.

Lemma rowid_order_filter f queue :
  rowid_order queue -> rowid_order (List.filter f queue).
Proof.
  unfold rowid_order. induction 1 as [|x l Hl IH Hx]; simpl; [constructor|].
  destruct (f x); [|exact IH]. constructor; [exact IH|].
  apply Forall_forall. intros y Hy.
  apply list_elem_of_In, List.filter_In in Hy as [Hy _].
  rewrite Forall_forall in Hx. apply Hx. now apply list_elem_of_In.
Qed.

(** Among the due rows the selected one has the least [next_attempt_at],
    and of those with that value the least id. *)
Lemma select_due_least db now row :
  rowid_order (publish_queue db) ->
  select_due db now = Some row ->
  Forall (fun r => q_next_attempt_at r <= now ->
                   q_next_attempt_at row <= q_next_attempt_at r
                   /\ (q_next_attempt_at r = q_next_attempt_at row ->
                       q_id row <= q_id r))
         (publish_queue db).
Proof.
  intros Hsorted Hsel. unfold select_due in Hsel.
  apply (rowid_order_filter (fun r => Z.leb (q_next_attempt_at r) now)) in Hsorted.
  apply (head_order_by_first _ due_first_total due_first_trans) in Hsel
    as (l1 & l2 & Hsplit & H1 & H2).
  rewrite Hsplit in Hsorted. unfold rowid_order in Hsorted.
  apply StronglySorted_app_1_r, StronglySorted_cons in Hsorted as [Hafter _].
  apply Forall_forall. intros r Hr Hdue.
  assert (Hin : In r (l1 ++ row :: l2)).
  { rewrite <- Hsplit. apply List.filter_In. split; [now apply list_elem_of_In|].
    now apply Z.leb_le. }
  apply in_app_or in Hin as [Hin|[<-|Hin]].
  - rewrite Forall_forall in H1. apply list_elem_of_In, H1 in Hin.
    unfold due_first in Hin. apply Z.leb_gt in Hin. lia.
  - lia.
  - rewrite Forall_forall in H2, Hafter.
    apply list_elem_of_In in Hin. pose proof (H2 _ Hin) as Hle.
    pose proof (Hafter _ Hin) as Hid. unfold due_first in Hle.
    apply Z.leb_le in Hle. lia.
Qed.

Lemma select_due_none db now :
  select_due db now = None ->
  Forall (fun r => now < q_next_attempt_at r) (publish_queue db).
Proof.
  unfold select_due. intros Hsel. apply head_order_by_nil in Hsel.
  apply Forall_forall. intros r Hr.
  destruct (Z.leb (q_next_attempt_at r) now) eqn:Hdue; [|now apply Z.leb_gt].
  assert (Hin : In r (List.filter (fun r => Z.leb (q_next_attempt_at r) now)
                                  (publish_queue db))).
  { apply List.filter_In. split; [now apply list_elem_of_In|exact Hdue]. }
  rewrite Hsel in Hin. destruct Hin.
Qed.

(** A pass leaves every row but the selected one in the queue. *)
Lemma dispatch_keeps_other_rows db_path output w row r :
  select_due (dbs w db_path) (clock w (ticks w)) = Some row ->
  In r (publish_queue (dbs w db_path)) ->
  q_id r <> q_id row ->
  In r (publish_queue (dbs (snd (_process_publish_queue_db db_path output w)) db_path)).
Proof.
  intros Hsel Hin Hne. rewrite process_publish_queue_db_unfold, Hsel. cbv zeta.
  destruct (run_publish_task_queue db_path (_queue_row_to_task row) w) as [Hq _].
  assert (Hkept : In r (List.filter (fun r => negb (Z.eqb (q_id r) (q_id row)))
                                    (publish_queue (dbs w db_path)))).
  { apply List.filter_In. split; [exact Hin|]. apply negb_true_iff, Z.eqb_neq, Hne. }
  destruct (_run_publish_task _ _) as [[event_id|[exc|text]] w2]; simpl in Hq.
  - destruct output; simpl; rewrite String.eqb_refl; simpl; now rewrite Hq.
  - unfold on_failure.
    destruct (Z.leb _ _).
    + destruct output; simpl; rewrite String.eqb_refl; simpl; now rewrite Hq.
    + assert (Hmap : forall a n e,
                 In r (map (fun r0 => if Z.eqb (q_id r0) (q_id row)
                                      then retry_row a n e r0 else r0)
                           (publish_queue (dbs w db_path)))).
      { intros a n e. apply List.in_map_iff. exists r. split; [|exact Hin].
        apply Z.eqb_neq in Hne. now rewrite Hne. }
      destruct output; simpl; rewrite String.eqb_refl; simpl; rewrite Hq; apply Hmap.
  - simpl. now rewrite Hq.
Qed.

(** C5. With the queue table in rowid order, a pass looks only at the rows
    whose [next_attempt_at] is at most the current time and selects one of
    them: the one with the least [next_attempt_at] and, among equals, the
    least row id; every other row stays in the queue.  When no row is due it
    returns false and nothing but the reading of the clock has happened. *)
Theorem dispatch_selects_oldest_due :
  forall (db_path : string) (output : option callable) (w : World),
    let queue := publish_queue (dbs w db_path) in
    let now := clock w (ticks w) in
    rowid_order queue ->
    match select_due (dbs w db_path) now with
    | None =>
        Forall (fun r => now < q_next_attempt_at r) queue
        /\ _process_publish_queue_db db_path output w
           = (Returns false, set_ticks w (S (ticks w)))
    | Some row =>
        In row queue
        /\ q_next_attempt_at row <= now
        /\ Forall (fun r => q_next_attempt_at r <= now ->
                            q_next_attempt_at row <= q_next_attempt_at r
                            /\ (q_next_attempt_at r = q_next_attempt_at row ->
                                q_id row <= q_id r))
                  queue
        /\ Forall (fun r => q_id r <> q_id row ->
                            In r (publish_queue
                                    (dbs (snd (_process_publish_queue_db
                                                 db_path output w)) db_path)))
                  queue
    end.
Proof.
  intros db_path output w queue now Hsorted.
  destruct (select_due (dbs w db_path) now) as [row|] eqn:Hsel.
  - destruct (select_due_in _ _ _ Hsel) as [Hin Hdue].
    repeat split; try assumption.
    + now apply select_due_least.
    + apply Forall_forall. intros r Hr Hne.
      apply dispatch_keeps_other_rows with (row := row);
        [exact Hsel|now apply list_elem_of_In|exact Hne].
  - split; [now apply select_due_none|].
    rewrite process_publish_queue_db_unfold. fold now. now rewrite Hsel.
Qed.

End QueueFacts.

(** ** Closed examples *)

Section Examples.
Import Store Queue Spec Fixtures.

(** C2 as stated does not hold: the worker that is started without an
    [output] abandons the task at its last attempt and no notification is
    emitted. *)
Lemma abandoned_without_notification :
  select_due (dbs world "/db") (clock world (ticks world)) = Some row2
  /\ fst (_run_publish_task (H := failing_sdk) (_queue_row_to_task row2)
                            (set_ticks world 1))
     = Raises (Exception "relay timeout")
  /\ fst (_process_publish_queue_db (H := failing_sdk) "/db" None world)
     = Returns true
  /\ publish_queue (dbs (snd (_process_publish_queue_db (H := failing_sdk)
                                "/db" None world)) "/db")
     = [row1; row3]
  /\ notices (snd (_process_publish_queue_db (H := failing_sdk) "/db" None world))
     = [].
Proof. vm_compute. repeat split; reflexivity. Qed.

(** The same pass with an [output]: one abandonment message. *)
Lemma dispatch_attempt_outcome_witness :
  select_due (dbs world "/db") (clock world (ticks world)) = Some row2
  /\ exists w',
       _process_publish_queue_db (H := failing_sdk) "/db" (Some Callable) world
       = (Returns true, w')
       /\ publish_queue (dbs w' "/db") = [row1; row3]
       /\ notices w' = [abandoned_message 5 "relay timeout"].
Proof.
  split; [vm_compute; reflexivity|].
  exact (dispatch_attempt_outcome (H := failing_sdk) "/db" (Some Callable) world row2
           eq_refl).
Defined.

(** A first failure: one more attempt counted, the next one 60 seconds
    after the third reading of the clock, the error kept. *)
Example first_failure_rescheduled :
  publish_queue (dbs (snd (_process_publish_queue_db (H := failing_sdk) "/db"
                             (Some Callable) world_retry)) "/db")
  = [row1; retry_row 1 1062 "relay timeout" row3]
  /\ notices (snd (_process_publish_queue_db (H := failing_sdk) "/db"
                     (Some Callable) world_retry))
     = [failed_message 1 5 "relay timeout"].
Proof. vm_compute. split; reflexivity. Qed.

(** A queued JSON task whose file is gone ends in [SystemExit], which the
    handler of the pass does not catch: the row stays as it was. *)
Example missing_json_file_escapes :
  fst (_process_publish_queue_db (H := failing_sdk) "/db" (Some Callable) world_json)
  = Raises (SystemExit "JSON is missing required field: kind")
  /\ publish_queue (dbs (snd (_process_publish_queue_db (H := failing_sdk) "/db"
                                (Some Callable) world_json)) "/db")
     = [row_json].
Proof. vm_compute. split; reflexivity. Qed.

Lemma dispatch_selects_oldest_due_witness :
  rowid_order (publish_queue (dbs world "/db"))
  /\ In row2 (publish_queue (dbs world "/db"))
  /\ q_next_attempt_at row2 <= clock world (ticks world)
  /\ Forall (fun r => q_next_attempt_at r <= clock world (ticks world) ->
                      q_next_attempt_at row2 <= q_next_attempt_at r
                      /\ (q_next_attempt_at r = q_next_attempt_at row2 ->
                          q_id row2 <= q_id r))
            (publish_queue (dbs world "/db"))
  /\ Forall (fun r => q_id r <> q_id row2 ->
                      In r (publish_queue
                              (dbs (snd (_process_publish_queue_db (H := failing_sdk)
                                           "/db" None world)) "/db")))
            (publish_queue (dbs world "/db")).
Proof.
  assert (Hsorted : rowid_order (publish_queue (dbs world "/db"))).
  { unfold rowid_order. simpl. repeat constructor. }
  split; [exact Hsorted|].
  exact (dispatch_selects_oldest_due (H := failing_sdk) "/db" None world Hsorted).
Defined.

Lemma update_draft_coalesce_witness :
  draft_by_id (dbs world "/db") 1 = Some draft1
  /\ exists r',
       draft_by_id (_db_update_draft (dbs world "/db") 1000 1 (Some "Bar") "new text"
                      [("t", "a")] None (Some 1000) None) 1
       = Some r'
       /\ dr_title r' = Some "Bar"
       /\ dr_content r' = "new text"
       /\ dr_updated_at r' = 1000
       /\ dr_status r' = "draft"
       /\ dr_published_at r' = Some 1000
       /\ dr_event_id r' = None
       /\ dr_id r' = 1
       /\ dr_kind r' = 30050
       /\ dr_d r' = "ncc-01"
       /\ dr_created_at r' = 10.
Proof.
  split; [reflexivity|].
  exact (update_draft_coalesce (dbs world "/db") 1000 1 (Some "Bar") "new text"
           [("t", "a")] None (Some 1000) None draft1 eq_refl).
Defined.

Lemma compute_retry_delay_bounds_witness :
  1 <= 3 /\ (- Backoff._QUEUE_JITTER <= 1 # 8)%Q /\ (1 # 8 <= Backoff._QUEUE_JITTER)%Q
  /\ Backoff._compute_retry_delay 3 (1 # 8)
     = Z.max 1 (Backoff.py_int
                  (Binary64.mul (Binary64.of_int (Z.min 3600 (30 * 2 ^ (3 - 1))))
                                (Binary64.add 1 (1 # 8))))
  /\ ((8 # 10) <= Binary64.add 1 (1 # 8))%Q /\ (Binary64.add 1 (1 # 8) <= (12 # 10))%Q
  /\ (inject_Z (Z.min (30 * 2 ^ (3 - 1)) 3600) * (8 # 10)
      <= inject_Z (Backoff._compute_retry_delay 3 (1 # 8)))%Q
  /\ (inject_Z (Backoff._compute_retry_delay 3 (1 # 8)) <= inject_Z 3600 * (12 # 10))%Q
  /\ (forall m, 3 <= m -> Backoff.base_delay 3 <= Backoff.base_delay m).
Proof.
  assert (H1 : 1 <= 3) by lia.
  assert (H2 : (- Backoff._QUEUE_JITTER <= 1 # 8)%Q) by (vm_compute; discriminate).
  assert (H3 : (1 # 8 <= Backoff._QUEUE_JITTER)%Q) by (vm_compute; discriminate).
  split; [exact H1|]. split; [exact H2|]. split; [exact H3|].
  exact (compute_retry_delay_bounds 3 (1 # 8) H1 H2 H3).
Defined.

(** Third attempt, jitter +0.125: 120 seconds become 135. *)
Example compute_retry_delay_third : Backoff._compute_retry_delay 3 (1 # 8) = 135.
Proof. vm_compute. reflexivity. Qed.

(** Where float and exact arithmetic part: with the double 0.025 the third
    delay is 122, not 123; with the double -0.1 the first is 27, not 26; and
    with the double -0.2, the least draw there is, the first is 24. *)
Example compute_retry_delay_rounds :
  Backoff._compute_retry_delay 3 (Binary64.round64 (25 # 1000)) = 122
  /\ Backoff._compute_retry_delay 1 (- Binary64.round64 (1 # 10)) = 27
  /\ Backoff._compute_retry_delay 1 (- Backoff._QUEUE_JITTER) = 24.
Proof. vm_compute. repeat split. Qed.

(** A secret key among the authors is refused and named. *)
Example validate_refuses_nsec :
  Validate._validate_author_keys (H := failing_sdk) (Some [" npub1x "; "nsec1abc"; ""])
  = inl ("Authors must be npub or hex public keys. Invalid entries: "
         +:+ "nsec1abc looks like a secret key (nsec)").
Proof. reflexivity. Qed.

Example validate_normalizes :
  Validate._validate_author_keys (H := failing_sdk) (Some [" npub1x "; "  "; "npub1y"])
  = inr ["npub1x"; "npub1y"].
Proof. reflexivity. Qed.

End Examples.

(** * Further properties *)

(** ** Text helpers *)

Section TextFacts.
Import Validate Text Spec.

Lemma lstrip_head s :
  lstrip s = "" \/ exists c t, lstrip s = String c t /\ py_isspace c = false.
Proof.
  induction s as [|c s IH]; [now left|]. cbn [lstrip].
  destruct (py_isspace c) eqn:Hc; [exact IH|]. right. eauto.
Qed.

Lemma rstrip_idem s : rstrip (rstrip s) = rstrip s.
Proof.
  induction s as [|c s IH]; [reflexivity|]. cbn [rstrip].
  destruct (rstrip s) as [|d r] eqn:Hr.
  - destruct (py_isspace c) eqn:Hc; [reflexivity|]. cbn [rstrip]. now rewrite Hc.
  - cbn [rstrip]. cbn [rstrip] in IH. rewrite IH. reflexivity.
Qed.

Lemma strip_idem s : strip (strip s) = strip s.
Proof.
  unfold strip at 2 3. destruct (lstrip_head s) as [->|(c & t & -> & Hc)];
    [reflexivity|].
  rewrite (rstrip_keeps c t Hc), (strip_nonspace c _ Hc). now rewrite rstrip_idem.
Qed.

Lemma rstrip_strip s : rstrip (strip s) = strip s.
Proof. unfold strip. apply rstrip_idem. Qed.

Lemma lower_app a b : lower (a +:+ b) = lower a +:+ lower b.
Proof.
  induction a as [|c a IH]; [reflexivity|].
  change (String (py_lower_char c) (lower (a +:+ b))
          = String (py_lower_char c) (lower a +:+ lower b)).
  now rewrite IH.
Qed.

Lemma prefix_app a b : String.prefix a (a +:+ b) = true.
Proof.
  induction a as [|c a IH]; [destruct b; reflexivity|].
  change (String.prefix (String c a) (String c (a +:+ b)) = true).
  cbn [String.prefix]. destruct (Ascii.ascii_dec c c); [exact IH|congruence].
Qed.

Lemma strip_ncc_prefix value :
  strip ("ncc-" +:+ value) = "ncc-" +:+ rstrip value.
Proof.
  change ("ncc-" +:+ value) with (String "n" (String "c" (String "c" (String "-" value)))).
  rewrite strip_nonspace, !rstrip_keeps by reflexivity. reflexivity.
Qed.

(** X: the identifier format is a normal form: formatting twice changes
    nothing, the result is empty exactly for blank input, and any other
    result starts with [ncc-] in some letter case. *)
Theorem format_ncc_identifier_normal_form :
  forall raw : string,
    _format_ncc_identifier (_format_ncc_identifier raw) = _format_ncc_identifier raw
    /\ (_format_ncc_identifier raw = "" <-> strip raw = "")
    /\ (_format_ncc_identifier raw = ""
        \/ String.prefix "ncc-" (lower (_format_ncc_identifier raw)) = true).
Proof.
  intros raw. unfold _format_ncc_identifier at 2 3 4 5 6.
  destruct (strip raw) as [|c v] eqn:Hv; cbn [str_truthy negb].
  { repeat split; auto. }
  destruct (String.prefix "ncc-" (lower (String c v))) eqn:Hp.
  - split; [|split; [split; discriminate|now right]].
    unfold _format_ncc_identifier. rewrite <- Hv, strip_idem, Hv.
    cbn [str_truthy negb]. now rewrite Hp.
  - split; [|split; [split; discriminate|right]].
    + unfold _format_ncc_identifier. rewrite strip_ncc_prefix.
      rewrite <- Hv, rstrip_strip, Hv.
      change (str_truthy ("ncc-" +:+ String c v)) with true. cbn [negb].
      now rewrite lower_app, prefix_app.
    + now rewrite lower_app, prefix_app.
Qed.

Lemma mentions_lstrip c s : mentions c (lstrip s) = true -> mentions c s = true.
Proof.
  induction s as [|x s IH]; [discriminate|]. cbn [lstrip].
  destruct (py_isspace x); [|auto]. intros Hm. cbn [mentions].
  rewrite (IH Hm). apply orb_true_r.
Qed.

Lemma mentions_rstrip c s : mentions c (rstrip s) = true -> mentions c s = true.
Proof.
  induction s as [|x s IH]; [discriminate|]. cbn [rstrip mentions].
  destruct (rstrip s) as [|d r].
  - destruct (py_isspace x); [discriminate|]. cbn [mentions].
    rewrite orb_false_r. intros ->. reflexivity.
  - cbn [mentions]. intros Hm. apply orb_true_iff in Hm as [->|Hm]; [reflexivity|].
    rewrite (IH Hm). apply orb_true_r.
Qed.

Lemma mentions_strip c s : mentions c s = false -> mentions c (strip s) = false.
Proof.
  intros Hs. destruct (mentions c (strip s)) eqn:Hm; [|reflexivity].
  apply mentions_rstrip, mentions_lstrip in Hm. congruence.
Qed.

Lemma split_comma_pieces raw :
  Forall (fun piece => mentions "," piece = false) (split_comma raw).
Proof.
  induction raw as [|c raw IH]; [repeat constructor|]. cbn [split_comma].
  destruct (Ascii.eqb c ",") eqn:Hc; [constructor; [reflexivity|exact IH]|].
  destruct (split_comma raw) as [|piece pieces]; [repeat constructor; cbn; now rewrite Hc|].
  apply Forall_cons in IH as [Hp Hps]. constructor; [|exact Hps].
  cbn [mentions]. now rewrite Hc, Hp.
Qed.

(** X: every entry that [_parse_list_value] returns is non-empty, carries no
    white space around it and no comma; an empty input gives no entry. *)
Theorem parse_list_value_items :
  forall raw : string,
    Forall list_item (_parse_list_value raw) /\ _parse_list_value "" = [].
Proof.
  intros raw. split; [|reflexivity]. unfold _parse_list_value.
  destruct (negb (str_truthy raw)); [constructor|].
  apply Forall_forall. intros item Hin.
  apply list_elem_of_In, List.in_map_iff in Hin as (piece & <- & Hin).
  apply List.filter_In in Hin as [Hin Htruthy].
  pose proof (split_comma_pieces raw) as Hpieces. rewrite Forall_forall in Hpieces.
  apply list_elem_of_In, Hpieces in Hin.
  repeat split.
  - intros Heq. now rewrite Heq in Htruthy.
  - apply strip_idem.
  - now apply mentions_strip.
Qed.

Lemma split_comma_single v : mentions "," v = false -> split_comma v = [v].
Proof.
  induction v as [|c v IH]; [reflexivity|]. cbn [mentions split_comma].
  intros Hm. apply orb_false_iff in Hm as [Hc Hv]. now rewrite Hc, (IH Hv).
Qed.

Lemma split_comma_app v rest :
  mentions "," v = false ->
  split_comma (v +:+ String "," rest) = v :: split_comma rest.
Proof.
  induction v as [|c v IH]; [reflexivity|]. cbn [mentions]. intros Hm.
  apply orb_false_iff in Hm as [Hc Hv].
  change (String c v +:+ String "," rest) with (String c (v +:+ String "," rest)).
  cbn [split_comma]. now rewrite Hc, (IH Hv).
Qed.

Lemma split_comma_join v values :
  mentions "," v = false ->
  Forall (fun w => mentions "," w = false) values ->
  split_comma (String.concat ", " (v :: values)) = v :: map (String " ") values.
Proof.
  revert v. induction values as [|w values IH]; intros v Hv Hvalues.
  - now apply split_comma_single.
  - apply Forall_cons in Hvalues as [Hw Hvalues].
    assert (Hjoin : String.concat ", " (v :: w :: values)
                    = v +:+ String "," (String.concat ", " (String " " w :: values)))
      by (destruct values; reflexivity).
    rewrite Hjoin, (split_comma_app _ _ Hv), IH; [reflexivity| |exact Hvalues].
    cbn [mentions]. now rewrite Hw.
Qed.

Lemma strip_leading_space w : strip (String " " w) = strip w.
Proof. reflexivity. Qed.

Lemma concat_truthy v values :
  v <> "" -> str_truthy (String.concat ", " (v :: values)) = true.
Proof.
  destruct v as [|c v]; [congruence|]. intros _.
  destruct values; reflexivity.
Qed.

(** X: the entries shown to the user as a default, joined with a comma and
    a space, parse back to the same entries. *)
Theorem parse_list_value_round_trip :
  forall (v : string) (values : list string),
    Forall list_item (v :: values) ->
    (exists text, _format_list_default (Some (v :: values)) = Some text
                  /\ _parse_list_value text = v :: values)
    /\ _format_list_default (Some []) = None
    /\ _format_list_default None = None.
Proof.
  intros v values Hitems. split; [|split; reflexivity].
  exists (String.concat ", " (v :: values)). split; [reflexivity|].
  apply Forall_cons in Hitems as [(Hv & Hsv & Hcv) Hitems].
  unfold _parse_list_value. rewrite (concat_truthy v values Hv). cbn [negb].
  rewrite split_comma_join; [|exact Hcv|]; cycle 1.
  { eapply Forall_impl; [exact Hitems|]. now intros w (_ & _ & Hw). }
  cbn [List.filter map]. rewrite Hsv.
  destruct (str_truthy v) eqn:Htv; [|destruct v; [congruence|discriminate]].
  cbn [map]. rewrite Hsv. f_equal.
  induction Hitems as [|w l (Hw & Hsw & Hcw) Hl IH]; [reflexivity|].
  cbn [map List.filter]. rewrite strip_leading_space, Hsw.
  destruct (str_truthy w) eqn:Htw; [|destruct w; [congruence|discriminate]].
  cbn [map]. now rewrite strip_leading_space, Hsw, IH.
Qed.

End TextFacts.

(** ** Payload builder, continued *)

(** Decide the comparisons of literal keys. *)
Ltac eval_eqb :=
  repeat match goal with
         | |- context [String.eqb ?a ?b] =>
             let r := eval vm_compute in (String.eqb a b) in
             change (String.eqb a b) with r
         end; cbv iota.

Section BuilderMoreFacts.
Import Builder Spec.

Lemma succession_tags_list kind d title tags :
  kind <> 30050 ->
  draft_tags_list kind d title tags = Some (canonical_succession_tags d tags).
Proof.
  intros Hkind. unfold draft_tags_list.
  apply Z.eqb_neq in Hkind. rewrite Hkind.
  rewrite !emit_first_spec. cbn [mbind option_bind].
  unfold canonical_succession_tags. now rewrite <- !app_assoc.
Qed.

(** X: for every kind but 30050 the builder emits [d], then the first stored
    value, if any, of authoritative, steward, previous, reason, effective_at
    and eventid, in that order; the title and every other stored key are
    left out. *)
Theorem payload_from_draft_succession_order :
  forall (kind : Z) (d : string) (title : option string) (content : string)
         (tags : list (string * string)) (created_at : Z),
    kind <> 30050 ->
    _payload_from_draft kind d title content tags created_at
    = Some (<["tags" := PList (canonical_succession_tags d tags)]>
            (<["kind" := PInt kind]>
             (<["created_at" := PInt created_at]>
              (<["content" := PStr content]> ∅)))).
Proof.
  intros kind d title content tags created_at Hkind.
  unfold _payload_from_draft. now rewrite succession_tags_list.
Qed.

(** X: the map of [_tags_to_map] holds under each stored key the values
    stored under it, in stored order; a key that is not stored has no entry
    and no key is mapped to an empty list. *)
Theorem tags_to_map_groups :
  forall (tags : list (string * string)) (key : string),
    _tags_to_map tags !! key
    = (match stored_values key tags with [] => None | vs => Some vs end)
    /\ _tags_to_map tags !! key <> Some [].
Proof.
  intros tags key. rewrite tags_to_map_lookup. split; [reflexivity|].
  destruct (stored_values key tags); discriminate.
Qed.

Lemma filter_has_key_keeps key key' tags :
  key' <> key ->
  List.filter (has_keyb key') (List.filter (keeps_tag key) tags)
  = List.filter (has_keyb key') tags.
Proof.
  intros Hne. induction tags as [|tag tags IH]; [reflexivity|].
  cbn [List.filter]. destruct (keeps_tag key tag) eqn:Hkeep.
  - cbn [List.filter]. now rewrite IH.
  - rewrite IH. destruct (has_keyb key' tag) eqn:Hhas; [|reflexivity].
    destruct tag as [ | | | |[|x l]| ]; try discriminate.
    cbn in Hkeep, Hhas. destruct x; try discriminate. cbn in Hkeep, Hhas.
    apply String.eqb_eq in Hhas as ->. apply negb_false_iff, String.eqb_eq in Hkeep.
    congruence.
Qed.

Lemma filter_has_key_kept key tags :
  List.filter (has_keyb key) (List.filter (keeps_tag key) tags) = [].
Proof.
  induction tags as [|tag tags IH]; [reflexivity|].
  cbn [List.filter]. destruct (keeps_tag key tag) eqn:Hkeep; [|exact IH].
  cbn [List.filter]. rewrite IH.
  destruct tag as [ | | | |[|x l]| ]; try discriminate. cbn in Hkeep |- *.
  apply negb_true_iff in Hkeep. now rewrite Hkeep.
Qed.

Lemma has_key_tag2 key key' value :
  has_keyb key' (tag2 key value) = String.eqb key key'.
Proof. reflexivity. Qed.

(** X: after [_upsert_single_tag] the list has exactly one entry under the
    key, the new one, and it is the last; the entries under every other key
    are the ones it had, in their order; what is not a non-empty list is
    gone; and a second upsert under the same key replaces the first. *)
Theorem upsert_single_tag_spec :
  forall (tags : list pyval) (key value value' key' : string),
    List.filter (has_keyb key') (_upsert_single_tag tags key value)
    = (if String.eqb key' key then [tag2 key value]
       else List.filter (has_keyb key') tags)
    /\ last (_upsert_single_tag tags key value) = Some (tag2 key value)
    /\ forallb is_entry (_upsert_single_tag tags key value) = true
    /\ _upsert_single_tag (_upsert_single_tag tags key value) key value'
       = _upsert_single_tag tags key value'.
Proof.
  intros tags key value value' key'. unfold _upsert_single_tag.
  assert (Hself : keeps_tag key (tag2 key value) = false).
  { cbn. now rewrite String.eqb_refl. }
  assert (Hidem : List.filter (keeps_tag key) (List.filter (keeps_tag key) tags)
                  = List.filter (keeps_tag key) tags).
  { apply List.forallb_filter_id, List.forallb_filter. }
  repeat split.
  - rewrite List.filter_app. cbn [List.filter]. rewrite has_key_tag2.
    destruct (String.eqb_spec key' key) as [->|Hne].
    + now rewrite filter_has_key_kept, String.eqb_refl.
    + rewrite (filter_has_key_keeps key key' tags Hne).
      destruct (String.eqb_spec key key'); [congruence|apply app_nil_r].
  - apply last_snoc.
  - rewrite List.forallb_app. apply andb_true_iff. split; [|reflexivity].
    apply List.forallb_forall. intros tag Hin.
    apply List.filter_In in Hin as [_ Hkeep].
    destruct tag as [ | | | |[|x l]| ]; try discriminate. reflexivity.
  - rewrite List.filter_app, Hidem. cbn [List.filter]. rewrite Hself.
    now rewrite app_nil_r.
Qed.

Lemma stored_values_app key a b :
  stored_values key (a ++ b) = stored_values key a ++ stored_values key b.
Proof. unfold stored_values. now rewrite List.filter_app, List.map_app. Qed.

Lemma stored_values_replaced key tags :
  stored_values key (List.filter (fun kv => negb (String.eqb kv.1 key)) tags) = [].
Proof.
  unfold stored_values. induction tags as [|[k v] tags IH]; [reflexivity|].
  cbn [List.filter fst]. destruct (String.eqb k key) eqn:Hk; cbn [negb]; [exact IH|].
  cbn [List.filter fst]. now rewrite Hk.
Qed.

Lemma stored_values_kept key key' tags :
  key' <> key ->
  stored_values key' (List.filter (fun kv => negb (String.eqb kv.1 key)) tags)
  = stored_values key' tags.
Proof.
  intros Hne. unfold stored_values. induction tags as [|[k v] tags IH]; [reflexivity|].
  cbn [List.filter fst]. destruct (String.eqb_spec k key) as [->|Hk]; cbn [negb].
  - rewrite IH. destruct (String.eqb_spec key key'); [congruence|reflexivity].
  - cbn [List.filter fst]. destruct (String.eqb k key'); cbn [map]; now rewrite IH.
Qed.

Lemma add_or_replace_tag_spec' tags key value key' :
  stored_values key' (Builder._add_or_replace_tag tags key value)
  = if String.eqb key' key then [value] else stored_values key' tags.
Proof.
  unfold Builder._add_or_replace_tag.
  rewrite stored_values_app. unfold stored_values at 2. cbn [List.filter fst map].
  destruct (String.eqb_spec key' key) as [->|Hne].
  - now rewrite stored_values_replaced, String.eqb_refl.
  - rewrite (stored_values_kept key key' tags Hne).
    destruct (String.eqb_spec key key'); [congruence|apply app_nil_r].
Qed.

(** X: after [_add_or_replace_tag] the key holds the new value alone, as the
    last pair of the list, and every other key holds what it held. *)
Theorem add_or_replace_tag_spec :
  forall (tags : list (string * string)) (key value key' : string),
    stored_values key' (_add_or_replace_tag tags key value)
    = (if String.eqb key' key then [value] else stored_values key' tags)
    /\ last (_add_or_replace_tag tags key value) = Some (key, value).
Proof.
  intros tags key value key'. unfold _add_or_replace_tag. split; [|apply last_snoc].
  rewrite stored_values_app. unfold stored_values at 2. cbn [List.filter fst map].
  destruct (String.eqb_spec key' key) as [->|Hne].
  - now rewrite stored_values_replaced, String.eqb_refl.
  - rewrite (stored_values_kept key key' tags Hne).
    destruct (String.eqb_spec key key'); [congruence|apply app_nil_r].
Qed.

Lemma pretty_N_go_nonempty (x : N) (acc : string) :
  acc <> "" -> pretty_N_go x acc <> "".
Proof.
  revert acc. induction (N.lt_wf_0 x) as [x _ IH]. intros acc Hacc.
  destruct (N.eq_dec x 0%N) as [->|Hx]; [now rewrite pretty_N_go_0|].
  rewrite pretty_N_go_step by lia. apply IH; [apply N.div_lt; lia|discriminate].
Qed.

Lemma py_str_of_int_truthy n : str_truthy (py_str_of_int n) = true.
Proof.
  assert (Hne : py_str_of_int n <> "").
  { unfold py_str_of_int, pretty, pretty_Z. destruct n as [|x|x]; [discriminate| |discriminate].
    unfold pretty, pretty_positive, pretty, pretty_N.
    destruct (decide (N.pos x = 0%N)); [discriminate|].
    rewrite pretty_N_go_step by lia. apply pretty_N_go_nonempty. discriminate. }
  destruct (py_str_of_int n); [congruence|reflexivity].
Qed.

Lemma stored_values_map_pair key key' (values : list string) :
  stored_values key (map (pair key') values)
  = if String.eqb key' key then values else [].
Proof.
  unfold stored_values. induction values as [|v l IH]; cbn [map List.filter fst].
  - now destruct (String.eqb key' key).
  - destruct (String.eqb key' key); cbn [map snd]; [now rewrite IH|exact IH].
Qed.

Lemma stored_values_first_pair key key' tags :
  stored_values key (first_pair key' tags)
  = if String.eqb key' key
    then match stored_values key' tags with v :: _ => [v] | [] => [] end
    else [].
Proof.
  unfold first_pair. destruct (stored_values key' tags) as [|v l].
  - now destruct (String.eqb key' key).
  - unfold stored_values. cbn [List.filter fst map]. now destruct (String.eqb key' key).
Qed.

Lemma stored_values_every_pair key key' tags :
  stored_values key (every_pair key' tags)
  = if String.eqb key' key then stored_values key' tags else [].
Proof. apply stored_values_map_pair. Qed.

Lemma stored_values_published_at_pair key tags :
  stored_values key (published_at_pair tags)
  = if String.eqb "published_at" key
    then match stored_values "published_at" tags with
         | String c v :: _ => [String c v]
         | _ => []
         end
    else [].
Proof.
  unfold published_at_pair.
  destruct (stored_values "published_at" tags) as [|[|c v] l];
    try (now destruct (String.eqb "published_at" key)).
  unfold stored_values. cbn [List.filter fst map].
  now destruct (String.eqb "published_at" key).
Qed.

Ltac stored_values_of_pairs :=
  unfold canonical_document_pairs;
  rewrite ?stored_values_app, ?stored_values_first_pair, ?stored_values_every_pair,
    ?stored_values_published_at_pair;
  eval_eqb; rewrite ?app_nil_r; cbn [app].

Lemma canonical_pairs_values tags :
  stored_values "published_at" (canonical_document_pairs tags)
  = match stored_values "published_at" tags with
    | String c v :: _ => [String c v]
    | _ => []
    end
  /\ (forall key, In key ["summary"; "lang"; "version"; "license"; "eventid"] ->
                  stored_values key (canonical_document_pairs tags)
                  = match stored_values key tags with v :: _ => [v] | [] => [] end)
  /\ (forall key, In key ["t"; "supersedes"; "authors"] ->
                  stored_values key (canonical_document_pairs tags)
                  = stored_values key tags).
Proof.
  split; [now stored_values_of_pairs|]. split.
  - intros key Hkey. cbn [In] in Hkey.
    repeat (destruct Hkey as [<-|Hkey]; [now stored_values_of_pairs|]). destruct Hkey.
  - intros key Hkey. cbn [In] in Hkey.
    repeat (destruct Hkey as [<-|Hkey]; [now stored_values_of_pairs|]). destruct Hkey.
Qed.

Lemma pair_tag_first key tags :
  map pair_tag (first_pair key tags) = first_entry key tags.
Proof. unfold first_pair, first_entry. now destruct (stored_values key tags). Qed.

Lemma pair_tag_every key tags :
  map pair_tag (every_pair key tags) = every_entry key tags.
Proof. unfold every_pair, every_entry. now rewrite List.map_map. Qed.

Lemma pair_tag_published_at tags :
  map pair_tag (published_at_pair tags) = published_at_entry tags.
Proof.
  unfold published_at_pair, published_at_entry.
  now destruct (stored_values "published_at" tags) as [|[|c v] l].
Qed.

Lemma canonical_tags_of_pairs d title tags :
  canonical_document_tags d title tags
  = [tag2 "d" d] ++ title_entry title ++ map pair_tag (canonical_document_pairs tags).
Proof.
  unfold canonical_document_tags, canonical_document_pairs.
  now rewrite !List.map_app, !pair_tag_first, !pair_tag_every, pair_tag_published_at.
Qed.

Lemma canonical_tags_idem d title tags :
  canonical_document_tags d title (canonical_document_pairs tags)
  = canonical_document_tags d title tags.
Proof.
  destruct (canonical_pairs_values tags) as (Hpub & Hfirst & Hevery).
  unfold canonical_document_tags, published_at_entry, first_entry, every_entry.
  rewrite Hpub, (Hfirst "summary"), (Hfirst "lang"), (Hfirst "version"),
    (Hfirst "license"), (Hfirst "eventid"), (Hevery "t"), (Hevery "supersedes"),
    (Hevery "authors") by (cbn; tauto).
  assert (Hone : forall (key : string) (l : list string),
             match match l with v :: _ => [v] | [] => [] end with
             | v :: _ => [tag2 key v]
             | [] => []
             end
             = match l with v :: _ => [tag2 key v] | [] => [] end)
    by (intros key [|v l]; reflexivity).
  rewrite !Hone.
  now destruct (stored_values "published_at" tags) as [|[|c v] l].
Qed.

Lemma first_pair_keys key tags (P : string * string -> Prop) :
  (forall v, P (key, v)) -> Forall P (first_pair key tags).
Proof.
  intros HP. unfold first_pair. destruct (stored_values key tags); repeat constructor.
  apply HP.
Qed.

Lemma every_pair_keys key tags (P : string * string -> Prop) :
  (forall v, P (key, v)) -> Forall P (every_pair key tags).
Proof.
  intros HP. unfold every_pair. apply Forall_forall. intros kv Hin.
  apply list_elem_of_In, List.in_map_iff in Hin as (v & <- & _). apply HP.
Qed.

Lemma canonical_pairs_plain tags : Forall plain_key (canonical_document_pairs tags).
Proof.
  unfold canonical_document_pairs.
  repeat (apply Forall_app; split);
    try (apply first_pair_keys; intros v; split; reflexivity);
    try (apply every_pair_keys; intros v; split; reflexivity).
  unfold published_at_pair.
  destruct (stored_values "published_at" tags) as [|[|c v] l]; repeat constructor.
Qed.

Lemma import_plain_pairs container_str pairs :
  Forall plain_key pairs ->
  concat (map (Json.imported_pair container_str) (map pair_tag pairs))
  = map imported pairs.
Proof.
  induction 1 as [|[k v] pairs [Hd Ht] _ IH]; [reflexivity|].
  cbn [map concat]. rewrite IH. unfold Json.imported_pair, pair_tag, tag2; cbn [fst snd].
  cbn [py_eq_str]. cbn [fst] in Hd, Ht. now rewrite Hd, Ht.
Qed.

Lemma extract_absent_key key pairs :
  Forall (fun kv => String.eqb kv.1 key = false) pairs ->
  Json._extract_tag_value (map pair_tag pairs) key = inr None.
Proof.
  induction 1 as [|[k v] pairs Hk _ IH]; [reflexivity|].
  cbn [map Json._extract_tag_value]. unfold pair_tag, tag2; cbn [fst snd Json.tag_value_if].
  cbn [py_eq_str]. cbn [fst] in Hk. now rewrite Hk.
Qed.

(** X: a document payload that the builder exported imports back as the
    pairs of its canonical order, with [d] and the title found by
    [_extract_tag_value]; building from the imported pairs gives the same
    payload again. *)
Theorem export_import_round_trip :
  forall (container_str : pyval -> string) (d : string) (title : option string)
         (content : string) (tags : list (string * string)) (created_at : Z),
    exists p : payload,
      _payload_from_draft 30050 d title content tags created_at = Some p
      /\ Json._tags_from_payload container_str p
         = inr (map imported (canonical_document_pairs tags))
      /\ Json._extract_tag_value (_ensure_tags p) "d" = inr (Some (PStr d))
      /\ Json._extract_tag_value (_ensure_tags p) "title"
         = inr (match title with
                | Some (String c t) => Some (PStr (String c t))
                | _ => None
                end)
      /\ _payload_from_draft 30050 d title content (canonical_document_pairs tags)
                             created_at
         = Some p.
Proof.
  intros container_str d title content tags created_at.
  eexists. split.
  { unfold _payload_from_draft. rewrite document_tags_list. reflexivity. }
  pose proof (canonical_pairs_plain tags) as Hplain.
  split; [|split; [|split]].
  - unfold Json._tags_from_payload. rewrite lookup_insert_eq. cbn [default].
    rewrite canonical_tags_of_pairs. f_equal.
    rewrite !List.map_app, !concat_app.
    rewrite (import_plain_pairs _ _ Hplain).
    destruct title as [[|c t]|]; reflexivity.
  - rewrite ensure_tags_insert_tags. reflexivity.
  - rewrite ensure_tags_insert_tags, canonical_tags_of_pairs.
    assert (Hrest : Json._extract_tag_value
                      (map pair_tag (canonical_document_pairs tags)) "title"
                    = inr None).
    { apply extract_absent_key. eapply Forall_impl; [exact Hplain|].
      now intros kv [_ Ht]. }
    destruct title as [[|c t]|]; cbn; try exact Hrest. reflexivity.
  - unfold _payload_from_draft. rewrite document_tags_list.
    now rewrite canonical_tags_idem.
Qed.

Lemma payload_fields_eq (kind created_at : Z) (tags : list pyval) (content : string) :
  <["content" := PStr content]>
    (<["tags" := PList tags]>
      (<["created_at" := PInt created_at]> (<["kind" := PInt kind]> ∅)))
  = (<["tags" := PList tags]>
      (<["kind" := PInt kind]>
        (<["created_at" := PInt created_at]>
          (<["content" := PStr content]> (∅ : payload))))).
Proof.
  apply map_eq. intros key. rewrite !lookup_insert.
  repeat case_decide; try reflexivity; congruence.
Qed.

Lemma add_json_tag_app tags key value :
  Json._add_json_tag tags key value
  = tags ++ map pair_tag (Json.pair_if_truthy key value).
Proof.
  unfold Json._add_json_tag, Json.pair_if_truthy.
  destruct value as [[|c v]|]; cbn; now rewrite ?app_nil_r.
Qed.

Lemma add_json_tag_many_app tags key values :
  Json._add_json_tag_many tags key values
  = tags ++ map (tag2 key) (default [] values).
Proof. destruct values as [[|v l]|]; cbn [Json._add_json_tag_many default map]; now rewrite ?app_nil_r. Qed.

Lemma stored_values_pair_if_truthy key key' value :
  stored_values key (Json.pair_if_truthy key' value)
  = if String.eqb key' key
    then match value with Some (String c v) => [String c v] | _ => [] end
    else [].
Proof.
  unfold Json.pair_if_truthy, stored_values.
  destruct value as [[|c v]|]; cbn [str_truthy List.filter fst map snd];
    now destruct (String.eqb key' key).
Qed.

Lemma stored_values_one key key' value :
  stored_values key [(key', value)] = if String.eqb key' key then [value] else [].
Proof. unfold stored_values. cbn. now destruct (String.eqb key' key). Qed.

Lemma first_entry_pair_if_truthy key value :
  match match value with Some (String c v) => [String c v] | _ => [] end with
  | v :: _ => [tag2 key v]
  | [] => []
  end
  = map pair_tag (Json.pair_if_truthy key value).
Proof. destruct value as [[|c v]|]; reflexivity. Qed.

Ltac stored_values_of_inputs :=
  rewrite ?stored_values_app, ?stored_values_pair_if_truthy, ?stored_values_map_pair,
    ?stored_values_one;
  eval_eqb; rewrite ?app_nil_r; cbn [app].

(** X: the one-shot document builder and the draft builder agree: for a
    non-empty title, [build_document_json] returns the payload that
    [_payload_from_draft] builds from the tags [_ncc_tags_from_inputs] makes
    of the same inputs. *)
Theorem build_document_json_agrees :
  forall (d title content : string) (published_at : Z) (summary : option string)
         (topics : option (list string)) (lang version : option string)
         (supersedes : option (list string)) (license_id : option string)
         (authors : option (list string)),
    title <> "" ->
    _payload_from_draft 30050 d (Some title) content
      (Json._ncc_tags_from_inputs summary (default [] topics) lang version
         (default [] supersedes) license_id (default [] authors) (Some published_at))
      published_at
    = Some (Json.build_document_json d title content published_at summary topics
              lang version supersedes license_id authors).
Proof.
  intros d title content published_at summary topics lang version supersedes
    license_id authors Htitle.
  unfold _payload_from_draft. rewrite document_tags_list. cbn [mbind option_bind].
  unfold Json.build_document_json. rewrite payload_fields_eq. do 3 f_equal.
  rewrite !add_json_tag_app, !add_json_tag_many_app.
  unfold canonical_document_tags, published_at_entry, first_entry, every_entry,
    Json._ncc_tags_from_inputs.
  stored_values_of_inputs.
  rewrite !first_entry_pair_if_truthy.
  pose proof (py_str_of_int_truthy published_at) as Hstr.
  destruct (py_str_of_int published_at) as [|c v] eqn:Hp; [discriminate|].
  destruct title as [|a t]; [congruence|]. cbn [title_entry].
  rewrite <- !app_assoc. cbn [app]. reflexivity.
Qed.

(** X: the one-shot succession builder and the draft builder agree as well,
    an [effective_at] of 0 counting as none. *)
Theorem build_succession_json_agrees :
  forall (d authoritative_event content : string) (created_at : Z)
         (title steward previous reason : option string) (effective_at : option Z),
    _payload_from_draft 30051 d title content
      (Json._nsr_tags_from_inputs authoritative_event steward previous reason
         (match effective_at with
          | Some t => if Z.eqb t 0 then None else Some (py_str_of_int t)
          | None => None
          end))
      created_at
    = Some (Json.build_succession_json d authoritative_event content created_at
              steward previous reason effective_at).
Proof.
  intros d authoritative_event content created_at title steward previous reason
    effective_at.
  unfold _payload_from_draft. rewrite succession_tags_list by discriminate.
  cbn [mbind option_bind].
  unfold Json.build_succession_json. rewrite payload_fields_eq. do 3 f_equal.
  rewrite !add_json_tag_app.
  unfold canonical_succession_tags, first_entry, Json._nsr_tags_from_inputs.
  assert (Hprev : (if opt_str_truthy previous
                   then match previous with
                        | Some p => [("previous", "event:" +:+ p)]
                        | None => []
                        end
                   else [])
                  = Json.pair_if_truthy "previous"
                      (if opt_str_truthy previous
                       then option_map (fun p => "event:" +:+ p) previous
                       else None)).
  { destruct previous as [[|c p]|]; reflexivity. }
  rewrite Hprev.
  stored_values_of_inputs.
  rewrite !first_entry_pair_if_truthy.
  rewrite <- ?app_assoc. cbn [app]. rewrite ?app_nil_r. reflexivity.
Qed.

End BuilderMoreFacts.

(** ** Author validation and the commands that store authors *)

Section NormalFacts.
Import Validate Spec.

Lemma py_isspace_white c : py_isspace c = true <-> white_space c.
Proof.
  unfold py_isspace, white_space. cbv zeta. generalize (Ascii.N_of_ascii c). intros n.
  rewrite !orb_true_iff, !andb_true_iff, !N.leb_le, !N.eqb_eq. cbn [In]. lia.
Qed.

Lemma py_isspace_not_white c : py_isspace c = false -> ~ white_space c.
Proof. intros Hc Hw. apply py_isspace_white in Hw. congruence. Qed.

Lemma blank_app l r : blank l -> blank r -> blank (l +:+ r).
Proof.
  induction l as [|c l IH]; [intros _ Hr; exact Hr|].
  intros [Hc Hl] Hr. change (blank (String c (l +:+ r))). split; auto.
Qed.

(** [lstrip] takes a blank front away and stops at the first other character. *)
Lemma lstrip_spec s :
  exists l, s = l +:+ lstrip s /\ blank l
            /\ match lstrip s with
               | String c _ => py_isspace c = false
               | EmptyString => True
               end.
Proof.
  induction s as [|c s (l & Hs & Hl & Hhead)]; [exists ""; repeat split|].
  cbn [lstrip]. destruct (py_isspace c) eqn:Hc.
  - exists (String c l). split; [|split; [|exact Hhead]].
    + change (String c s = String c (l +:+ lstrip s)). now f_equal.
    + split; [now apply py_isspace_white|exact Hl].
  - exists "". repeat split. exact Hc.
Qed.

(** [rstrip] takes a blank end away and stops at the last other character. *)
Lemma rstrip_spec s :
  exists r, s = rstrip s +:+ r /\ blank r
            /\ forall front c, rstrip s = front +:+ String c "" -> py_isspace c = false.
Proof.
  induction s as [|c s (r & Hs & Hr & Hlast)].
  { exists "". repeat split. intros [|x front] c Heq; discriminate. }
  cbn [rstrip]. destruct (rstrip s) as [|d t] eqn:Ht.
  - destruct (py_isspace c) eqn:Hc.
    + exists (String c r). split; [|split].
      * change (String c s = String c r). f_equal. exact Hs.
      * split; [now apply py_isspace_white|exact Hr].
      * intros [|x front] c' Heq; discriminate.
    + exists r. split; [|split; [exact Hr|]].
      * change (String c s = String c ("" +:+ r)). f_equal. exact Hs.
      * intros [|x front] c' Heq.
        -- injection Heq as <-. exact Hc.
        -- injection Heq as _ Heq. destruct front; discriminate.
  - exists r. split; [|split; [exact Hr|]].
    + change (String c s = String c (String d t +:+ r)). f_equal. exact Hs.
    + intros [|x front] c' Heq.
      * discriminate.
      * injection Heq as _ Heq. now apply (Hlast front).
Qed.

Lemma strip_spec item : stripped_of item (strip item).
Proof.
  destruct (lstrip_spec item) as (l & Hl & Hbl & Hhead).
  destruct (rstrip_spec (lstrip item)) as (r & Hr & Hbr & Hlast).
  split.
  - exists l, r. repeat split; try assumption.
    unfold strip. rewrite <- Hr. exact Hl.
  - intros c [[rest Hv]|[front Hv]].
    + unfold strip in Hv. destruct (lstrip item) as [|x t]; [discriminate|].
      rewrite (rstrip_keeps x t Hhead) in Hv. injection Hv as -> _.
      now apply py_isspace_not_white.
    + apply py_isspace_not_white. now apply (Hlast front).
Qed.

Lemma lstrip_blank s : lstrip s = "" -> blank s.
Proof.
  induction s as [|c s IH]; [intros _; exact I|]. cbn [lstrip].
  destruct (py_isspace c) eqn:Hc; [|discriminate].
  intros Hs. split; [now apply py_isspace_white|auto].
Qed.

Lemma rstrip_empty s : rstrip s = "" -> blank s.
Proof.
  induction s as [|c s IH]; [intros _; exact I|]. cbn [rstrip].
  destruct (rstrip s) as [|d t]; [|discriminate].
  destruct (py_isspace c) eqn:Hc; [|discriminate].
  intros _. split; [now apply py_isspace_white|auto].
Qed.

Lemma strip_blank item : strip item = "" -> blank item.
Proof.
  intros Hs. destruct (lstrip_spec item) as (l & Hl & Hbl & _).
  rewrite Hl. apply blank_app; [exact Hbl|]. now apply rstrip_empty.
Qed.

Lemma normalize_kept authors : kept_stripped authors (normalize authors).
Proof.
  unfold normalize. induction authors as [|item authors IH]; [constructor|].
  cbn [List.filter]. destruct (str_truthy item && str_truthy (strip item)) eqn:Hkeep.
  - cbn [map]. apply andb_true_iff in Hkeep as [_ Hs].
    apply kept_entry; [|apply strip_spec|exact IH].
    intros Heq. now rewrite Heq in Hs.
  - apply kept_blank; [|exact IH].
    apply andb_false_iff in Hkeep as [Hi|Hs].
    + destruct item; [exact I|discriminate].
    + apply strip_blank. destruct (strip item); [reflexivity|discriminate].
Qed.

End NormalFacts.

Section ReviseFacts.
Import Store Validate Spec Revise.
Context `{Externals}.

Lemma typed_tags_imported pairs tags :
  typed_tags pairs = Some tags -> pairs = map imported tags.
Proof.
  revert tags. induction pairs as [|[key value] pairs IH]; intros tags.
  { intros [= <-]. reflexivity. }
  cbn [typed_tags]. destruct key; try discriminate.
  destruct (typed_tags pairs) as [rest|]; [|discriminate].
  intros [= <-]. cbn [map]. now rewrite (IH rest eq_refl).
Qed.

Lemma stored_authors_of_inputs summary topics lang version supersedes license_id
    authors :
  stored_values "authors"
    (Json._ncc_tags_from_inputs summary topics lang version supersedes license_id
                                authors None)
  = authors.
Proof.
  unfold Json._ncc_tags_from_inputs.
  rewrite !stored_values_app, !stored_values_pair_if_truthy, !stored_values_map_pair.
  eval_eqb. now rewrite app_nil_r.
Qed.

(** The end of the command, whatever the draft and its tags. *)
Lemma revise_finish_cases db now draft_id tags a :
  match revise_finish db now draft_id tags a with
  | (Rejected text, db') =>
      db' = db
      /\ exists typed, _validate_author_keys (Some (Text._parse_list_value typed))
                       = inl text
  | (Updated id, db') =>
      id = draft_id
      /\ Forall (fun v => offending v = false)
                (stored_values "authors" (_db_get_tags db' draft_id))
  | _ => False
  end.
Proof.
  unfold revise_finish.
  set (authors := Text._prompt_value (typed_authors a) _).
  pose proof (validate_author_keys_cases (Some (Text._parse_list_value authors))) as Hcases.
  cbv zeta in Hcases.
  destruct (_validate_author_keys (Some (Text._parse_list_value authors)))
    as [text|authors_list] eqn:Hval.
  - split; [reflexivity|]. now exists authors.
  - split; [reflexivity|]. destruct Hcases as [Hall ->].
    unfold _db_update_draft. rewrite get_tags_set_tags, stored_authors_of_inputs.
    exact Hall.
Qed.

Lemma revise_ncc_cases container_str db now_insert now_update import a :
  let d_value := Text._format_ncc_identifier (d_answer a) in
  match revise_ncc container_str db now_insert now_update import a with
  | Some (Rejected text, db') =>
      (exists typed, _validate_author_keys (Some (Text._parse_list_value typed))
                     = inl text)
      /\ match _db_get_latest_draft db 30050 d_value with
         | Some _ => db' = db
         | None =>
             exists p tags title content,
               import = Some p
               /\ Json._tags_from_payload container_str p = inr (map imported tags)
               /\ db' = snd (_db_insert_draft db now_insert 30050 d_value title content
                                              tags "draft" None)
               /\ _db_get_tags db' (fst (_db_insert_draft db now_insert 30050 d_value
                                            title content tags "draft" None))
                  = tags
         end
  | Some (Updated draft_id, db') =>
      Forall (fun v => offending v = false)
             (stored_values "authors" (_db_get_tags db' draft_id))
  | _ => True
  end.
Proof.
  intros d_value. unfold revise_ncc. fold d_value.
  destruct (negb (str_truthy d_value)); [exact I|].
  destruct (_db_get_latest_draft db 30050 d_value) as [draft|].
  { pose proof (revise_finish_cases db now_update (dr_id draft)
                  (_db_get_tags db (dr_id draft)) a) as Hfin.
    destruct (revise_finish _ _ _ _ _) as [[ | | text|id] db'];
      try exact I; try tauto.
    destruct Hfin as [-> Hall]. exact Hall. }
  destruct import as [p|]; [|exact I].
  destruct (Json._tags_from_payload container_str p) as [text|pairs] eqn:Hpairs;
    [exact I|].
  destruct (imported_title p) as [text|title]; [exact I|].
  destruct (typed_tags pairs) as [tags|] eqn:Htags; [|exact I].
  destruct (typed_title title) as [title'|]; [|exact I].
  destruct (typed_content p) as [content|]; [|exact I].
  apply typed_tags_imported in Htags. subst pairs.
  destruct (_db_insert_draft db now_insert 30050 d_value title' content tags "draft" None)
    as [draft_id db1] eqn:Hins.
  pose proof (revise_finish_cases db1 now_update draft_id tags a) as Hfin.
  destruct (revise_finish _ _ _ _ _) as [[ | | text|id] db'];
    try exact I; try tauto.
  - destruct Hfin as [-> Hval]. split; [exact Hval|].
    exists p, tags, title', content. rewrite Hins. cbn [fst snd].
    split; [reflexivity|]. split; [exact Hpairs|]. split; [reflexivity|].
    unfold _db_insert_draft in Hins. injection Hins as <- <-.
    apply get_tags_set_tags.
  - destruct Hfin as [-> Hall]. exact Hall.
Qed.

(** C9, amended. Validation raises, with Python's [ValueError], exactly when
    some entry that is not blank, taken without the white space around it,
    starts with [nsec] or does not parse as a public key, so in particular
    whenever an entry as given starts with [nsec]; the text of the error
    names every such entry; when none is objected to, validation returns the
    entries that are not blank, each without the white space around it, in
    their order.  When validation fails the command writes nothing more:
    [create-ncc] leaves the database as it was, and [/revise-ncc] leaves it
    as it was when the authors were asked for, which after an import is the
    database with the imported draft and all its tags stored, authors
    included.  When [/revise-ncc] ends in the update, the authors stored for
    the draft have all passed the validation. *)
Theorem validate_author_keys_spec :
  forall (authors : option (list string)),
    (exists kept : list string,
       kept_stripped (default [] authors) kept
       /\ match _validate_author_keys authors with
          | inl text =>
              (exists v, In v kept /\ offending v = true)
              /\ Forall (fun v => offending v = true -> names text v) kept
          | inr result =>
              Forall (fun v => offending v = false) kept /\ result = kept
          end)
    /\ Forall (fun item => String.prefix "nsec" item = true ->
                           exists text, _validate_author_keys authors = inl text)
              (default [] authors)
    /\ (forall db now d title content summary topics lang version supersedes
               license_id,
          match _validate_author_keys authors with
          | inl text =>
              create_ncc_store db now d title content summary topics lang version
                               supersedes license_id authors
              = (inl text, db)
          | inr _ => True
          end)
    /\ (forall container_str db now_insert now_update import a,
          let d_value := Text._format_ncc_identifier (d_answer a) in
          match revise_ncc container_str db now_insert now_update import a with
          | Some (Rejected text, db') =>
              (exists typed,
                 _validate_author_keys (Some (Text._parse_list_value typed)) = inl text)
              /\ match _db_get_latest_draft db 30050 d_value with
                 | Some _ => db' = db
                 | None =>
                     exists p tags title content,
                       import = Some p
                       /\ Json._tags_from_payload container_str p
                          = inr (map imported tags)
                       /\ db' = snd (_db_insert_draft db now_insert 30050 d_value title
                                                      content tags "draft" None)
                       /\ _db_get_tags db' (fst (_db_insert_draft db now_insert 30050
                                                    d_value title content tags "draft"
                                                    None))
                          = tags
                 end
          | Some (Updated draft_id, db') =>
              Forall (fun v => offending v = false)
                     (stored_values "authors" (_db_get_tags db' draft_id))
          | _ => True
          end).
Proof.
  intros authors.
  pose proof (validate_author_keys_cases authors) as Hcases. cbv zeta in Hcases.
  split; [|split; [|split]].
  - exists (normalize (default [] authors)). split; [apply normalize_kept|].
    destruct (_validate_author_keys authors) as [text|result]; tauto.
  - apply Forall_forall. intros item Hin Hpre.
    apply list_elem_of_In in Hin.
    destruct (nsec_prefix_normalized item _ Hin Hpre) as [Hn Hoff].
    destruct (_validate_author_keys authors) as [text|result]; [eauto|].
    destruct Hcases as [Hall _]. rewrite Forall_forall in Hall.
    apply list_elem_of_In, Hall in Hn. congruence.
  - intros. destruct (_validate_author_keys authors) as [text|result]; [|exact I].
    apply Hcases.
  - intros. apply revise_ncc_cases.
Qed.

End ReviseFacts.

(** ** Text helpers, continued *)

Section TextMoreFacts.
Import Validate Text Spec.

Lemma string_length_app a b :
  String.length (a +:+ b) = (String.length a + String.length b)%nat.
Proof.
  induction a as [|c a IH]; [reflexivity|].
  change (S (String.length (a +:+ b)) = S (String.length a + String.length b)).
  now rewrite IH.
Qed.

Lemma spaces_length n : String.length (spaces n) = n.
Proof. induction n as [|n IH]; [reflexivity|]. cbn. now rewrite IH. Qed.

(** X: padding never shortens or changes the text: the result is the text
    followed by spaces only, and its length is the larger of the length of
    the text and the width. *)
Theorem pad_to_width_length :
  forall (text : string) (width : Z),
    Z.of_nat (String.length (_pad_to_width text width))
    = Z.max (Z.of_nat (String.length text)) width
    /\ exists n, _pad_to_width text width = text +:+ spaces n.
Proof.
  intros text width. unfold _pad_to_width.
  destruct (Z.leb_spec width 0) as [Hw|Hw].
  { split; [lia|]. exists O. now rewrite string_app_nil_r. }
  destruct (Z.leb_spec width (Z.of_nat (String.length text))) as [Hl|Hl].
  { split; [lia|]. exists O. now rewrite string_app_nil_r. }
  split; [|eauto]. rewrite string_length_app, spaces_length. lia.
Qed.

(** X: [_normalize_optional_str] returns either nothing or a non-empty
    string without white space around it, and normalizing its result
    changes nothing. *)
Theorem normalize_optional_str_normal_form :
  forall value : option string,
    match _normalize_optional_str value with
    | Some s => s <> "" /\ strip s = s
    | None => True
    end
    /\ _normalize_optional_str (_normalize_optional_str value)
       = _normalize_optional_str value.
Proof.
  intros [value|]; [|split; [exact I|reflexivity]].
  unfold _normalize_optional_str at 1 3 4.
  destruct (strip value) as [|c s] eqn:Hs; cbn [str_truthy].
  { split; [exact I|reflexivity]. }
  assert (Hidem : strip (String c s) = String c s) by (rewrite <- Hs; apply strip_idem).
  split; [split; [discriminate|exact Hidem]|].
  unfold _normalize_optional_str. now rewrite Hidem.
Qed.

Lemma replace_first_prefix old value :
  replace_first old "" (old +:+ value) = drop_chars (String.length old) (old +:+ value).
Proof.
  destruct (old +:+ value) as [|c s] eqn:Hs.
  - destruct old; [|discriminate]. reflexivity.
  - cbn [replace_first]. rewrite <- Hs at 1. now rewrite prefix_app.
Qed.

Lemma drop_chars_app old value :
  drop_chars (String.length old) (old +:+ value) = value.
Proof.
  induction old as [|c old IH]; [now destruct value|].
  change (String c old +:+ value) with (String c (old +:+ value)). exact IH.
Qed.

(** X: [_strip_event_prefix] undoes the [event:] prefix that
    [_nsr_tags_from_inputs] puts on the authoritative and previous event ids,
    removes nothing else, and turns an empty or missing value into none. *)
Theorem strip_event_prefix_inverts :
  forall (authoritative_event : string) (steward previous reason effective_at : option string),
    option_map (fun v => _strip_event_prefix (Some v))
      (head (stored_values "authoritative"
               (Json._nsr_tags_from_inputs authoritative_event steward previous
                                           reason effective_at)))
    = Some (Some authoritative_event)
    /\ option_map (fun v => _strip_event_prefix (Some v))
         (head (stored_values "previous"
                  (Json._nsr_tags_from_inputs authoritative_event steward previous
                                              reason effective_at)))
       = (if opt_str_truthy previous then Some previous else None)
    /\ _strip_event_prefix (Some "") = None
    /\ _strip_event_prefix None = None.
Proof.
  intros authoritative_event steward previous reason effective_at.
  assert (Hstrip : forall x, _strip_event_prefix (Some ("event:" +:+ x)) = Some x).
  { intros x. unfold _strip_event_prefix.
    change (str_truthy ("event:" +:+ x)) with true. cbn [negb].
    now rewrite prefix_app, replace_first_prefix, drop_chars_app. }
  split; [|split; [|split; reflexivity]].
  - unfold Json._nsr_tags_from_inputs. rewrite stored_values_app, stored_values_one.
    rewrite String.eqb_refl. cbn [app head option_map]. now rewrite Hstrip.
  - unfold Json._nsr_tags_from_inputs.
    rewrite !stored_values_app, !stored_values_pair_if_truthy, stored_values_one.
    eval_eqb. cbn [app].
    destruct previous as [[|c p]|]; reflexivity.
Qed.

End TextMoreFacts.

(** ** Sorting, continued *)

Section OrderByMore.
Import Store.
Context {A : Type} (before : A -> A -> bool).
Hypothesis before_total : forall x y, before x y = false -> before y x = true.
Hypothesis before_trans :
  forall x y z, before x y = true -> before y z = true -> before x z = true.

Lemma insert_by_perm x l : Permutation (insert_by before x l) (x :: l).
Proof.
  induction l as [|y l IH]; [reflexivity|]. cbn [insert_by].
  destruct (before x y); [reflexivity|].
  rewrite IH. apply perm_swap.
Qed.

Lemma order_by_perm l : Permutation (order_by before l) l.
Proof.
  induction l as [|x l IH]; [reflexivity|]. cbn [order_by fold_right].
  fold (order_by before l). rewrite insert_by_perm. now constructor.
Qed.

Lemma insert_by_sorted x l :
  StronglySorted (fun a b => before a b = true) l ->
  StronglySorted (fun a b => before a b = true) (insert_by before x l).
Proof.
  induction 1 as [|y l Hl IH Hy]; cbn [insert_by]; [repeat constructor|].
  destruct (before x y) eqn:Hxy.
  - constructor; [now constructor|]. constructor; [exact Hxy|].
    eapply Forall_impl; [exact Hy|]. intros z Hz. cbn in *. eauto.
  - constructor; [exact IH|].
    apply Forall_forall. intros z Hz. apply list_elem_of_In in Hz.
    apply (Permutation_in _ (insert_by_perm x l)) in Hz.
    destruct Hz as [<-|Hz]; [now apply before_total|].
    rewrite Forall_forall in Hy. now apply Hy, list_elem_of_In.
Qed.

Lemma order_by_sorted l :
  StronglySorted (fun a b => before a b = true) (order_by before l).
Proof.
  induction l as [|x l IH]; [constructor|]. cbn [order_by fold_right].
  now apply insert_by_sorted.
Qed.

Lemma filter_insert_by (p : A -> bool) x l :
  StronglySorted (fun a b => before a b = true) l ->
  List.filter p (insert_by before x l)
  = if p x then insert_by before x (List.filter p l) else List.filter p l.
Proof.
  induction 1 as [|y l Hl IH Hy]; cbn [insert_by List.filter].
  { now destruct (p x). }
  destruct (before x y) eqn:Hxy; cbn [List.filter].
  - destruct (p x); [|reflexivity].
    destruct (p y); cbn [insert_by]; [now rewrite Hxy|].
    destruct (List.filter p l) as [|z zs] eqn:Hf; [reflexivity|]. cbn [insert_by].
    assert (Hz : In z l).
    { assert (Hin : In z (List.filter p l)) by (rewrite Hf; now left).
      now apply List.filter_In in Hin. }
    rewrite Forall_forall in Hy.
    now rewrite (before_trans x y z Hxy (Hy z (proj2 (list_elem_of_In _ _) Hz))).
  - rewrite IH. destruct (p x), (p y); cbn [insert_by]; try reflexivity.
    now rewrite Hxy.
Qed.

(** Sorting and filtering commute, the sort being stable. *)
Lemma filter_order_by (p : A -> bool) l :
  List.filter p (order_by before l) = order_by before (List.filter p l).
Proof.
  induction l as [|x l IH]; [reflexivity|]. cbn [order_by fold_right List.filter].
  fold (order_by before l). rewrite filter_insert_by by apply order_by_sorted.
  rewrite IH. now destruct (p x).
Qed.

(** A row put last comes out first exactly when no row before it may come
    before it. *)
Lemma head_order_by_last l x :
  head (order_by before (l ++ [x])) = Some x
  \/ exists r, In r l /\ head (order_by before (l ++ [x])) = Some r
               /\ before r x = true.
Proof.
  destruct (head (order_by before (l ++ [x]))) as [r|] eqn:Hhead.
  - destruct (head_order_by_first before before_total before_trans _ _ Hhead)
      as (l1 & l2 & Hsplit & H1 & H2).
    destruct l2 as [|z l2 _] using rev_ind.
    + apply app_inj_tail in Hsplit as [_ ->]. now left.
    + right. exists r.
      change (l1 ++ r :: l2 ++ [z]) with (l1 ++ (r :: l2) ++ [z]) in Hsplit.
      rewrite app_assoc in Hsplit. apply app_inj_tail in Hsplit as [-> ->].
      split; [apply in_or_app; right; now left|]. split; [reflexivity|].
      rewrite Forall_forall in H2. apply H2, list_elem_of_In, in_or_app. right. now left.
  - apply head_order_by_nil in Hhead. now destruct l.
Qed.

End OrderByMore.

(** ** Draft store, continued *)

Section StoreMoreFacts.
Import Store Listing Spec.

(** X: the listing of a kind holds every stored draft of that kind exactly
    once, the most recently updated first. *)
Theorem list_drafts_newest_first :
  forall (db : Database) (kind : Z),
    StronglySorted (fun a b => l_updated_at b <= l_updated_at a)
                   (_db_list_drafts db kind)
    /\ Permutation (_db_list_drafts db kind)
                   (map listed (List.filter (fun r => Z.eqb (dr_kind r) kind)
                                            (drafts db))).
Proof.
  intros db kind. unfold _db_list_drafts. split.
  - pose proof (order_by_sorted newer_first newer_first_total newer_first_trans
                  (order_by index_order
                     (List.filter (fun r => Z.eqb (dr_kind r) kind) (drafts db)))) as Hs.
    induction Hs as [|r l Hl IH Hr]; cbn [map]; constructor; [exact IH|].
    apply Forall_forall. intros x Hx.
    apply list_elem_of_In, List.in_map_iff in Hx as (y & <- & Hy).
    rewrite Forall_forall in Hr. apply list_elem_of_In, Hr in Hy.
    unfold newer_first in Hy. apply Z.leb_le in Hy. exact Hy.
  - apply Permutation_map. etransitivity; apply order_by_perm.
Qed.

Lemma filter_map_listed d rows :
  List.filter (fun l => String.eqb (l_d l) d) (map listed rows)
  = map listed (List.filter (fun r => String.eqb (dr_d r) d) rows).
Proof.
  induction rows as [|r rows IH]; [reflexivity|]. cbn [map List.filter].
  change (l_d (listed r)) with (dr_d r).
  destruct (String.eqb (dr_d r) d); cbn [map]; now rewrite IH.
Qed.

Lemma filter_filter_kind_d kind d rows :
  List.filter (fun r => String.eqb (dr_d r) d)
              (List.filter (fun r => Z.eqb (dr_kind r) kind) rows)
  = List.filter (fun r => Z.eqb (dr_kind r) kind && String.eqb (dr_d r) d) rows.
Proof.
  induction rows as [|r rows IH]; [reflexivity|]. cbn [List.filter].
  destruct (Z.eqb (dr_kind r) kind); cbn [List.filter andb]; [|exact IH].
  destruct (String.eqb (dr_d r) d); now rewrite IH.
Qed.

Lemma filter_perm {A} (p : A -> bool) (l l' : list A) :
  Permutation l l' -> Permutation (List.filter p l) (List.filter p l').
Proof.
  induction 1 as [|x l l' Hl IH|x y l|l1 l2 l3 H12 IH12 H23 IH23]; cbn [List.filter].
  - constructor.
  - destruct (p x); [now constructor|exact IH].
  - destruct (p x), (p y); try reflexivity. constructor.
  - etransitivity; eassumption.
Qed.

(** The first of the rows sorted by [updated_at] carries the greatest
    [updated_at], in whatever order the rows were before. *)
Lemma newest_of_perm (l l' : list Draft) :
  Permutation l l' ->
  option_map dr_updated_at (head (order_by newer_first l))
  = option_map dr_updated_at (head (order_by newer_first l')).
Proof.
  intros Hperm.
  destruct (head (order_by newer_first l)) as [a|] eqn:Ha;
    destruct (head (order_by newer_first l')) as [b|] eqn:Hb; cbn [option_map].
  - destruct (head_order_by_least newer_first newer_first_total newer_first_trans
                _ _ Ha) as [Hina Hleast_a].
    destruct (head_order_by_least newer_first newer_first_total newer_first_trans
                _ _ Hb) as [Hinb Hleast_b].
    assert (Hab : newer_first a b = true).
    { apply Hleast_a. apply list_elem_of_In. rewrite Hperm.
      now apply list_elem_of_In. }
    assert (Hba : newer_first b a = true).
    { apply Hleast_b. apply list_elem_of_In. rewrite <- Hperm.
      now apply list_elem_of_In. }
    unfold newer_first in Hab, Hba. apply Z.leb_le in Hab, Hba. f_equal. lia.
  - apply head_order_by_nil in Hb. subst l'. apply Permutation_nil_r in Hperm.
    subst l. discriminate.
  - apply head_order_by_nil in Ha. subst l. apply Permutation_nil_l in Hperm.
    subst l'. discriminate.
  - reflexivity.
Qed.

(** X: the first row of the listing of a kind that carries an identifier is
    a latest revision of that identifier: there is such a row exactly when
    the latest query finds one, and the two agree on [updated_at]. *)
Theorem latest_is_first_listed :
  forall (db : Database) (kind : Z) (d : string),
    option_map l_updated_at
      (head (List.filter (fun l => String.eqb (l_d l) d) (_db_list_drafts db kind)))
    = option_map dr_updated_at (_db_get_latest_draft db kind d).
Proof.
  intros db kind d. unfold _db_get_latest_draft, _db_list_drafts.
  rewrite filter_map_listed.
  rewrite (filter_order_by newer_first newer_first_total newer_first_trans).
  rewrite <- filter_filter_kind_d.
  set (rows := List.filter (fun r => Z.eqb (dr_kind r) kind) (drafts db)).
  rewrite <- (newest_of_perm
                (List.filter (fun r => String.eqb (dr_d r) d) (order_by index_order rows))
                (List.filter (fun r => String.eqb (dr_d r) d) rows))
    by apply filter_perm, order_by_perm.
  now destruct (order_by newer_first _).
Qed.

Lemma draft_by_id_none db draft_id :
  draft_by_id db draft_id = None ->
  Forall (fun r => Z.eqb (dr_id r) draft_id = false) (drafts db).
Proof.
  unfold draft_by_id. induction (drafts db) as [|r rows IH]; [constructor|].
  cbn [List.filter]. destruct (Z.eqb (dr_id r) draft_id) eqn:Hid; [discriminate|].
  intros Hnone. constructor; auto.
Qed.

(** X: an update under an id that no draft has changes no draft row and
    raises nothing, yet it stores the supplied tags under that id. *)
Theorem update_missing_draft_writes_tags :
  forall (db : Database) (now draft_id : Z) (title : option string)
         (content : string) (new_tags : list (string * string))
         (status : option string) (published_at : option Z)
         (event_id : option string),
    draft_by_id db draft_id = None ->
    drafts (_db_update_draft db now draft_id title content new_tags status
                             published_at event_id)
    = drafts db
    /\ _db_get_tags (_db_update_draft db now draft_id title content new_tags status
                                      published_at event_id) draft_id
       = new_tags.
Proof.
  intros db now draft_id title content new_tags status published_at event_id Hnone.
  split; [|unfold _db_update_draft; apply get_tags_set_tags].
  apply draft_by_id_none in Hnone. unfold _db_update_draft, _db_set_tags; cbn.
  induction Hnone as [|r rows Hr _ IH]; [reflexivity|]. cbn [map].
  now rewrite Hr, IH.
Qed.

(** X: an update touches one draft only: the ids of the draft rows and
    their order stay, every row with another id is what it was, the tags of
    every other draft, the queue and the configuration are what they were.
    An insert, too, leaves the tags of every other draft alone. *)
Theorem update_touches_one_draft :
  forall (db : Database) (now draft_id : Z) (title : option string)
         (content : string) (new_tags : list (string * string))
         (status : option string) (published_at : option Z)
         (event_id : option string),
    let db' := _db_update_draft db now draft_id title content new_tags status
                                published_at event_id in
    map dr_id (drafts db') = map dr_id (drafts db)
    /\ Forall2 (fun r r' => dr_id r = draft_id \/ r' = r) (drafts db) (drafts db')
    /\ (forall other, other <> draft_id ->
          _db_get_tags db' other = _db_get_tags db other)
    /\ publish_queue db' = publish_queue db
    /\ config db' = config db
    /\ (forall kind d status' other,
          let inserted := _db_insert_draft db now kind d title content new_tags
                                           status' published_at in
          other <> fst inserted ->
          _db_get_tags (snd inserted) other = _db_get_tags db other).
Proof.
  intros db now draft_id title content new_tags status published_at event_id db'.
  subst db'. split; [|split; [|split; [|split; [|split]]]].
  - unfold _db_update_draft, _db_set_tags; cbn [drafts set_tags set_drafts].
    induction (drafts db) as [|r rows IH]; [reflexivity|]. cbn [map].
    rewrite IH. f_equal. now destruct (Z.eqb (dr_id r) draft_id).
  - unfold _db_update_draft, _db_set_tags; cbn [drafts set_tags set_drafts].
    induction (drafts db) as [|r rows IH]; cbn [map]; constructor; [|exact IH].
    destruct (Z.eqb_spec (dr_id r) draft_id); [now left|now right].
  - intros other Hne. now apply update_draft_keeps_other_tags.
  - reflexivity.
  - reflexivity.
  - intros kind d status' other inserted Hne. subst inserted.
    unfold _db_insert_draft in *. cbn [fst snd] in *.
    rewrite get_tags_set_tags_other by exact Hne. reflexivity.
Qed.

Lemma filter_revision_after_insert db now kind d title content new_tags status
    published_at :
  List.filter (fun r => Z.eqb (dr_kind r) kind && String.eqb (dr_d r) d)
    (drafts (snd (_db_insert_draft db now kind d title content new_tags status
                                   published_at)))
  = List.filter (fun r => Z.eqb (dr_kind r) kind && String.eqb (dr_d r) d) (drafts db)
    ++ [mkDraft (next_rowid (map dr_id (drafts db))) kind d title content now now
                published_at None status].
Proof.
  unfold _db_insert_draft; cbn [snd]. unfold _db_set_tags; cbn [drafts set_tags set_drafts].
  rewrite List.filter_app. cbn [List.filter dr_kind dr_d].
  now rewrite Z.eqb_refl, String.eqb_refl.
Qed.

(** X: right after an insert made at a time later than the [updated_at] of
    every earlier revision of the same kind and identifier, the latest query
    for them returns the row just inserted. *)
Theorem insert_then_latest :
  forall (db : Database) (now kind : Z) (d : string) (title : option string)
         (content : string) (new_tags : list (string * string)) (status : string)
         (published_at : option Z),
    Forall (fun r => revision_of kind d r = true -> dr_updated_at r < now)
           (drafts db) ->
    _db_get_latest_draft
      (snd (_db_insert_draft db now kind d title content new_tags status published_at))
      kind d
    = Some (mkDraft (next_rowid (map dr_id (drafts db))) kind d title content
                    now now published_at None status).
Proof.
  intros db now kind d title content new_tags status published_at Hall.
  unfold _db_get_latest_draft. rewrite filter_revision_after_insert.
  set (new_row := mkDraft _ kind d title content now now published_at None status).
  set (old := List.filter (fun r => Z.eqb (dr_kind r) kind && String.eqb (dr_d r) d)
                          (drafts db)).
  destruct (head_order_by_last newer_first newer_first_total newer_first_trans
              old new_row) as [Hhead|(r & Hr & _ & Hnewer)]; [exact Hhead|].
  apply List.filter_In in Hr as [Hr Hrev]. rewrite Forall_forall in Hall.
  apply list_elem_of_In, Hall in Hr; [|exact Hrev].
  unfold newer_first in Hnewer. cbn in Hnewer. apply Z.leb_le in Hnewer. lia.
Qed.

End StoreMoreFacts.

(** ** Retry delay, continued *)

Section BackoffMoreFacts.
Import Backoff.

(** X: whatever the attempt number, zero and negative ones included, the
    delay stays within a fifth of the base: 0.8 * base <= delay <= 1.2 * base,
    for every jitter draw between the doubles -0.2 and 0.2, both included. *)
Theorem retry_delay_within_a_fifth :
  forall (attempts : Z) (u : Q),
    (- _QUEUE_JITTER <= u)%Q -> (u <= _QUEUE_JITTER)%Q ->
    8 * base_delay attempts <= 10 * _compute_retry_delay attempts u
    /\ 10 * _compute_retry_delay attempts u <= 12 * base_delay attempts.
Proof. intros attempts u. apply retry_delay_window. Qed.

(** X: the base delay is 30 seconds up to the first attempt, 30 * 2^(n-1)
    for the attempts two to seven, and 3600 seconds from the eighth on. *)
Theorem base_delay_schedule :
  forall attempts : Z,
    base_delay attempts
    = if Z.leb attempts 1 then 30
      else if Z.leb attempts 7 then 30 * 2 ^ (attempts - 1)
      else 3600.
Proof.
  intros attempts. unfold base_delay, _QUEUE_MAX_DELAY, _QUEUE_BASE_DELAY.
  destruct (Z.leb_spec attempts 1) as [Ha|Ha].
  { rewrite Z.max_r by lia. reflexivity. }
  rewrite Z.max_l by lia.
  destruct (Z.leb_spec attempts 7) as [Hb|Hb].
  - assert (Hpow : 2 ^ (attempts - 1) <= 2 ^ 6) by (apply Z.pow_le_mono_r; lia).
    change (2 ^ 6) with 64 in Hpow. lia.
  - assert (Hpow : 2 ^ 7 <= 2 ^ (attempts - 1)) by (apply Z.pow_le_mono_r; lia).
    change (2 ^ 7) with 128 in Hpow. lia.
Qed.

End BackoffMoreFacts.

(** ** Publish attempts, continued *)

Create HintDb clean.

Section AttemptFacts.
Import Store Queue Spec.
Context `{Externals}.

Lemma unchanged_refl w : unchanged w w.
Proof. repeat split. Qed.

Lemma unchanged_trans w1 w2 w3 : unchanged w1 w2 -> unchanged w2 w3 -> unchanged w1 w3.
Proof. intros (Hd1 & Hf1 & Hn1) (Hd2 & Hf2 & Hn2). repeat split; congruence. Qed.

Lemma reads_ret {A} (a : A) : reads_only (ret a).
Proof. intros w. apply unchanged_refl. Qed.

Lemma reads_raise {A} e : reads_only (@raise A e).
Proof. intros w. apply unchanged_refl. Qed.

Lemma reads_lift {A} (o : outcome A) : reads_only (lift o).
Proof. intros w. apply unchanged_refl. Qed.

Lemma reads_now : reads_only _now.
Proof. intros w. repeat split. Qed.

Lemma reads_get_db path : reads_only (get_db path).
Proof. intros w. apply unchanged_refl. Qed.

Lemma reads_load_json path : reads_only (_load_json path).
Proof.
  intros w. unfold _load_json.
  destruct (files w path) as [[text|v]|]; apply unchanged_refl.
Qed.

Lemma reads_bind {A B} (c : M A) (k : A -> M B) :
  reads_only c -> (forall a, reads_only (k a)) -> reads_only (bind c k).
Proof.
  intros Hc Hk w. unfold bind. specialize (Hc w).
  destruct (c w) as [[a|e] w1]; cbn [snd] in *; [|exact Hc].
  eapply unchanged_trans; [exact Hc|apply Hk].
Qed.

Lemma fails_clean_reads {A} (c : M A) : reads_only c -> fails_clean c.
Proof. intros Hc w. specialize (Hc w). destruct (c w) as [[a|e] w']; [exact I|exact Hc]. Qed.

Lemma fails_clean_bind {A B} (c : M A) (k : A -> M B) :
  reads_only c -> (forall a, fails_clean (k a)) -> fails_clean (bind c k).
Proof.
  intros Hc Hk w. unfold bind. specialize (Hc w).
  destruct (c w) as [[a|e] w1]; cbn [snd] in Hc; [|exact Hc].
  specialize (Hk a w1). destruct (k a w1) as [[b|e] w2]; [exact I|].
  eapply unchanged_trans; eassumption.
Qed.

(** A computation that always returns has nothing to answer for. *)
Lemma fails_clean_returns {A} (c : M A) :
  (forall w, exists a w', c w = (Returns a, w')) -> fails_clean c.
Proof. intros Hc w. destruct (Hc w) as (a & w' & ->). exact I. Qed.

Hint Resolve reads_ret reads_raise reads_lift reads_now reads_get_db
  reads_load_json : clean.

Lemma reads_attempt_publish_payload p relays keys :
  reads_only (_attempt_publish_payload p relays keys).
Proof.
  unfold _attempt_publish_payload.
  repeat (apply reads_bind; [auto with clean|intros; auto with clean]).
Qed.

Lemma reads_load_config_db config_path : reads_only (_load_config_db config_path).
Proof. unfold _load_config_db. apply reads_bind; auto with clean. Qed.

Lemma reads_load_privkey config_path :
  reads_only (_load_privkey_from_config config_path).
Proof.
  unfold _load_privkey_from_config.
  destruct (opt_str_truthy config_path); auto with clean.
  apply reads_bind; [apply reads_load_config_db|].
  intros [ | | | | |c]; auto with clean.
Qed.

Lemma fails_clean_then_ret {A B} (c : M A) (b : B) :
  fails_clean c -> fails_clean (bind c (fun _ => ret b)).
Proof.
  intros Hc w. unfold bind, ret. specialize (Hc w).
  destruct (c w) as [[a|e] w']; [exact I|exact Hc].
Qed.

(** The directory is refused before the file is opened. *)
Lemma fails_clean_write_json path data : fails_clean (_write_json path data).
Proof.
  intros w. unfold _write_json.
  destruct (str_truthy (dirname path)); [exact I|apply unchanged_refl].
Qed.

Lemma fails_clean_attempt_publish_json json_path relays keys :
  fails_clean (_attempt_publish_json json_path relays keys).
Proof.
  unfold _attempt_publish_json.
  apply fails_clean_bind; [auto with clean|].
  intros [ | | | | |p];
    try solve [apply fails_clean_reads, reads_bind; [auto with clean|intros; auto with clean]].
  apply fails_clean_bind; [apply reads_attempt_publish_payload|].
  intros [event_id p']. apply fails_clean_then_ret, fails_clean_write_json.
Qed.

Lemma fails_clean_attempt_publish_draft config_path draft_id relays keys :
  fails_clean (_attempt_publish_draft config_path draft_id relays keys).
Proof.
  unfold _attempt_publish_draft.
  apply fails_clean_bind; [auto with clean|]. intros db.
  destruct (draft_by_id db draft_id) as [draft|];
    [|apply fails_clean_reads; auto with clean].
  apply fails_clean_bind; [auto with clean|]. intros created_at.
  destruct (Builder._payload_from_draft _ _ _ _ _ _) as [p|];
    [|apply fails_clean_reads; auto with clean].
  apply fails_clean_bind; [apply reads_attempt_publish_payload|]. intros [event_id p'].
  apply fails_clean_bind.
  { destruct (Z.eqb (dr_kind draft) 30050); [|auto with clean].
    apply reads_bind; auto with clean. }
  intros published_at. apply fails_clean_returns. intros w.
  unfold bind, get_db, _now, put_db, ret. eauto.
Qed.

(** X: an attempt that raises, whatever it raises, has written nothing: the
    databases, the JSON files and the messages sent to [output] are what
    they were, only the clock has been read. *)
Theorem failed_attempt_writes_nothing :
  forall (task : Task) (w : World),
    match _run_publish_task task w with
    | (Raises _, w') =>
        dbs w' = dbs w /\ files w' = files w /\ notices w' = notices w
    | (Returns _, _) => True
    end.
Proof.
  intros task. change (fails_clean (_run_publish_task task)).
  unfold _run_publish_task.
  apply fails_clean_bind.
  { destruct (opt_str_truthy _); [apply reads_load_config_db|auto with clean]. }
  intros config. apply fails_clean_bind; [apply reads_load_privkey|]. intros privkey.
  destruct (py_truthy privkey); [|apply fails_clean_reads; auto with clean].
  destruct (Keys_parse privkey) as [text|keys]; [apply fails_clean_reads; auto with clean|].
  destruct (String.eqb (task_type task) "draft").
  { destruct (task_draft_id task);
      [apply fails_clean_attempt_publish_draft|apply fails_clean_reads; auto with clean]. }
  destruct (String.eqb (task_type task) "json").
  { destruct (task_json_path task);
      [apply fails_clean_attempt_publish_json|apply fails_clean_reads; auto with clean]. }
  destruct (String.eqb (task_type task) "payload");
    [|apply fails_clean_reads; auto with clean].
  destruct (task_payload task); try solve [apply fails_clean_reads; auto with clean].
  apply fails_clean_reads, reads_bind; [apply reads_attempt_publish_payload|].
  intros [event_id p']. auto with clean.
Qed.

Lemma parse_tags_lists tags :
  forallb is_entry tags = true ->
  match parse_tags tags with Some (SystemExit _) => False | _ => True end.
Proof.
  induction tags as [|tag tags IH]; [intros _; exact I|].
  cbn [forallb]. intros Hall. apply andb_true_iff in Hall as [Htag Hall].
  destruct tag as [ | | | |l| ]; try discriminate. cbn [parse_tags].
  destruct (Tag_parse l); [exact I|]. now apply IH.
Qed.

(** X: once stamped, a document payload (kind 30050) passes every check of
    [build_event_from_json] that ends in [SystemExit]: the builder returns
    or raises an [Exception] of the library. *)
Theorem stamped_document_builds :
  forall (now : Z) (p : payload),
    is_document p = true ->
    match build_event_from_json (Builder._prepare_payload_for_publish now p) with
    | Raises (SystemExit _) => False
    | _ => True
    end.
Proof.
  intros now p Hdoc. unfold build_event_from_json.
  assert (Hkind : Builder._prepare_payload_for_publish now p !! "kind" = p !! "kind").
  { unfold Builder._prepare_payload_for_publish. now rewrite !lookup_insert_ne by discriminate. }
  rewrite Hkind. unfold is_document in Hdoc.
  destruct (p !! "kind") as [k|] eqn:Hk; [|discriminate].
  assert (Htags : default (PList []) (Builder._prepare_payload_for_publish now p !! "tags")
                  = PList (Builder._ensure_tags (Builder._prepare_payload_for_publish now p))).
  { unfold Builder._prepare_payload_for_publish, Builder._ensure_tags.
    now rewrite !lookup_insert_eq. }
  rewrite Htags, prepare_tags. unfold is_document. rewrite Hk, Hdoc.
  assert (Hentries : forallb is_entry
            (List.filter (Builder.keeps_tag "published_at") (Builder._ensure_tags p)
             ++ [tag2 "published_at" (py_str_of_int now)]) = true).
  { rewrite List.forallb_app. apply andb_true_iff. split; [|reflexivity].
    apply List.forallb_forall. intros tag Hin. apply List.filter_In in Hin as [_ Hkeep].
    destruct tag as [ | | | |[|x l]| ]; try discriminate. reflexivity. }
  pose proof (parse_tags_lists _ Hentries) as Hparse.
  destruct k; try discriminate;
    (destruct (parse_tags _) as [[text|text]|]; [exact I|destruct Hparse|];
     destruct (EventBuilder_error _); exact I).
Qed.

Lemma draft_by_id_some db draft_id r :
  draft_by_id db draft_id = Some r -> dr_id r = draft_id.
Proof.
  unfold draft_by_id. intros Hhead.
  assert (Hin : In r (List.filter (fun r => Z.eqb (dr_id r) draft_id) (drafts db))).
  { destruct (List.filter _ _) as [|x l]; [discriminate|].
    injection Hhead as ->. now left. }
  apply List.filter_In in Hin as [_ Hid]. now apply Z.eqb_eq.
Qed.

(** The only trace an attempt on a payload leaves in the world is one
    reading of the clock. *)
Lemma attempt_publish_payload_world p relays keys w :
  snd (_attempt_publish_payload p relays keys w) = set_ticks w (S (ticks w)).
Proof.
  unfold _attempt_publish_payload, bind, _now, lift, ret; simpl.
  destruct (build_event_from_json _); [|reflexivity].
  destruct (publish_event _ relays keys); reflexivity.
Qed.

(** X: when the attempt for a stored draft returns an event id, that id is
    what the relays answered to the draft's payload, built at the first
    reading of the clock and stamped at the second, and the draft row is
    marked: status [published], the event id stored in the row and as the
    only [eventid] tag, and for a document the third reading of the clock,
    taken after the delivery, stored as [published_at] in the row and as the
    only [published_at] tag; [updated_at] is the reading after that; title,
    content, kind, identifier and [created_at] are what they were. *)
Theorem published_draft_is_marked :
  forall (config_path : option string) (draft_id : Z) (relays : pyval) (keys : Keys)
         (w w' : World) (draft : Draft) (event_id : string),
    draft_by_id (dbs w (_resolve_db_path config_path)) draft_id = Some draft ->
    _attempt_publish_draft config_path draft_id relays keys w = (Returns event_id, w') ->
    let path := _resolve_db_path config_path in
    let reading (i : nat) := clock w (ticks w + i)%nat in
    (exists p : payload,
       Builder._payload_from_draft (dr_kind draft) (dr_d draft) (dr_title draft)
         (dr_content draft) (_db_get_tags (dbs w path) draft_id) (reading 0%nat)
       = Some p
       /\ client_send_event (Builder._prepare_payload_for_publish (reading 1%nat) p)
                            relays keys
          = inr event_id)
    /\ exists r' : Draft,
      draft_by_id (dbs w' path) draft_id = Some r'
      /\ dr_status r' = "published"
      /\ dr_event_id r' = Some event_id
      /\ dr_title r' = dr_title draft /\ dr_content r' = dr_content draft
      /\ dr_kind r' = dr_kind draft /\ dr_d r' = dr_d draft
      /\ dr_created_at r' = dr_created_at draft
      /\ stored_values "eventid" (_db_get_tags (dbs w' path) draft_id) = [event_id]
      /\ if Z.eqb (dr_kind draft) 30050
         then dr_published_at r' = Some (reading 2%nat)
              /\ stored_values "published_at" (_db_get_tags (dbs w' path) draft_id)
                 = [py_str_of_int (reading 2%nat)]
              /\ dr_updated_at r' = reading 3%nat
         else dr_published_at r' = dr_published_at draft
              /\ dr_updated_at r' = reading 2%nat.
Proof.
  intros config_path draft_id relays keys w w' draft event_id Hdraft Hrun path reading.
  pose proof (draft_by_id_some _ _ _ Hdraft) as Hid.
  unfold _attempt_publish_draft in Hrun. fold path in Hrun, Hdraft.
  unfold bind at 1, get_db in Hrun. rewrite Hdraft in Hrun.
  unfold bind at 1, _now at 1 in Hrun. rewrite Hid in Hrun.
  assert (Hr0 : reading 0%nat = clock w (ticks w)).
  { unfold reading. now rewrite Nat.add_0_r. }
  rewrite Hr0.
  destruct (Builder._payload_from_draft _ _ _ _ _ _) as [p|]; [|discriminate].
  unfold bind at 1 in Hrun.
  pose proof (attempt_publish_payload_world p relays keys
                (set_ticks w (S (ticks w)))) as Hw1.
  pose proof (attempt_publish_payload_prepares p relays keys
                (set_ticks w (S (ticks w)))) as Hsent.
  destruct (_attempt_publish_payload p relays keys _) as [[[id p']|e] w1];
    [|discriminate].
  cbn [snd] in Hw1. subst w1. destruct Hsent as [-> Hsent].
  cbn [clock ticks set_ticks] in Hsent.
  assert (Hr1 : reading 1%nat = clock w (S (ticks w))).
  { unfold reading. now rewrite Nat.add_1_r. }
  assert (Hr2 : reading 2%nat = clock w (S (S (ticks w)))).
  { unfold reading. f_equal. lia. }
  assert (Hr3 : reading 3%nat = clock w (S (S (S (ticks w))))).
  { unfold reading. f_equal. lia. }
  rewrite Hr1, Hr2, Hr3.
  destruct (Z.eqb (dr_kind draft) 30050) eqn:Hkind.
  - unfold bind, _now, ret, get_db, put_db in Hrun. cbn in Hrun.
    injection Hrun as <- <-. cbn [dbs set_dbs]. rewrite String.eqb_refl.
    split; [exists p; split; [reflexivity|exact Hsent]|].
    eexists. rewrite draft_by_id_update, Hdraft. cbn [option_map].
    repeat split; try reflexivity.
    + unfold _db_update_draft. rewrite get_tags_set_tags.
      pose proof (add_or_replace_tag_spec' (Builder._add_or_replace_tag
                    (_db_get_tags (dbs w path) draft_id) "eventid" id)
                    "published_at" (py_str_of_int (clock w (S (S (ticks w)))))
                    "eventid") as Hp.
      rewrite Hp. apply add_or_replace_tag_spec'.
    + unfold _db_update_draft. rewrite get_tags_set_tags.
      apply add_or_replace_tag_spec'.
  - unfold bind, _now, ret, get_db, put_db in Hrun. cbn in Hrun.
    injection Hrun as <- <-. cbn [dbs set_dbs]. rewrite String.eqb_refl.
    split; [exists p; split; [reflexivity|exact Hsent]|].
    eexists. rewrite draft_by_id_update, Hdraft. cbn [option_map].
    repeat split; try reflexivity.
    unfold _db_update_draft. rewrite get_tags_set_tags.
    apply add_or_replace_tag_spec'.
Qed.

End AttemptFacts.

(** ** The queue over time *)

Section WorkerFacts.
Import Store Queue Worker Spec.
Context `{Externals}.

(** X: a queued task whose [config_path] is missing or empty can never be
    delivered nor abandoned: the pass that selects it ends in [SystemExit]
    for the missing private key, with the row, every database and file as
    they were and nothing sent to [output]. *)
Theorem task_without_config_path_is_stuck :
  forall (db_path : string) (output : option callable) (w : World) (row : QueueRow),
    select_due (dbs w db_path) (clock w (ticks w)) = Some row ->
    opt_str_truthy (q_config_path row) = false ->
    _process_publish_queue_db db_path output w
    = (Raises (SystemExit "Missing privkey for queued publish."),
       set_ticks w (S (ticks w))).
Proof.
  intros db_path output w row Hsel Hpath.
  rewrite process_publish_queue_db_unfold, Hsel. cbv zeta.
  unfold _run_publish_task, _load_privkey_from_config.
  change (task_config_path (_queue_row_to_task row)) with (q_config_path row).
  rewrite Hpath. reflexivity.
Qed.

Lemma rowid_order_map (f : QueueRow -> QueueRow) queue :
  (forall r, q_id (f r) = q_id r) -> rowid_order queue -> rowid_order (map f queue).
Proof.
  intros Hf. unfold rowid_order.
  induction 1 as [|r rows Hrows IH Hr]; cbn [map]; constructor; [exact IH|].
  apply Forall_forall. intros x Hx.
  apply list_elem_of_In, List.in_map_iff in Hx as (y & <- & Hy).
  rewrite Forall_forall in Hr. rewrite !Hf. now apply Hr, list_elem_of_In.
Qed.

Lemma retry_keeps_rowid_order id attempts next exc queue :
  rowid_order queue ->
  rowid_order (map (fun r => if Z.eqb (q_id r) id then retry_row attempts next exc r
                             else r) queue).
Proof.
  apply rowid_order_map. intros r. now destruct (Z.eqb (q_id r) id).
Qed.

(** The queue table of [other] after a pass over [db_path]. *)
Lemma dispatch_queue_after db_path output w other :
  let queue := publish_queue (dbs w other) in
  let queue' := publish_queue
                  (dbs (snd (_process_publish_queue_db db_path output w)) other) in
  queue' = queue
  \/ String.eqb other db_path = true
     /\ ((exists id, queue' = List.filter (fun r => negb (Z.eqb (q_id r) id)) queue)
         \/ exists id attempts next exc,
              queue' = map (fun r => if Z.eqb (q_id r) id
                                     then retry_row attempts next exc r else r) queue).
Proof.
  cbv zeta. rewrite process_publish_queue_db_unfold. cbv zeta.
  destruct (select_due _ _) as [row|]; [|now left].
  destruct (keeps_run_publish_task (_queue_row_to_task row) (set_ticks w (S (ticks w))))
    as [Hq _].
  destruct (_run_publish_task _ _) as [[event_id|[exc|text]] w2]; cbn [snd] in Hq.
  - destruct (String.eqb other db_path) eqn:Hother.
    + right. split; [reflexivity|]. left. exists (q_id row).
      apply String.eqb_eq in Hother as ->.
      destruct output; cbn; rewrite String.eqb_refl; cbn; now rewrite Hq.
    + left. destruct output; cbn; rewrite Hother; apply Hq.
  - unfold on_failure. destruct (Z.leb _ _).
    + destruct (String.eqb other db_path) eqn:Hother.
      * right. split; [reflexivity|]. left. exists (q_id row).
        apply String.eqb_eq in Hother as ->.
        destruct output; cbn; rewrite String.eqb_refl; cbn; now rewrite Hq.
      * left. destruct output; cbn; rewrite Hother; apply Hq.
    + destruct (String.eqb other db_path) eqn:Hother.
      * right. split; [reflexivity|]. right.
        apply String.eqb_eq in Hother as ->.
        destruct output; cbn; rewrite String.eqb_refl; cbn; rewrite Hq; eauto.
      * left. destruct output; cbn; rewrite Hother; apply Hq.
  - left. apply Hq.
Qed.

(** X: a pass keeps the queue table in rowid order, each id on one row, and
    leaves the queue table of every other database as it was. *)
Theorem dispatch_keeps_rowid_order :
  forall (db_path other : string) (output : option callable) (w : World),
    rowid_order (publish_queue (dbs w other)) ->
    rowid_order (publish_queue
                   (dbs (snd (_process_publish_queue_db db_path output w)) other))
    /\ (if String.eqb other db_path then True
        else publish_queue
               (dbs (snd (_process_publish_queue_db db_path output w)) other)
             = publish_queue (dbs w other)).
Proof.
  intros db_path other output w Hsorted.
  destruct (dispatch_queue_after db_path output w other)
    as [Heq|(Hsame & [(id & Heq)|(id & attempts & next & exc & Heq)])];
    cbv zeta in Heq; rewrite Heq.
  - split; [exact Hsorted|]. now destruct (String.eqb other db_path).
  - rewrite Hsame. split; [now apply rowid_order_filter|exact I].
  - rewrite Hsame. split; [now apply retry_keeps_rowid_order|exact I].
Qed.

Lemma pass_with_due_row db_path output w row :
  select_due (dbs w db_path) (clock w (ticks w)) = Some row ->
  match fst (_process_publish_queue_db db_path output w) with
  | Returns processed => processed = true
  | Raises _ => True
  end.
Proof.
  intros Hsel. rewrite process_publish_queue_db_unfold, Hsel. cbv zeta.
  destruct (_run_publish_task _ _) as [[event_id|[exc|text]] w2]; [| |exact I].
  - destruct output; reflexivity.
  - unfold on_failure. destruct (Z.leb _ _); destruct output; reflexivity.
Qed.

(** X: a poll cycle attempts one task at most: when the first database of
    the cycle has a due task, the cycle ends with the pass over it, and the
    queue table of every other database is as it was, due tasks or not. *)
Theorem poll_cycle_stops_after_first_due :
  forall (db_path other : string) (rest : list string) (output : option callable)
         (w : World) (row : QueueRow),
    select_due (dbs w db_path) (clock w (ticks w)) = Some row ->
    snd (_process_publish_queue_once (db_path :: rest) output w)
    = snd (_process_publish_queue_db db_path output w)
    /\ (if String.eqb other db_path then True
        else publish_queue
               (dbs (snd (_process_publish_queue_once (db_path :: rest) output w)) other)
             = publish_queue (dbs w other)).
Proof.
  intros db_path other rest output w row Hsel.
  assert (Hsnd : snd (_process_publish_queue_once (db_path :: rest) output w)
                 = snd (_process_publish_queue_db db_path output w)).
  { unfold _process_publish_queue_once. cbn [process_paths]. unfold bind.
    pose proof (pass_with_due_row db_path output w row Hsel) as Hpass.
    destruct (_process_publish_queue_db db_path output w) as [[processed|e] w'];
      cbn [fst] in Hpass; [|reflexivity].
    now rewrite Hpass. }
  split; [exact Hsnd|]. rewrite Hsnd.
  destruct (String.eqb other db_path) eqn:Hother; [exact I|].
  destruct (dispatch_queue_after db_path output w other) as [Heq|[Hsame _]];
    [exact Heq|congruence].
Qed.

Lemma select_due_nothing db now :
  Forall (fun r => now < q_next_attempt_at r) (publish_queue db) ->
  select_due db now = None.
Proof.
  intros Hall. unfold select_due.
  rewrite (List.filter_ext_in _ (fun _ => false)), List.filter_false; [reflexivity|].
  intros r Hr. rewrite Forall_forall in Hall. apply list_elem_of_In, Hall in Hr.
  now apply Z.leb_gt.
Qed.

Lemma set_ticks_twice w n m : set_ticks (set_ticks w n) m = set_ticks w m.
Proof. reflexivity. Qed.

Lemma process_paths_idle db_paths output : forall w,
  (forall i db_path, db_paths !! i = Some db_path ->
     Forall (fun r => clock w (ticks w + i)%nat < q_next_attempt_at r)
            (publish_queue (dbs w db_path))) ->
  process_paths db_paths output w
  = (Returns tt, set_ticks w (ticks w + length db_paths)).
Proof.
  induction db_paths as [|db_path rest IH]; intros w Hidle.
  - cbn. rewrite Nat.add_0_r. now destruct w.
  - cbn [process_paths]. unfold bind.
    rewrite process_publish_queue_db_unfold. cbv zeta.
    rewrite select_due_nothing.
    + rewrite IH.
      * rewrite set_ticks_twice. cbn [ticks set_ticks length]. do 2 f_equal. lia.
      * intros i p Hp. specialize (Hidle (S i) p Hp). cbn [ticks set_ticks clock dbs].
        now replace (S (ticks w) + i)%nat with (ticks w + S i)%nat by lia.
    + specialize (Hidle O db_path eq_refl). now rewrite Nat.add_0_r in Hidle.
Qed.

(** X: a poll cycle that finds no due task in any registered database, or in
    the default one when none is registered, changes nothing: it returns
    having read the clock once for each database. *)
Theorem idle_poll_cycle_changes_nothing :
  forall (registered : list string) (output : option callable) (w : World),
    let db_paths := match registered with
                    | [] => [_default_db_path]
                    | _ => registered
                    end in
    (forall i db_path, db_paths !! i = Some db_path ->
       Forall (fun r => clock w (ticks w + i)%nat < q_next_attempt_at r)
              (publish_queue (dbs w db_path))) ->
    _process_publish_queue_once registered output w
    = (Returns tt, set_ticks w (ticks w + length db_paths)).
Proof.
  intros registered output w db_paths Hidle.
  unfold _process_publish_queue_once. fold db_paths. now apply process_paths_idle.
Qed.

(** X: enqueueing a task that leaves [attempts] and [next_attempt_at] to
    their defaults adds one row to the queue table of its database and
    changes no other row: the row has an id that no row had, the fields of
    the task, the generated task id and the time of the enqueue where the
    task names none, no attempt counted, no error, and a first attempt due
    between 24 and 36 seconds after the enqueue, so it is not due at once.
    The database is registered; drafts, tags, the other databases and the
    messages are what they were. *)
Theorem enqueue_adds_task :
  forall (uuid_hex : string) (task : TaskDict) (paths : gset string) (w : World),
    let db_path := _resolve_db_path (td_config_path task) in
    let now := clock w (ticks w) in
    (- Backoff._QUEUE_JITTER <= uniform w (draws w))%Q ->
    (uniform w (draws w) <= Backoff._QUEUE_JITTER)%Q ->
    td_attempts task = None ->
    td_next_attempt_at task = None ->
    exists (w' : World) (row : QueueRow),
      _enqueue_publish_task uuid_hex task paths w
      = (Returns ({[ db_path ]} ∪ paths), w')
      /\ Permutation (publish_queue (dbs w' db_path))
                     (row :: publish_queue (dbs w db_path))
      /\ ~ In (q_id row) (map q_id (publish_queue (dbs w db_path)))
      /\ q_task_id row = default uuid_hex (td_id task)
      /\ q_task_type row = td_type task
      /\ q_config_path row = td_config_path task
      /\ q_draft_id row = td_draft_id task
      /\ q_json_path row = td_json_path task
      /\ q_payload row = payload_column task
      /\ q_relays row = relays_column task
      /\ q_created_at row = default now (td_created_at task)
      /\ q_attempts row = 0
      /\ q_max_attempts row = default 5 (td_max_attempts task)
      /\ q_last_error row = None
      /\ now + 24 <= q_next_attempt_at row <= now + 36
      /\ drafts (dbs w' db_path) = drafts (dbs w db_path)
      /\ tags (dbs w' db_path) = tags (dbs w db_path)
      /\ (forall other, String.eqb other db_path = false -> dbs w' other = dbs w other)
      /\ notices w' = notices w.
Proof.
  intros uuid_hex task paths w db_path now Hlo Hhi Hattempts Hnext.
  unfold _enqueue_publish_task, _register_queue_db_path.
  fold db_path. rewrite Hattempts, Hnext. cbn [default].
  unfold bind, _now, _compute_retry_delay, random_uniform, get_db, put_db, ret.
  cbn -[Backoff._compute_retry_delay next_rowid String.eqb].
  eexists _, _. split; [reflexivity|].
  cbn [dbs set_dbs notices]. rewrite String.eqb_refl.
  cbn [publish_queue set_publish_queue drafts tags].
  destruct (retry_delay_window (0 + 1) (uniform w (draws w)) Hlo Hhi) as [Hlow Hup].
  change (Backoff.base_delay (0 + 1)) with 30 in Hlow, Hup.
  split; [symmetry; apply Permutation_cons_append|].
  split; [intros Hin; apply next_rowid_above in Hin; cbn [q_id] in Hin; lia|].
  repeat split; try reflexivity; cbn [q_next_attempt_at]; try (fold now; lia).
  intros other Hother. now rewrite Hother.
Qed.

End WorkerFacts.

(** ** Closed examples, continued *)

Section MoreExamples.
Import Store Queue Worker Listing Text Spec Fixtures MoreFixtures.

(** C9 as stated does not hold: [/revise-ncc] with an import stores the
    imported tags before it asks for the authors; when the validation of the
    authors then fails, the draft and its tags, here an author that is a
    secret key, are in the database. *)
Lemma revise_import_stores_unvalidated_authors :
  Revise.revise_ncc (H := failing_sdk) (fun _ => "") empty_db 1000 1001
                    (Some imported_payload) enter_everywhere
  = Some (Revise.Rejected
            ("Authors must be npub or hex public keys. Invalid entries: "
             +:+ "nsec1abc looks like a secret key (nsec)"),
          mkDatabase
            [mkDraft 1 30050 "ncc-07" (Some "Foo") "text" 1000 1000 None None "draft"]
            [mkTagRow 1 "authors" "nsec1abc"] None []).
Proof. vm_compute. reflexivity. Qed.

Lemma parse_list_value_round_trip_witness :
  Forall list_item ["rfc"; "npub1x"]
  /\ (exists text, _format_list_default (Some ["rfc"; "npub1x"]) = Some text
                   /\ _parse_list_value text = ["rfc"; "npub1x"])
  /\ _format_list_default (Some []) = None
  /\ _format_list_default None = None.
Proof.
  assert (Hitems : Forall list_item ["rfc"; "npub1x"]).
  { repeat constructor; discriminate. }
  split; [exact Hitems|].
  exact (parse_list_value_round_trip "rfc" ["npub1x"] Hitems).
Defined.

Lemma payload_from_draft_succession_order_witness :
  30051 <> 30050
  /\ Builder._payload_from_draft 30051 "ncc-01" (Some "ignored") "ack"
       [("steward", "npub1x"); ("authoritative", "event:aa")] 1000
     = Some (<["tags" := PList (canonical_succession_tags "ncc-01"
                                [("steward", "npub1x"); ("authoritative", "event:aa")])]>
             (<["kind" := PInt 30051]>
              (<["created_at" := PInt 1000]>
               (<["content" := PStr "ack"]> ∅)))).
Proof.
  assert (Hkind : 30051 <> 30050) by lia.
  split; [exact Hkind|].
  exact (payload_from_draft_succession_order 30051 "ncc-01" (Some "ignored") "ack"
           [("steward", "npub1x"); ("authoritative", "event:aa")] 1000 Hkind).
Defined.

Lemma build_document_json_agrees_witness :
  "Foo" <> ""
  /\ Builder._payload_from_draft 30050 "ncc-07" (Some "Foo") "text"
       (Json._ncc_tags_from_inputs (Some "S") (default [] (Some ["a"; "b"])) None None
          (default [] None) None (default [] (Some ["npub1x"])) (Some 1700000000))
       1700000000
     = Some (Json.build_document_json "ncc-07" "Foo" "text" 1700000000 (Some "S")
               (Some ["a"; "b"]) None None None None (Some ["npub1x"])).
Proof.
  assert (Htitle : "Foo" <> "") by discriminate.
  split; [exact Htitle|].
  exact (build_document_json_agrees "ncc-07" "Foo" "text" 1700000000 (Some "S")
           (Some ["a"; "b"]) None None None None (Some ["npub1x"]) Htitle).
Defined.

Lemma update_missing_draft_writes_tags_witness :
  draft_by_id (dbs world "/db") 7 = None
  /\ drafts (_db_update_draft (dbs world "/db") 1000 7 None "text" [("t", "a")]
                              None None None)
     = drafts (dbs world "/db")
  /\ _db_get_tags (_db_update_draft (dbs world "/db") 1000 7 None "text" [("t", "a")]
                                    None None None) 7
     = [("t", "a")].
Proof.
  split; [reflexivity|].
  exact (update_missing_draft_writes_tags (dbs world "/db") 1000 7 None "text"
           [("t", "a")] None None None eq_refl).
Defined.

Lemma insert_then_latest_witness :
  Forall (fun r => revision_of 30050 "ncc-01" r = true -> dr_updated_at r < 1000)
         (drafts (dbs world "/db"))
  /\ _db_get_latest_draft
       (snd (_db_insert_draft (dbs world "/db") 1000 30050 "ncc-01" (Some "Foo")
                              "second text" [] "draft" None))
       30050 "ncc-01"
     = Some (mkDraft 2 30050 "ncc-01" (Some "Foo") "second text" 1000 1000 None None
                     "draft").
Proof.
  assert (Hall : Forall (fun r => revision_of 30050 "ncc-01" r = true ->
                                  dr_updated_at r < 1000)
                        (drafts (dbs world "/db"))).
  { repeat constructor. }
  split; [exact Hall|].
  exact (insert_then_latest (dbs world "/db") 1000 30050 "ncc-01" (Some "Foo")
           "second text" [] "draft" None Hall).
Defined.

(** A stored-JSON task whose path names no directory: the relays accept
    the event, then writing the file back fails, and the attempt counts as
    failed although the event was delivered. *)
Example json_path_without_directory :
  let w := set_files world
             (fun p => if String.eqb p "ncc-07.json" then Some (inr inline_payload)
                       else None) in
  _attempt_publish_json (H := ok_sdk) "ncc-07.json" relay_list "5f2c" w
  = (Raises (Exception "[Errno 2] No such file or directory: ''"),
     set_ticks w 1).
Proof. vm_compute. reflexivity. Qed.

Lemma retry_delay_within_a_fifth_witness :
  (- Backoff._QUEUE_JITTER <= - Backoff._QUEUE_JITTER)%Q
  /\ (- Backoff._QUEUE_JITTER <= Backoff._QUEUE_JITTER)%Q
  /\ 8 * Backoff.base_delay 0 <= 10 * Backoff._compute_retry_delay 0 (- Backoff._QUEUE_JITTER)
  /\ 10 * Backoff._compute_retry_delay 0 (- Backoff._QUEUE_JITTER) <= 12 * Backoff.base_delay 0.
Proof.
  assert (H1 : (- Backoff._QUEUE_JITTER <= - Backoff._QUEUE_JITTER)%Q)
    by (vm_compute; discriminate).
  assert (H2 : (- Backoff._QUEUE_JITTER <= Backoff._QUEUE_JITTER)%Q)
    by (vm_compute; discriminate).
  split; [exact H1|]. split; [exact H2|].
  exact (retry_delay_within_a_fifth 0 (- Backoff._QUEUE_JITTER) H1 H2).
Defined.

Lemma stamped_document_builds_witness :
  is_document (<["kind" := PInt 30050]> (<["tags" := PList [PInt 3]]> ∅)) = true
  /\ match build_event_from_json (H := ok_sdk)
             (Builder._prepare_payload_for_publish 1000
                (<["kind" := PInt 30050]> (<["tags" := PList [PInt 3]]> ∅))) with
     | Raises (SystemExit _) => False
     | _ => True
     end.
Proof.
  split; [reflexivity|].
  exact (stamped_document_builds (H := ok_sdk) 1000
           (<["kind" := PInt 30050]> (<["tags" := PList [PInt 3]]> ∅)) eq_refl).
Defined.

Lemma published_draft_is_marked_witness :
  draft_by_id (dbs world "/db") 1 = Some draft1
  /\ _attempt_publish_draft (H := ok_sdk) (Some "/db") 1 relay_list "5f2c" world
     = (Returns "e5f1",
        snd (_attempt_publish_draft (H := ok_sdk) (Some "/db") 1 relay_list "5f2c" world))
  /\ (exists p : payload,
        Builder._payload_from_draft 30050 "ncc-01" (Some "Foo") "text"
          (_db_get_tags (dbs world "/db") 1) (clock world (0 + 0))
        = Some p
        /\ client_send_event (Externals := ok_sdk)
             (Builder._prepare_payload_for_publish (clock world (0 + 1)) p)
             relay_list "5f2c"
           = inr "e5f1")
  /\ exists r' : Draft,
       draft_by_id (dbs (snd (_attempt_publish_draft (H := ok_sdk) (Some "/db") 1
                                relay_list "5f2c" world)) "/db") 1
       = Some r'
       /\ dr_status r' = "published"
       /\ dr_event_id r' = Some "e5f1"
       /\ dr_title r' = Some "Foo" /\ dr_content r' = "text"
       /\ dr_kind r' = 30050 /\ dr_d r' = "ncc-01"
       /\ dr_created_at r' = 10
       /\ stored_values "eventid"
            (_db_get_tags (dbs (snd (_attempt_publish_draft (H := ok_sdk) (Some "/db") 1
                                       relay_list "5f2c" world)) "/db") 1)
          = ["e5f1"]
       /\ dr_published_at r' = Some (clock world (0 + 2))
       /\ stored_values "published_at"
            (_db_get_tags (dbs (snd (_attempt_publish_draft (H := ok_sdk) (Some "/db") 1
                                       relay_list "5f2c" world)) "/db") 1)
          = [py_str_of_int (clock world (0 + 2))]
       /\ dr_updated_at r' = clock world (0 + 3).
Proof.
  assert (Hrun : _attempt_publish_draft (H := ok_sdk) (Some "/db") 1 relay_list "5f2c" world
                 = (Returns "e5f1",
                    snd (_attempt_publish_draft (H := ok_sdk) (Some "/db") 1 relay_list
                           "5f2c" world)))
    by (vm_compute; reflexivity).
  split; [reflexivity|]. split; [exact Hrun|].
  exact (published_draft_is_marked (H := ok_sdk) (Some "/db") 1 relay_list "5f2c" world _
           draft1 "e5f1" eq_refl Hrun).
Defined.

(** The draft of the small world is published at 1002, the third reading of
    a clock that starts at 1000. *)
Example published_draft_time :
  option_map dr_published_at
    (draft_by_id (dbs (snd (_attempt_publish_draft (H := ok_sdk) (Some "/db") 1
                              relay_list "5f2c" world)) "/db") 1)
  = Some (Some 1002).
Proof. vm_compute. reflexivity. Qed.

Lemma task_without_config_path_is_stuck_witness :
  select_due (dbs world_no_config "/db") (clock world_no_config (ticks world_no_config))
  = Some row_no_config
  /\ opt_str_truthy (q_config_path row_no_config) = false
  /\ _process_publish_queue_db (H := ok_sdk) "/db" (Some Callable) world_no_config
     = (Raises (SystemExit "Missing privkey for queued publish."),
        set_ticks world_no_config 1).
Proof.
  split; [vm_compute; reflexivity|]. split; [reflexivity|].
  exact (task_without_config_path_is_stuck (H := ok_sdk) "/db" (Some Callable)
           world_no_config row_no_config eq_refl eq_refl).
Defined.

Lemma dispatch_keeps_rowid_order_witness :
  rowid_order (publish_queue (dbs world "/db"))
  /\ rowid_order (publish_queue
                    (dbs (snd (_process_publish_queue_db (H := failing_sdk) "/db" None
                                 world)) "/db")).
Proof.
  assert (Hsorted : rowid_order (publish_queue (dbs world "/db"))).
  { unfold rowid_order. simpl. repeat constructor. }
  split; [exact Hsorted|].
  exact (proj1 (dispatch_keeps_rowid_order (H := failing_sdk) "/db" "/db" None world
                  Hsorted)).
Defined.

Lemma poll_cycle_stops_after_first_due_witness :
  select_due (dbs world "/db") (clock world (ticks world)) = Some row2
  /\ snd (_process_publish_queue_once (H := failing_sdk) ["/db"; "/other"] None world)
     = snd (_process_publish_queue_db (H := failing_sdk) "/db" None world).
Proof.
  split; [vm_compute; reflexivity|].
  exact (proj1 (poll_cycle_stops_after_first_due (H := failing_sdk) "/db" "/other"
                  ["/other"] None world row2 eq_refl)).
Defined.

Lemma idle_poll_cycle_changes_nothing_witness :
  (forall i db_path, ["/other"; "/elsewhere"] !! i = Some db_path ->
     Forall (fun r => clock world (ticks world + i)%nat < q_next_attempt_at r)
            (publish_queue (dbs world db_path)))
  /\ _process_publish_queue_once (H := failing_sdk) ["/other"; "/elsewhere"] None world
     = (Returns tt, set_ticks world 2).
Proof.
  assert (Hidle : forall i db_path, ["/other"; "/elsewhere"] !! i = Some db_path ->
            Forall (fun r => clock world (ticks world + i)%nat < q_next_attempt_at r)
                   (publish_queue (dbs world db_path))).
  { intros [|[|i]] db_path Hp; try discriminate; injection Hp as <-; constructor. }
  split; [exact Hidle|].
  exact (idle_poll_cycle_changes_nothing (H := failing_sdk) ["/other"; "/elsewhere"]
           None world Hidle).
Defined.

Lemma enqueue_adds_task_witness :
  (- Backoff._QUEUE_JITTER <= uniform world (draws world))%Q
  /\ (uniform world (draws world) <= Backoff._QUEUE_JITTER)%Q
  /\ td_attempts payload_task = None
  /\ td_next_attempt_at payload_task = None
  /\ exists (w' : World) (row : QueueRow),
       _enqueue_publish_task (H := failing_sdk) "0f3a" payload_task ∅ world
       = (Returns ({[ "/db" ]} ∪ ∅), w')
       /\ Permutation (publish_queue (dbs w' "/db"))
                      (row :: publish_queue (dbs world "/db"))
       /\ ~ In (q_id row) (map q_id (publish_queue (dbs world "/db")))
       /\ q_task_id row = "0f3a"
       /\ q_task_type row = "payload"
       /\ q_config_path row = Some "/db"
       /\ q_draft_id row = None
       /\ q_json_path row = None
       /\ q_payload row = Some inline_payload
       /\ q_relays row = Some relay_list
       /\ q_created_at row = 1000
       /\ q_attempts row = 0
       /\ q_max_attempts row = 5
       /\ q_last_error row = None
       /\ 1000 + 24 <= q_next_attempt_at row <= 1000 + 36
       /\ drafts (dbs w' "/db") = drafts (dbs world "/db")
       /\ tags (dbs w' "/db") = tags (dbs world "/db")
       /\ (forall other, String.eqb other "/db" = false -> dbs w' other = dbs world other)
       /\ notices w' = notices world.
Proof.
  assert (H1 : (- Backoff._QUEUE_JITTER <= uniform world (draws world))%Q)
    by (vm_compute; discriminate).
  assert (H2 : (uniform world (draws world) <= Backoff._QUEUE_JITTER)%Q)
    by (vm_compute; discriminate).
  split; [exact H1|]. split; [exact H2|].
  split; [reflexivity|]. split; [reflexivity|].
  exact (enqueue_adds_task (H := failing_sdk) "0f3a" payload_task ∅ world
           H1 H2 eq_refl eq_refl).
Defined.

End MoreExamples.
